(** * The Flux transformer of comfy/ldm/flux/model.py

    A shallow embedding of [FluxParams], [Flux.__init__], [Flux.forward_orig]
    and [Flux.forward], together with the tensor primitives they call
    (einops [rearrange]/[repeat], [torch.cat], slicing, broadcasting [+],
    [torch.zeros], [torch.linspace]).

    The sub-layers of [.layers] and [operations.Linear] are not part of the
    file under study: their numeric behaviour is a parameter of the
    development (class [Backend]).  Every call of a sub-layer is recorded in
    a trace, so that statements about what is applied, in which order and to
    which arguments, can be made about the code itself. *)

From Stdlib Require Import String DecimalString.
From Stdlib Require Import List ZArith QArith Lia Bool Arith PeanoNat Sorted.
Import ListNotations.

Local Open Scope nat_scope.

(** ** Exceptions and results *)

(** The sub-module attributes of a [Flux] object; [DoubleBlocks k] and
    [SingleBlocks k] are the k-th entries of the two [nn.ModuleList]s. *)
Inductive Slot : Type :=
| PeEmbedder
| ImgIn
| TimeIn
| VectorIn
| GuidanceIn
| TxtIn
| DoubleBlocks (k : nat)
| SingleBlocks (k : nat)
| FinalLayer.

(** [ValueError] is what the file raises itself (and what tuple unpacking
    raises).  An exception that escapes a sub-layer is kept apart as
    [LayerError slot]: the model does not look inside it. *)
Inductive exn : Type :=
| ValueError (msg : string)
| ZeroDivisionError
| IndexError
| RuntimeError
| EinopsError
| HelperError (name : string)
| LayerError (s : Slot).

Inductive result (X : Type) : Type :=
| Ok (x : X)
| Raise (e : exn).
Arguments Ok {X} x.
Arguments Raise {X} e.

Definition rbind {X Y} (r : result X) (k : X -> result Y) : result Y :=
  match r with
  | Ok x => k x
  | Raise e => Raise e
  end.

Declare Scope result_scope.
Delimit Scope result_scope with result.
Notation "x <- r ;; k" := (rbind r (fun x => k))
  (at level 61, r at next level, right associativity) : result_scope.

(** ** Python integers *)

Definition py_mod (a b : Z) : result Z :=
  if (b =? 0)%Z then Raise ZeroDivisionError else Ok (a mod b)%Z.

Definition py_floordiv (a b : Z) : result Z :=
  if (b =? 0)%Z then Raise ZeroDivisionError else Ok (a / b)%Z.

Definition py_sum (l : list Z) : Z := fold_left Z.add l 0%Z.

(** [range(n)] is empty for n <= 0. *)
Definition range (n : Z) : list nat := seq 0 (Z.to_nat n).

Definition string_of_Z (z : Z) : string := NilZero.string_of_int (Z.to_int z).

Fixpoint join_Z (l : list Z) : string :=
  match l with
  | [] => EmptyString
  | [z] => string_of_Z z
  | z :: r => string_of_Z z ++ ", " ++ join_Z r
  end.

Definition string_of_list_Z (l : list Z) : string := "[" ++ join_Z l ++ "]".

(** ** Tensors *)

(** What the element type of tensors has to provide: the zero of
    [torch.zeros], element-wise [+], the scalar of a dtype that is exactly
    a given integer when the dtype has one (bfloat16, with its 8
    significant bits, has none for 257), the points of
    [torch.linspace(0, n - 1, steps=n)] in a dtype, conversion between
    dtypes and the result dtype of a binary operation.

    [lin dt n i] is point i of the n points.  torch computes it from the
    end points 0 and n - 1 and the step (n - 1) / (n - 1) in the arithmetic
    of the dtype, so it depends on the number of points as well as on i;
    it is the integer i when the dtype holds every integer below n exactly
    ([lin_exact]), and whatever the rounding of the dtype makes of it
    otherwise. *)
Class Scalar (A Dtype : Type) : Type := {
  zero : A;
  add : A -> A -> A;
  number : Dtype -> Z -> option A;
  lin : Dtype -> nat -> nat -> A;
  convert : Dtype -> Dtype -> A -> A;
  promote : Dtype -> Dtype -> Dtype;
  promote_same : forall dt, promote dt dt = dt;
  convert_same : forall dt a, convert dt dt a = a;
  number_zero : forall dt, number dt 0%Z = Some zero;
  number_inj : forall dt m n a, number dt m = Some a -> number dt n = Some a -> m = n;
  lin_exact : forall dt n,
    (forall k, k < n -> number dt (Z.of_nat k) <> None) ->
    forall i, i < n -> number dt (Z.of_nat i) = Some (lin dt n i);
  add_zero_lin : forall dt n i, add zero (lin dt n i) = lin dt n i
}.

Section Tensors.
Context {A Dtype : Type} `{Sc : Scalar A Dtype}.

(** A contiguous tensor: its dtype, its shape and its elements in
    row-major order. *)
Record Tensor : Type := mkTensor {
  dtype : Dtype;
  shape : list nat;
  data : list A
}.

Definition ndim (t : Tensor) : nat := length (shape t).

Definition numel (s : list nat) : nat := fold_right Nat.mul 1 s.

Definition wf (t : Tensor) : Prop := length (data t) = numel (shape t).

(** Flat offset of a multi-index, and back. *)
Fixpoint ravel (s idx : list nat) : nat :=
  match s, idx with
  | _ :: s', i :: idx' => i * numel s' + ravel s' idx'
  | _, _ => 0
  end.

Fixpoint unravel (s : list nat) (n : nat) : list nat :=
  match s with
  | [] => []
  | _ :: s' => n / numel s' :: unravel s' (n mod numel s')
  end.

Definition gather {X} (d : X) (perm : list nat) (l : list X) : list X :=
  map (fun k => nth k l d) perm.

Fixpoint index_of (j : nat) (perm : list nat) : nat :=
  match perm with
  | [] => 0
  | k :: r => if k =? j then 0 else S (index_of j r)
  end.

Definition invperm (perm : list nat) : list nat :=
  map (fun j => index_of j perm) (seq 0 (length perm)).

(** [t.permute(perm)], made contiguous: axis k of the result is axis
    [perm[k]] of [t]. *)
Definition permute (perm : list nat) (t : Tensor) : Tensor :=
  let s' := gather 0 perm (shape t) in
  {| dtype := dtype t;
     shape := s';
     data := map (fun o => nth (ravel (shape t)
                                      (gather 0 (invperm perm) (unravel s' o)))
                               (data t) zero)
                 (seq 0 (numel s')) |}.

(** Reshape of a contiguous tensor to a shape with as many elements. *)
Definition view (s : list nat) (t : Tensor) : Tensor :=
  {| dtype := dtype t; shape := s; data := data t |}.

(** The transpositions einops performs between splitting and merging
    axes: (b c h ph w pw) to (b h w c ph pw), and back. *)
Definition split_merge : list nat := [0; 2; 4; 1; 3; 5].
Definition merge_split : list nat := [0; 3; 1; 4; 2; 5].

(** [rearrange(x, "b c (h ph) (w pw) -> b (h w) (c ph pw)", ph=ph, pw=pw)]:
    einops splits the two composite axes, transposes and merges. *)
Definition rearrange_patchify (ph pw : nat) (x : Tensor) : result Tensor :=
  match shape x with
  | [b; c; hh; ww] =>
      if (hh mod ph =? 0) && (ww mod pw =? 0) then
        let h := hh / ph in
        let w := ww / pw in
        Ok (view [b; h * w; c * ph * pw]
              (permute split_merge (view [b; c; h; ph; w; pw] x)))
      else Raise EinopsError
  | _ => Raise EinopsError
  end.

(** [rearrange(x, "b (h w) (c ph pw) -> b c (h ph) (w pw)", h=h, w=w,
    ph=ph, pw=pw)]. *)
Definition rearrange_unpatchify (h w ph pw : nat) (x : Tensor) : result Tensor :=
  match shape x with
  | [b; n; k] =>
      if (n =? h * w) && (k mod (ph * pw) =? 0) then
        let c := k / (ph * pw) in
        Ok (view [b; c; h * ph; w * pw]
              (permute merge_split (view [b; h; w; c; ph; pw] x)))
      else Raise EinopsError
  | _ => Raise EinopsError
  end.

(** [torch.zeros(s, dtype=dt)]. *)
Definition zeros (dt : Dtype) (s : list nat) : Tensor :=
  {| dtype := dt; shape := s; data := repeat zero (numel s) |}.

(** [torch.linspace(0, n - 1, steps=n, dtype=dt)]. *)
Definition linspace (dt : Dtype) (n : nat) : Tensor :=
  {| dtype := dt; shape := [n]; data := map (lin dt n) (seq 0 n) |}.

(** [t.shape[k]]. *)
Definition shape_at (t : Tensor) (k : nat) : result nat :=
  match nth_error (shape t) k with
  | Some d => Ok d
  | None => Raise IndexError
  end.

Fixpoint shape_eqb (a b : list nat) : bool :=
  match a, b with
  | [], [] => true
  | x :: a', y :: b' => (x =? y) && shape_eqb a' b'
  | _, _ => false
  end.

(** Broadcasting of two shapes, read from the last axis. *)
Fixpoint broadcast_rev (ra rb : list nat) : option (list nat) :=
  match ra, rb with
  | [], r => Some r
  | r, [] => Some r
  | a :: ra', b :: rb' =>
      match broadcast_rev ra' rb' with
      | Some r =>
          if a =? b then Some (a :: r)
          else if a =? 1 then Some (b :: r)
          else if b =? 1 then Some (a :: r)
          else None
      | None => None
      end
  end.

Definition broadcast_shapes (sa sb : list nat) : option (list nat) :=
  option_map (@rev nat) (broadcast_rev (rev sa) (rev sb)).

(** The index at which an operand of shape [s] is read for the index
    [idx] of the broadcast result. *)
Definition bidx (s idx : list nat) : list nat :=
  map (fun p => if fst p =? 1 then 0 else snd p)
      (combine s (skipn (length idx - length s) idx)).

Definition expand_data (s target : list nat) (d : list A) : list A :=
  map (fun o => nth (ravel s (bidx s (unravel target o))) d zero)
      (seq 0 (numel target)).

(** [a + b] on tensors. *)
Definition tensor_add (a b : Tensor) : result Tensor :=
  match broadcast_shapes (shape a) (shape b) with
  | Some s =>
      Ok {| dtype := promote (dtype a) (dtype b);
            shape := s;
            data := map (fun p => add (fst p) (snd p))
                        (combine (expand_data (shape a) s (data a))
                                 (expand_data (shape b) s (data b))) |}
  | None => Raise RuntimeError
  end.

(** [t[..., k]]. *)
Definition select_last (k : nat) (t : Tensor) : result Tensor :=
  match rev (shape t) with
  | c :: r =>
      if k <? c then
        Ok {| dtype := dtype t;
              shape := rev r;
              data := map (fun o => nth (o * c + k) (data t) zero)
                          (seq 0 (numel (rev r))) |}
      else Raise IndexError
  | [] => Raise IndexError
  end.

(** [t[..., k] = v]: the value is broadcast to the selected slice and
    converted to the dtype of [t]. *)
Definition setitem_last (k : nat) (v t : Tensor) : result Tensor :=
  match rev (shape t) with
  | c :: r =>
      if k <? c then
        if match broadcast_shapes (shape v) (rev r) with
           | Some s => shape_eqb s (rev r)
           | None => false
           end
        then
          let vd := expand_data (shape v) (rev r) (data v) in
          Ok {| dtype := dtype t;
                shape := shape t;
                data := map (fun p => if p mod c =? k
                                      then convert (dtype v) (dtype t) (nth (p / c) vd zero)
                                      else nth p (data t) zero)
                            (seq 0 (numel (shape t))) |}
        else Raise RuntimeError
      else Raise IndexError
  | [] => Raise IndexError
  end.

(** [repeat(t, "h w c -> b (h w) c", b=b)]. *)
Definition repeat_batch (b : nat) (t : Tensor) : result Tensor :=
  match shape t with
  | [h; w; c] =>
      Ok {| dtype := dtype t;
            shape := [b; h * w; c];
            data := concat (repeat (data t) b) |}
  | _ => Raise EinopsError
  end.

(** Rows [lo, hi) of a list cut in rows of [sz] elements. *)
Definition rows (sz lo hi : nat) (d : list A) : list A :=
  firstn ((hi - lo) * sz) (skipn (lo * sz) d).

(** [t.to(dt)]. *)
Definition to_dtype (dt : Dtype) (t : Tensor) : Tensor :=
  {| dtype := dt; shape := shape t; data := map (convert (dtype t) dt) (data t) |}.

(** A tensor of shape (0,), which [torch.cat] skips. *)
Definition legacy_empty (t : Tensor) : bool := shape_eqb (shape t) [0].

(** [t] alone as the result of a concatenation along axis 1, in the dtype
    [dt] that all the operands promote to, the skipped ones included. *)
Definition cat1_alone (dt : Dtype) (t : Tensor) : result Tensor :=
  match shape t with
  | _ :: _ :: _ => Ok (to_dtype dt t)
  | _ => Raise IndexError
  end.

(** [torch.cat((a, b), dim=1)]. *)
Definition cat1 (a b : Tensor) : result Tensor :=
  if legacy_empty a then
    (if legacy_empty b then Ok (to_dtype (promote (dtype a) (dtype b)) a)
     else cat1_alone (promote (dtype a) (dtype b)) b)
  else if legacy_empty b then cat1_alone (promote (dtype a) (dtype b)) a
  else
    match shape a, shape b with
    | ba :: na :: ra, bb :: nb :: rb =>
        if (ba =? bb) && shape_eqb ra rb then
          Ok {| dtype := promote (dtype a) (dtype b);
                shape := ba :: (na + nb) :: ra;
                data := flat_map (fun i => rows (numel ra) (i * na) (i * na + na) (data a)
                                        ++ rows (numel ra) (i * nb) (i * nb + nb) (data b))
                                 (seq 0 ba) |}
        else Raise RuntimeError
    | _, _ => Raise IndexError
    end.

(** [t[:, n:, ...]]. *)
Definition slice1_from (n : nat) (t : Tensor) : result Tensor :=
  match shape t with
  | b :: m :: r =>
      Ok {| dtype := dtype t;
            shape := b :: (m - n) :: r;
            data := flat_map (fun i => rows (numel r) (i * m + Nat.min n m) (i * m + m) (data t))
                             (seq 0 b) |}
  | _ => Raise IndexError
  end.

(** [t[idx]] for a full multi-index [idx]. *)
Definition item (t : Tensor) (idx : list nat) : A :=
  nth (ravel (shape t) idx) (data t) zero.

End Tensors.

Arguments Tensor A Dtype : clear implicits.

(** ** The configuration and the model object *)

Module FluxParams.
Record t : Type := mk {
  in_channels : Z;
  vec_in_dim : Z;
  context_in_dim : Z;
  hidden_size : Z;
  mlp_ratio : Q;
  num_heads : Z;
  depth : Z;
  depth_single_blocks : Z;
  axes_dim : list Z;
  theta : Z;
  qkv_bias : bool;
  guidance_embed : bool
}.
End FluxParams.

(** A sub-layer as the constructor builds it: its class and the arguments
    it was built with.  ([dtype], [device] and [operations] are handed on
    unchanged to every sub-layer and belong to the backend.) *)
Inductive Layer : Type :=
| Linear (in_features out_features : Z) (bias : bool)
| MLPEmbedder (in_dim hidden_dim : Z)
| Identity
| EmbedND (dim theta : Z) (axes_dim : list Z)
| DoubleStreamBlock (hidden_size num_heads : Z) (mlp_ratio : Q) (qkv_bias : bool)
| SingleStreamBlock (hidden_size num_heads : Z) (mlp_ratio : Q)
| LastLayer (hidden_size patch_size out_channels : Z).

Record Flux {Dtype : Type} : Type := mkFlux {
  model_dtype : option Dtype;
  params : FluxParams.t;
  in_channels : Z;
  out_channels : Z;
  hidden_size : Z;
  num_heads : Z;
  pe_embedder : Layer;
  img_in : Layer;
  time_in : Layer;
  vector_in : Layer;
  guidance_in : Layer;
  txt_in : Layer;
  double_blocks : list Layer;
  single_blocks : list Layer;
  final_layer : Layer
}.
Arguments Flux Dtype : clear implicits.

Section Init.
Context {Dtype : Type}.
Local Open Scope result_scope.
Local Open Scope string_scope.

(** [Flux.__init__(dtype=dtype, **kwargs)], with [kwargs] already
    gathered in a [FluxParams]. *)
Definition __init__ (dtype : option Dtype) (kwargs : FluxParams.t) : result (Flux Dtype) :=
  let params := kwargs in
  let in_channels := FluxParams.in_channels params in
  let out_channels := in_channels in
  r <- py_mod (FluxParams.hidden_size params) (FluxParams.num_heads params) ;;
  if negb (r =? 0)%Z then
    Raise (ValueError ("Hidden size " ++ string_of_Z (FluxParams.hidden_size params)
                       ++ " must be divisible by num_heads "
                       ++ string_of_Z (FluxParams.num_heads params)))
  else
    pe_dim <- py_floordiv (FluxParams.hidden_size params) (FluxParams.num_heads params) ;;
    if negb (py_sum (FluxParams.axes_dim params) =? pe_dim)%Z then
      Raise (ValueError ("Got " ++ string_of_list_Z (FluxParams.axes_dim params)
                         ++ " but expected positional dim " ++ string_of_Z pe_dim))
    else
      let hidden_size := FluxParams.hidden_size params in
      let num_heads := FluxParams.num_heads params in
      Ok {| model_dtype := dtype;
            params := params;
            in_channels := in_channels;
            out_channels := out_channels;
            hidden_size := hidden_size;
            num_heads := num_heads;
            pe_embedder := EmbedND pe_dim (FluxParams.theta params)
                                   (FluxParams.axes_dim params);
            img_in := Linear in_channels hidden_size true;
            time_in := MLPEmbedder 256 hidden_size;
            vector_in := MLPEmbedder (FluxParams.vec_in_dim params) hidden_size;
            guidance_in := if FluxParams.guidance_embed params
                           then MLPEmbedder 256 hidden_size
                           else Identity;
            txt_in := Linear (FluxParams.context_in_dim params) hidden_size true;
            double_blocks :=
              map (fun _ => DoubleStreamBlock hidden_size num_heads
                              (FluxParams.mlp_ratio params)
                              (FluxParams.qkv_bias params))
                  (range (FluxParams.depth params));
            single_blocks :=
              map (fun _ => SingleStreamBlock hidden_size num_heads
                              (FluxParams.mlp_ratio params))
                  (range (FluxParams.depth_single_blocks params));
            final_layer := LastLayer hidden_size 1 out_channels |}.
End Init.

(** ** Sub-layers and the trace of their calls *)

(** The forward functions of the layer classes.  The slot tells which
    weights of the checkpoint the layer holds; [None] stands for any
    exception the layer raises. *)
Class Backend (A Dtype : Type) : Type := {
  linear_forward : Slot -> Z -> Z -> bool -> Tensor A Dtype -> option (Tensor A Dtype);
  mlp_embedder_forward : Slot -> Z -> Z -> Tensor A Dtype -> option (Tensor A Dtype);
  embed_nd_forward : Slot -> Z -> Z -> list Z -> Tensor A Dtype -> option (Tensor A Dtype);
  double_stream_block_forward :
    Slot -> Z -> Z -> Q -> bool ->
    Tensor A Dtype -> Tensor A Dtype -> Tensor A Dtype -> Tensor A Dtype ->
    option (Tensor A Dtype * Tensor A Dtype);
  single_stream_block_forward :
    Slot -> Z -> Z -> Q ->
    Tensor A Dtype -> Tensor A Dtype -> Tensor A Dtype -> option (Tensor A Dtype);
  last_layer_forward :
    Slot -> Z -> Z -> Z -> Tensor A Dtype -> Tensor A Dtype -> option (Tensor A Dtype);
  timestep_embedding : Tensor A Dtype -> Z -> option (Tensor A Dtype)
}.

Section Forward.
Context {A Dtype : Type} `{Sc : Scalar A Dtype} `{Bk : Backend A Dtype}.
Local Abbreviation Tensor := (Tensor A Dtype).

(** One call of a sub-layer, with the tensors it received. *)
Inductive Event : Type :=
| Call (s : Slot) (args : list Tensor).

Definition callee (e : Event) : Slot := let 'Call s _ := e in s.
Definition arguments (e : Event) : list Tensor := let 'Call _ a := e in a.

(** Computations that may raise and that log the calls they make: the
    outcome, and the events in the order they happened. *)
Definition M (X : Type) : Type := (result X * list Event)%type.

Definition ret {X} (x : X) : M X := (Ok x, []).

Definition raise {X} (e : exn) : M X := (Raise e, []).

Definition bind {X Y} (m : M X) (k : X -> M Y) : M Y :=
  match m with
  | (Ok x, evs) => let (r, evs') := k x in (r, evs ++ evs')
  | (Raise e, evs) => (Raise e, evs)
  end.

Definition lift {X} (r : result X) : M X := (r, []).

Definition helper {X} (name : string) (o : option X) : M X :=
  match o with
  | Some x => (Ok x, [])
  | None => (Raise (HelperError name), [])
  end.

Definition call {X} (s : Slot) (args : list Tensor) (o : option X) : M X :=
  match o with
  | Some x => (Ok x, [Call s args])
  | None => (Raise (LayerError s), [Call s args])
  end.

Definition outcome {X} (m : M X) : result X := fst m.
Definition trace {X} (m : M X) : list Event := snd m.

Declare Scope flux_scope.
Notation "x <- m ;; k" := (bind m (fun x => k))
  (at level 61, m at next level, right associativity) : flux_scope.
Local Open Scope flux_scope.

(** What a layer computes, by its class; a layer called with the wrong
    number of arguments raises. *)
Definition forward1 (s : Slot) (layer : Layer) (x : Tensor) : option Tensor :=
  match layer with
  | Linear i o b => linear_forward s i o b x
  | MLPEmbedder i h => mlp_embedder_forward s i h x
  | Identity => Some x
  | EmbedND d th ax => embed_nd_forward s d th ax x
  | _ => None
  end.

Definition forward_double (s : Slot) (layer : Layer) (img txt vec pe : Tensor)
  : option (Tensor * Tensor) :=
  match layer with
  | DoubleStreamBlock h n r q => double_stream_block_forward s h n r q img txt vec pe
  | _ => None
  end.

Definition forward_single (s : Slot) (layer : Layer) (img vec pe : Tensor) : option Tensor :=
  match layer with
  | SingleStreamBlock h n r => single_stream_block_forward s h n r img vec pe
  | _ => None
  end.

Definition forward_final (s : Slot) (layer : Layer) (img vec : Tensor) : option Tensor :=
  match layer with
  | LastLayer h p o => last_layer_forward s h p o img vec
  | _ => None
  end.

(** [layer(x)] for the layer held in slot [s]. *)
Definition apply1 (s : Slot) (layer : Layer) (x : Tensor) : M Tensor :=
  call s [x] (forward1 s layer x).

(** [block(img=img, txt=txt, vec=vec, pe=pe)]. *)
Definition apply_double (s : Slot) (layer : Layer) (img txt vec pe : Tensor)
  : M (Tensor * Tensor) :=
  call s [img; txt; vec; pe] (forward_double s layer img txt vec pe).

(** [block(img, vec=vec, pe=pe)]. *)
Definition apply_single (s : Slot) (layer : Layer) (img vec pe : Tensor) : M Tensor :=
  call s [img; vec; pe] (forward_single s layer img vec pe).

(** [self.final_layer(img, vec)]. *)
Definition apply_final (s : Slot) (layer : Layer) (img vec : Tensor) : M Tensor :=
  call s [img; vec] (forward_final s layer img vec).

(** [for block in self.double_blocks: img, txt = block(...)], the blocks
    numbered from [k]. *)
Fixpoint run_double_blocks (blocks : list Layer) (k : nat) (img txt vec pe : Tensor)
  : M (Tensor * Tensor) :=
  match blocks with
  | [] => ret (img, txt)
  | block :: rest =>
      r <- apply_double (DoubleBlocks k) block img txt vec pe ;;
      run_double_blocks rest (S k) (fst r) (snd r) vec pe
  end.

(** [for block in self.single_blocks: img = block(img, vec=vec, pe=pe)]. *)
Fixpoint run_single_blocks (blocks : list Layer) (k : nat) (img vec pe : Tensor)
  : M Tensor :=
  match blocks with
  | [] => ret img
  | block :: rest =>
      img' <- apply_single (SingleBlocks k) block img vec pe ;;
      run_single_blocks rest (S k) img' vec pe
  end.

Definition rank_error : exn :=
  ValueError "Input img and txt tensors must have 3 dimensions.".

Definition guidance_error : exn :=
  ValueError "Didn't get guidance strength for guidance distilled model.".

Definition forward_orig (self : Flux Dtype)
    (img img_ids txt txt_ids timesteps y : Tensor) (guidance : option Tensor)
  : M Tensor :=
  if negb (ndim img =? 3) || negb (ndim txt =? 3) then raise rank_error
  else
    img <- apply1 ImgIn (img_in self) img ;;
    te <- helper "timestep_embedding" (timestep_embedding timesteps 256) ;;
    vec <- apply1 TimeIn (time_in self) (to_dtype (dtype img) te) ;;
    vec <- (if FluxParams.guidance_embed (params self) then
              match guidance with
              | None => raise guidance_error
              | Some g =>
                  ge <- helper "timestep_embedding" (timestep_embedding g 256) ;;
                  gv <- apply1 GuidanceIn (guidance_in self) (to_dtype (dtype img) ge) ;;
                  lift (tensor_add vec gv)
              end
            else ret vec) ;;
    yv <- apply1 VectorIn (vector_in self) y ;;
    vec <- lift (tensor_add vec yv) ;;
    txt <- apply1 TxtIn (txt_in self) txt ;;
    ids <- lift (cat1 txt_ids img_ids) ;;
    pe <- apply1 PeEmbedder (pe_embedder self) ids ;;
    r <- run_double_blocks (double_blocks self) 0 img txt vec pe ;;
    let img := fst r in
    let txt := snd r in
    img <- lift (cat1 txt img) ;;
    img <- run_single_blocks (single_blocks self) 0 img vec pe ;;
    n <- lift (shape_at txt 1) ;;
    img <- lift (slice1_from n img) ;;
    img <- apply_final FinalLayer (final_layer self) img vec ;;
    ret img.

(** What [bs, c, h, w = x.shape] raises for a shape of [n] entries. *)
Definition unpack_error (n : nat) : exn :=
  if n <? 4
  then ValueError ("not enough values to unpack (expected 4, got "
                   ++ string_of_Z (Z.of_nat n) ++ ")")
  else ValueError "too many values to unpack (expected 4)".

(** [img_ids[..., k] = img_ids[..., k] + v]. *)
Definition add_to_channel (k : nat) (v img_ids : Tensor) : result Tensor :=
  (s <- select_last k img_ids ;;
   a <- tensor_add s v ;;
   setitem_last k a img_ids)%result.

Definition forward (self : Flux Dtype) (x timestep context y : Tensor)
    (guidance : option Tensor) : M Tensor :=
  match shape x with
  | [bs; c; h; w] =>
      img <- lift (rearrange_patchify 2 2 x) ;;
      let h_len := h / 2 in
      let w_len := w / 2 in
      let img_ids := zeros (dtype x) [h_len; w_len; 3] in
      img_ids <- lift (add_to_channel 1 (view [h_len; 1] (linspace (dtype x) h_len)) img_ids) ;;
      img_ids <- lift (add_to_channel 2 (view [1; w_len] (linspace (dtype x) w_len)) img_ids) ;;
      img_ids <- lift (repeat_batch bs img_ids) ;;
      l <- lift (shape_at context 1) ;;
      let txt_ids := zeros (dtype x) [bs; l; 3] in
      out <- forward_orig self img img_ids context txt_ids timestep y guidance ;;
      lift (rearrange_unpatchify h_len w_len 2 2 out)
  | s => raise (unpack_error (length s))
  end.

(** ** Vocabulary of the statements *)

(** The stage of the forward pass a call belongs to: the embedders, the
    double-stream stack, the single-stream stack, the final projection. *)
Definition phase (e : Event) : nat :=
  match callee e with
  | DoubleBlocks _ => 1
  | SingleBlocks _ => 2
  | FinalLayer => 3
  | _ => 0
  end.

Definition is_block (e : Event) : Prop := 1 <= phase e.

(** The conditioning vector a block or the final layer received. *)
Definition vec_arg (e : Event) : option Tensor :=
  match e with
  | Call (DoubleBlocks _) [_; _; vec; _] => Some vec
  | Call (SingleBlocks _) [_; vec; _] => Some vec
  | Call FinalLayer [_; vec] => Some vec
  | _ => None
  end.

Definition value {X} (r : result X) : option X :=
  match r with
  | Ok x => Some x
  | Raise _ => None
  end.

Definition obind {X Y} (o : option X) (k : X -> option Y) : option Y :=
  match o with
  | Some x => k x
  | None => None
  end.

(** The conditioning vector as a formula: the timestep embedding, plus the
    guidance embedding exactly when the model is guidance-distilled, plus
    the vector embedding; [dt] is the dtype the embeddings are cast to. *)
Definition conditioning (self : Flux Dtype) (dt : Dtype)
    (timesteps y : Tensor) (guidance : option Tensor) : option Tensor :=
  obind (timestep_embedding timesteps 256) (fun te =>
  obind (forward1 TimeIn (time_in self) (to_dtype dt te)) (fun t =>
  obind (if FluxParams.guidance_embed (params self) then
           obind guidance (fun g =>
           obind (timestep_embedding g 256) (fun ge =>
           obind (forward1 GuidanceIn (guidance_in self) (to_dtype dt ge)) (fun gv =>
           value (tensor_add t gv))))
         else Some t) (fun tg =>
  obind (forward1 VectorIn (vector_in self) y) (fun yv =>
  value (tensor_add tg yv))))).

(** The double-stream stack as a fold, and the calls it makes. *)
Fixpoint double_chain (blocks : list Layer) (k : nat) (img txt vec pe : Tensor)
  : option (Tensor * Tensor) :=
  match blocks with
  | [] => Some (img, txt)
  | block :: rest =>
      obind (forward_double (DoubleBlocks k) block img txt vec pe) (fun r =>
      double_chain rest (S k) (fst r) (snd r) vec pe)
  end.

Fixpoint double_calls (blocks : list Layer) (k : nat) (img txt vec pe : Tensor)
  : list Event :=
  match blocks with
  | [] => []
  | block :: rest =>
      Call (DoubleBlocks k) [img; txt; vec; pe]
      :: match forward_double (DoubleBlocks k) block img txt vec pe with
         | Some r => double_calls rest (S k) (fst r) (snd r) vec pe
         | None => []
         end
  end.

(** The single-stream stack as a fold, and the calls it makes. *)
Fixpoint single_chain (blocks : list Layer) (k : nat) (img vec pe : Tensor)
  : option Tensor :=
  match blocks with
  | [] => Some img
  | block :: rest =>
      obind (forward_single (SingleBlocks k) block img vec pe) (fun img' =>
      single_chain rest (S k) img' vec pe)
  end.

Fixpoint single_calls (blocks : list Layer) (k : nat) (img vec pe : Tensor)
  : list Event :=
  match blocks with
  | [] => []
  | block :: rest =>
      Call (SingleBlocks k) [img; vec; pe]
      :: match forward_single (SingleBlocks k) block img vec pe with
         | Some img' => single_calls rest (S k) img' vec pe
         | None => []
         end
  end.

(** Calls of one stage, all on the conditioning vector [vec]. *)
Definition stage_calls (p : nat) (vec : Tensor) (evs : list Event) : Prop :=
  Forall (fun e => phase e = p /\ vec_arg e = Some vec) evs.

(** The calls of any run, whatever its outcome: embedders first; then, if
    the positional embedder is reached, the double-stream blocks, the
    single-stream blocks and the final layer, all on the same conditioning
    vector. *)
Definition trace_shape (self : Flux Dtype) (img img_ids txt_ids timesteps y : Tensor)
    (guidance : option Tensor) (tr : list Event) : Prop :=
  exists pre post,
    tr = pre ++ post
    /\ Forall (fun e => phase e = 0 /\ callee e <> PeEmbedder) pre
    /\ (post = []
        \/ exists img1 vec ids dbl sgl fin,
             forward1 ImgIn (img_in self) img = Some img1
             /\ conditioning self (dtype img1) timesteps y guidance = Some vec
             /\ cat1 txt_ids img_ids = Ok ids
             /\ post = Call PeEmbedder [ids] :: dbl ++ sgl ++ fin
             /\ stage_calls 1 vec dbl /\ stage_calls 2 vec sgl /\ stage_calls 3 vec fin).

(** The positional ids of a batch of [bs] samples with [l] text tokens and
    [h_len] x [w_len] patches: per sample, [l] zero vectors, then
    (0, i, j) for every patch row i and patch column j. *)
Definition positional_ids (dt : Dtype) (bs l h_len w_len : nat) : Tensor :=
  {| dtype := dt;
     shape := [bs; l + h_len * w_len; 3];
     data := flat_map (fun _ =>
               repeat zero (l * 3)
               ++ flat_map (fun i =>
                    flat_map (fun j => [zero; lin dt h_len i; lin dt w_len j]) (seq 0 w_len))
                    (seq 0 h_len))
               (seq 0 bs) |}.

(** The scalar [a] is the integer [z] in the dtype [dt]. *)
Definition is_number (dt : Dtype) (z : Z) (a : A) : Prop := number dt z = Some a.

(** The dtype holds every integer below [n] exactly. *)
Definition holds_below (dt : Dtype) (n : nat) : Prop :=
  forall k, k < n -> exists a, is_number dt (Z.of_nat k) a.

(** What a call [e] of the positional embedder in a run of [forward] on
    [x] and [context] is made on: the tensor [positional_ids], that is,
    for every sample, a zero vector per text token and then, for the patch
    in row i and column j, the vector of zero, point i of the linspace over
    the rows and point j of the linspace over the columns, in the dtype of
    [x]; the two points are the integers i and j when that dtype holds
    every integer below the number of rows, respectively of columns. *)
Definition positional_call (x context : Tensor) (e : Event) : Prop :=
  exists bs c h w l ids,
    shape x = [bs; c; h; w]
    /\ shape_at context 1 = Ok l
    /\ arguments e = [ids]
    /\ ids = positional_ids (dtype x) bs l (h / 2) (w / 2)
    /\ is_number (dtype x) 0 zero
    /\ (forall b t k, b < bs -> t < l -> k < 3 -> item ids [b; t; k] = zero)
    /\ (forall b i j, b < bs -> i < h / 2 -> j < w / 2 ->
          let t := l + (i * (w / 2) + j) in
          item ids [b; t; 0] = zero
          /\ item ids [b; t; 1] = lin (dtype x) (h / 2) i
          /\ item ids [b; t; 2] = lin (dtype x) (w / 2) j
          /\ (holds_below (dtype x) (h / 2) ->
              is_number (dtype x) (Z.of_nat i) (item ids [b; t; 1]))
          /\ (holds_below (dtype x) (w / 2) ->
              is_number (dtype x) (Z.of_nat j) (item ids [b; t; 2]))).

(** The sub-layers in the order a complete pass calls them. *)
Definition call_order (self : Flux Dtype) : list Slot :=
  [ImgIn; TimeIn]
  ++ (if FluxParams.guidance_embed (params self) then [GuidanceIn] else [])
  ++ [VectorIn; TxtIn; PeEmbedder]
  ++ map DoubleBlocks (seq 0 (length (double_blocks self)))
  ++ map SingleBlocks (seq 0 (length (single_blocks self)))
  ++ [FinalLayer].

(** What an embedder is called on: the image projection on [img], the
    vector embedder on [y], the text projection on [txt], and time_in and
    guidance_in on the timestep embeddings cast to the dtype of the
    projected image tokens. *)
Definition embedder_input (self : Flux Dtype) (img txt timesteps y : Tensor)
    (guidance : option Tensor) (e : Event) : Prop :=
  match callee e with
  | ImgIn => arguments e = [img]
  | VectorIn => arguments e = [y]
  | TxtIn => arguments e = [txt]
  | TimeIn =>
      exists img1 te,
        forward1 ImgIn (img_in self) img = Some img1
        /\ timestep_embedding timesteps 256 = Some te
        /\ arguments e = [to_dtype (dtype img1) te]
  | GuidanceIn =>
      exists img1 g gemb,
        forward1 ImgIn (img_in self) img = Some img1
        /\ guidance = Some g
        /\ timestep_embedding g 256 = Some gemb
        /\ arguments e = [to_dtype (dtype img1) gemb]
  | _ => True
  end.

(** Length of the sequence axis. *)
Definition seq_len (t : Tensor) : nat := nth 1 (shape t) 0.

(** What the statements about shapes assume of the sub-layers: a linear
    layer maps (..., in_features) to (..., out_features), the blocks return
    tensors shaped like the streams they received, and the last layer maps
    (b, n, hidden) to (b, n, patch_size^2 * out_channels). *)
Record ShapeContract : Prop := {
  linear_shape : forall s i o b x y,
    linear_forward s i o b x = Some y ->
    exists r d, shape x = r ++ [d] /\ Z.of_nat d = i /\ shape y = r ++ [Z.to_nat o];
  double_shape : forall s h n r q img txt vec pe img' txt',
    double_stream_block_forward s h n r q img txt vec pe = Some (img', txt') ->
    shape img' = shape img /\ shape txt' = shape txt;
  single_shape : forall s h n r x vec pe x',
    single_stream_block_forward s h n r x vec pe = Some x' ->
    shape x' = shape x;
  last_shape : forall s h p o x vec out,
    last_layer_forward s h p o x vec = Some out ->
    exists b n d, shape x = [b; n; d] /\ shape out = [b; n; Z.to_nat (p * p * o)]
}.

(** The part of it the sequence axis needs: a linear layer keeps the
    sequence length of a tensor of rank 3, and the blocks and the last
    layer keep the sequence length of the streams. *)
Record SeqContract : Prop := {
  linear_seq : forall s i o b x y,
    linear_forward s i o b x = Some y -> ndim x = 3 -> seq_len y = seq_len x;
  double_seq : forall s h n r q img txt vec pe img' txt',
    double_stream_block_forward s h n r q img txt vec pe = Some (img', txt') ->
    seq_len img' = seq_len img /\ seq_len txt' = seq_len txt;
  single_seq : forall s h n r x vec pe x',
    single_stream_block_forward s h n r x vec pe = Some x' ->
    seq_len x' = seq_len x;
  last_seq : forall s h p o x vec out,
    last_layer_forward s h p o x vec = Some out ->
    seq_len out = seq_len x
}.

(** [x] holds, sample by sample, the tokens of [a] followed by the tokens
    of [b]. *)
Definition tokens_joined (a b x : Tensor) : Prop :=
  exists bs l n d,
    shape a = [bs; l; d] /\ shape b = [bs; n; d] /\ shape x = [bs; l + n; d]
    /\ forall i k, i < bs -> k < d ->
         (forall t, t < l -> item x [i; t; k] = item a [i; t; k])
         /\ (forall t, t < n -> item x [i; l + t; k] = item b [i; t; k]).

(** [y] holds, sample by sample, the tokens of [x] but the first [l]. *)
Definition tokens_from (l : nat) (x y : Tensor) : Prop :=
  exists bs n d,
    shape x = [bs; l + n; d] /\ shape y = [bs; n; d]
    /\ forall i t k, i < bs -> t < n -> k < d ->
         item y [i; t; k] = item x [i; l + t; k].

(** A tensor has as many elements as its shape says; this states it of
    the tensors the projections and the blocks return. *)
Record WfContract : Prop := {
  linear_wf : forall s i o b x y,
    linear_forward s i o b x = Some y -> wf y;
  double_wf : forall s h n r q img txt vec pe img' txt',
    double_stream_block_forward s h n r q img txt vec pe = Some (img', txt') ->
    wf img' /\ wf txt';
  single_wf : forall s h n r x vec pe x',
    single_stream_block_forward s h n r x vec pe = Some x' -> wf x'
}.

End Forward.

Arguments Event A Dtype : clear implicits.

(** ** A concrete backend

    Integer scalars under two dtypes, both taken to hold every integer
    exactly (as float32 does below 2^24 and float64 below 2^53), and layers
    that check the shapes of their inputs the way their torch counterparts
    do; an output element is the sum of the elements the layer received
    plus a code of its slot.  The general theorems are exercised on it. *)

Module Toy.

Inductive dt : Type := F32 | F64.

Definition promote_dt (a b : dt) : dt :=
  match a with
  | F64 => F64
  | F32 => b
  end.

#[global] Instance scalar : Scalar Z dt.
Proof.
  refine {| zero := 0%Z;
            add := Z.add;
            number := fun _ z => Some z;
            lin := fun _ _ i => Z.of_nat i;
            convert := fun _ _ a => a;
            promote := promote_dt |}.
  - intros []; reflexivity.
  - reflexivity.
  - reflexivity.
  - intros _ m n a Hm Hn. congruence.
  - reflexivity.
  - reflexivity.
Defined.

Definition code (s : Slot) : Z :=
  match s with
  | PeEmbedder => 1
  | ImgIn => 2
  | TimeIn => 3
  | VectorIn => 4
  | GuidanceIn => 5
  | TxtIn => 6
  | DoubleBlocks k => 100 + Z.of_nat k
  | SingleBlocks k => 200 + Z.of_nat k
  | FinalLayer => 7
  end.

Definition total (ts : list (Tensor Z dt)) : Z :=
  fold_right Z.add 0%Z (flat_map (@data Z dt) ts).

Definition filled (d : dt) (s : list nat) (v : Z) : Tensor Z dt :=
  {| dtype := d; shape := s; data := repeat v (numel s) |}.

(** Layers acting on the last axis: [(..., i) -> (..., o)]. *)
Definition last_axis (s : Slot) (i o : Z) (x : Tensor Z dt) : option (Tensor Z dt) :=
  match rev (shape x) with
  | d :: r =>
      if ((Z.of_nat d =? i) && (0 <=? o))%Z
      then Some (filled (dtype x) (rev (Z.to_nat o :: r)) (code s + total [x]))
      else None
  | [] => None
  end.

Definition embed_nd (s : Slot) (dim theta : Z) (axes : list Z) (ids : Tensor Z dt)
  : option (Tensor Z dt) :=
  match shape ids with
  | [b; n; k] =>
      if k =? length axes
      then Some (filled (dtype ids) [b; 1; n; Z.to_nat (dim / 2); 2; 2] (code s + total [ids]))
      else None
  | _ => None
  end.

Definition double_block (s : Slot) (h n : Z) (r : Q) (q : bool)
    (img txt vec pe : Tensor Z dt) : option (Tensor Z dt * Tensor Z dt) :=
  match shape img, shape txt, shape vec with
  | [b; ni; hi], [b'; nt; ht], [b''; hv] =>
      if ((b =? b') && (b =? b'') && (Z.of_nat hi =? h)%Z && (Z.of_nat ht =? h)%Z
          && (Z.of_nat hv =? h)%Z)%bool
      then Some (filled (dtype img) (shape img) (code s + total [img; txt; vec; pe]),
                 filled (dtype txt) (shape txt) (code s + 1 + total [img; txt; vec; pe]))
      else None
  | _, _, _ => None
  end.

Definition single_block (s : Slot) (h n : Z) (r : Q) (x vec pe : Tensor Z dt)
  : option (Tensor Z dt) :=
  match shape x, shape vec with
  | [b; t; hx], [b'; hv] =>
      if ((b =? b') && (Z.of_nat hx =? h)%Z && (Z.of_nat hv =? h)%Z)%bool
      then Some (filled (dtype x) (shape x) (code s + total [x; vec; pe]))
      else None
  | _, _ => None
  end.

Definition last_layer (s : Slot) (h p o : Z) (x vec : Tensor Z dt) : option (Tensor Z dt) :=
  match shape x, shape vec with
  | [b; t; hx], [b'; hv] =>
      if ((b =? b') && (Z.of_nat hx =? h)%Z && (Z.of_nat hv =? h)%Z && (0 <=? p * p * o)%Z)%bool
      then Some (filled (dtype x) [b; t; Z.to_nat (p * p * o)] (code s + total [x; vec]))
      else None
  | _, _ => None
  end.

Definition temb (t : Tensor Z dt) (dim : Z) : option (Tensor Z dt) :=
  match shape t with
  | [b] => Some (filled (dtype t) [b; Z.to_nat dim] (total [t]))
  | _ => None
  end.

#[global] Instance backend : Backend Z dt :=
  {| linear_forward := fun s i o _ x => last_axis s i o x;
     mlp_embedder_forward := fun s i h x => last_axis s i h x;
     embed_nd_forward := embed_nd;
     double_stream_block_forward := double_block;
     single_stream_block_forward := single_block;
     last_layer_forward := last_layer;
     timestep_embedding := temb |}.

(** A small configuration: 2 double-stream and 3 single-stream blocks,
    guidance-distilled, for latents of 1 channel (4 values per patch). *)
Definition cfg (guidance : bool) : FluxParams.t :=
  {| FluxParams.in_channels := 4;
     FluxParams.vec_in_dim := 2;
     FluxParams.context_in_dim := 3;
     FluxParams.hidden_size := 8;
     FluxParams.mlp_ratio := 4 # 1;
     FluxParams.num_heads := 2;
     FluxParams.depth := 2;
     FluxParams.depth_single_blocks := 3;
     FluxParams.axes_dim := [2; 1; 1]%Z;
     FluxParams.theta := 10000;
     FluxParams.qkv_bias := true;
     FluxParams.guidance_embed := guidance |}.

Definition model (guidance : bool) : Flux dt :=
  match __init__ (Some F32) (cfg guidance) with
  | Ok m => m
  | Raise _ => mkFlux dt None (cfg guidance) 0 0 0 0 Identity Identity Identity Identity
                 Identity Identity [] [] Identity
  end.

Definition tensor (s : list nat) (d : list Z) : Tensor Z dt :=
  {| dtype := F32; shape := s; data := d |}.

(** A latent of shape (1, 1, 4, 4), a context of 2 tokens, and the
    conditioning inputs. *)
Definition x0 : Tensor Z dt := tensor [1; 1; 4; 4] (map Z.of_nat (seq 0 16)).
Definition context0 : Tensor Z dt := tensor [1; 2; 3] [1; 2; 3; 4; 5; 6]%Z.
Definition timestep0 : Tensor Z dt := tensor [1] [7]%Z.
Definition y0 : Tensor Z dt := tensor [1; 2] [8; 9]%Z.
Definition guidance0 : Tensor Z dt := tensor [1] [4]%Z.

(** Inputs of [forward_orig]: 4 image tokens of width 4, 2 text tokens of
    width 3, and their positional ids. *)
Definition img0 : Tensor Z dt := tensor [1; 4; 4] (map Z.of_nat (seq 0 16)).
Definition img_ids0 : Tensor Z dt := tensor [1; 4; 3] (repeat 0%Z 12).
Definition txt0 : Tensor Z dt := context0.
Definition txt_ids0 : Tensor Z dt := tensor [1; 2; 3] (repeat 0%Z 6).

(** The run of [forward_orig] on them, and the call of the first
    double-stream block in it. *)
Definition run_orig : M (Tensor Z dt) :=
  forward_orig (model true) img0 img_ids0 txt0 txt_ids0 timestep0 y0 (Some guidance0).

Definition block_call : Event Z dt := nth 6 (trace run_orig) (Call FinalLayer []).

(** Image tokens of width 3, which the image projection of [model] (4
    input features) does not take. *)
Definition img_narrow : Tensor Z dt := tensor [1; 4; 3] (map Z.of_nat (seq 0 12)).

(** The run of [forward] on the latent [x0], and a latent of 4 channels,
    as many as [model] has input channels. *)
Definition run : M (Tensor Z dt) :=
  forward (model true) x0 timestep0 context0 y0 (Some guidance0).

Definition pe_call : Event Z dt := nth 5 (trace run) (Call FinalLayer []).

Definition x_wide : Tensor Z dt := tensor [1; 4; 2; 2] (map Z.of_nat (seq 0 16)).

(** Inputs [forward] turns down: a latent of rank 2, a latent of odd
    height, a context of rank 1 and a context of rank 2. *)
Definition x_flat : Tensor Z dt := tensor [4; 4] (map Z.of_nat (seq 0 16)).
Definition x_odd : Tensor Z dt := tensor [1; 1; 3; 4] (map Z.of_nat (seq 0 12)).
Definition context_flat : Tensor Z dt := tensor [6] [1; 2; 3; 4; 5; 6]%Z.
Definition context_2d : Tensor Z dt := tensor [2; 3] [1; 2; 3; 4; 5; 6]%Z.

(** The patches of [x0]. *)
Definition patches0 : Tensor Z dt :=
  tensor [1; 4; 4] [0; 1; 4; 5; 2; 3; 6; 7; 8; 9; 12; 13; 10; 11; 14; 15]%Z.

(** Configurations at the edge of what the constructor takes. *)
Definition cfg_negative_depth : FluxParams.t :=
  {| FluxParams.in_channels := 4;
     FluxParams.vec_in_dim := 2;
     FluxParams.context_in_dim := 3;
     FluxParams.hidden_size := 8;
     FluxParams.mlp_ratio := 4 # 1;
     FluxParams.num_heads := 2;
     FluxParams.depth := -1;
     FluxParams.depth_single_blocks := 3;
     FluxParams.axes_dim := [2; 1; 1]%Z;
     FluxParams.theta := 10000;
     FluxParams.qkv_bias := true;
     FluxParams.guidance_embed := true |}.

Definition cfg_zero_heads : FluxParams.t :=
  {| FluxParams.in_channels := 4;
     FluxParams.vec_in_dim := 2;
     FluxParams.context_in_dim := 3;
     FluxParams.hidden_size := 5;
     FluxParams.mlp_ratio := 4 # 1;
     FluxParams.num_heads := 0;
     FluxParams.depth := 2;
     FluxParams.depth_single_blocks := 3;
     FluxParams.axes_dim := [2; 1; 1]%Z;
     FluxParams.theta := 10000;
     FluxParams.qkv_bias := true;
     FluxParams.guidance_embed := true |}.

(** A hidden size that the heads do not divide (and axes that do not sum
    to the quotient either), and axes that do not sum to the per-head
    dimension of a hidden size that divides. *)
Definition cfg_indivisible : FluxParams.t :=
  {| FluxParams.in_channels := 4;
     FluxParams.vec_in_dim := 2;
     FluxParams.context_in_dim := 3;
     FluxParams.hidden_size := 5;
     FluxParams.mlp_ratio := 4 # 1;
     FluxParams.num_heads := 2;
     FluxParams.depth := 2;
     FluxParams.depth_single_blocks := 3;
     FluxParams.axes_dim := [2; 1; 1]%Z;
     FluxParams.theta := 10000;
     FluxParams.qkv_bias := true;
     FluxParams.guidance_embed := true |}.

Definition cfg_axes : FluxParams.t :=
  {| FluxParams.in_channels := 4;
     FluxParams.vec_in_dim := 2;
     FluxParams.context_in_dim := 3;
     FluxParams.hidden_size := 8;
     FluxParams.mlp_ratio := 4 # 1;
     FluxParams.num_heads := 2;
     FluxParams.depth := 2;
     FluxParams.depth_single_blocks := 3;
     FluxParams.axes_dim := [2; 1]%Z;
     FluxParams.theta := 10000;
     FluxParams.qkv_bias := true;
     FluxParams.guidance_embed := true |}.

End Toy.

(** ** A dtype of 8 significant bits

    bfloat16 keeps 8 significant bits: it holds the integers up to 256 and,
    above, only those that fit in 8 bits once their trailing zeros are
    dropped (258, 260, ..., 512, 516, ...).  A scalar of this instance is
    such an integer, or [None] for a value that comes out of the rounding
    of the dtype, which torch's kernels decide and this model leaves open.
    The layers only check shapes and return zeros. *)

Module Bfloat.

Inductive dt : Type := BF16.

Definition precision : Z := 8.

(** Whether a float of [precision] significant bits is exactly [z]: the
    bits of |z| below the leading [precision] ones are all zero. *)
Definition holds (z : Z) : bool :=
  let m := Z.abs z in
  let low := (Z.log2 m + 1 - precision)%Z in
  (m <? 2 ^ 128)%Z && ((low <=? 0)%Z || (m mod 2 ^ low =? 0)%Z).

Definition scalar : Type := option Z.

Definition number_bf (z : Z) : option scalar :=
  if holds z then Some (Some z) else None.

Definition add_bf (a b : scalar) : scalar :=
  match a, b with
  | Some x, Some y => if holds (x + y) then Some (x + y)%Z else None
  | _, _ => None
  end.

(** The points of a linspace are the integers themselves as long as all
    of them are held, that is up to 257 points. *)
Definition lin_bf (n i : nat) : scalar :=
  if (n <=? 257) && (i <? n) then Some (Z.of_nat i) else None.

#[global] Instance scalar_bf : Scalar scalar dt | 10.
Proof.
  assert (holds_small : forall z, (0 <= z <= 256)%Z -> holds z = true).
  { intros z.
    intros H. unfold holds, precision.
    rewrite Z.abs_eq by lia.
    assert (Hb : (z <? 2 ^ 128)%Z = true).
    { apply Z.ltb_lt. apply Z.le_lt_trans with 256%Z; [lia|reflexivity]. }
    rewrite Hb. cbn [andb].
    destruct (Z.eq_dec z 256) as [->|Hz]; [reflexivity|].
    destruct (Z.eq_dec z 0) as [->|Hz0]; [reflexivity|].
    assert (Hl : (Z.log2 z < 8)%Z) by (apply Z.log2_lt_pow2; lia).
    replace (Z.log2 z + 1 - 8 <=? 0)%Z with true by (symmetry; apply Z.leb_le; lia).
    reflexivity. }
  refine {| zero := Some 0%Z;
            add := add_bf;
            number := fun _ z => number_bf z;
            lin := fun _ n i => lin_bf n i;
            convert := fun _ _ a => a;
            promote := fun _ _ => BF16 |}.
  - intros []; reflexivity.
  - reflexivity.
  - reflexivity.
  - intros _ m n a Hm Hn. unfold number_bf in Hm, Hn.
    destruct (holds m); [|discriminate Hm]. destruct (holds n); [|discriminate Hn].
    congruence.
  - intros _ n Hall i Hi. unfold lin_bf.
    destruct (Nat.leb_spec n 257) as [Hn|Hn].
    + apply Nat.ltb_lt in Hi. rewrite Hi. cbn [andb].
      apply Nat.ltb_lt in Hi. unfold number_bf.
      rewrite holds_small by lia. reflexivity.
    + exfalso. apply (Hall 257); [lia|reflexivity].
  - intros _ n i. unfold lin_bf.
    destruct (Nat.leb_spec n 257) as [Hn|Hn]; [|reflexivity].
    destruct (Nat.ltb_spec i n) as [Hi|Hi]; [|reflexivity].
    cbn [andb add_bf]. rewrite Z.add_0_l, holds_small by lia. reflexivity.
Defined.

Local Abbreviation Tensor := (Tensor scalar dt).

Definition last_axis (i o : Z) (x : Tensor) : option Tensor :=
  match rev (shape x) with
  | d :: r =>
      if ((Z.of_nat d =? i) && (0 <=? o))%Z
      then Some (zeros (dtype x) (rev (Z.to_nat o :: r)))
      else None
  | [] => None
  end.

Definition embed_nd (dim : Z) (axes : list Z) (ids : Tensor) : option Tensor :=
  match shape ids with
  | [b; n; k] =>
      if k =? length axes
      then Some (zeros (dtype ids) [b; 1; n; Z.to_nat (dim / 2); 2; 2])
      else None
  | _ => None
  end.

Definition double_block (h : Z) (img txt vec : Tensor) : option (Tensor * Tensor) :=
  match shape img, shape txt, shape vec with
  | [b; ni; hi], [b'; nt; ht], [b''; hv] =>
      if ((b =? b') && (b =? b'') && (Z.of_nat hi =? h)%Z && (Z.of_nat ht =? h)%Z
          && (Z.of_nat hv =? h)%Z)%bool
      then Some (zeros (dtype img) (shape img), zeros (dtype txt) (shape txt))
      else None
  | _, _, _ => None
  end.

Definition single_block (h : Z) (x vec : Tensor) : option Tensor :=
  match shape x, shape vec with
  | [b; t; hx], [b'; hv] =>
      if ((b =? b') && (Z.of_nat hx =? h)%Z && (Z.of_nat hv =? h)%Z)%bool
      then Some (zeros (dtype x) (shape x))
      else None
  | _, _ => None
  end.

Definition last_layer (h p o : Z) (x vec : Tensor) : option Tensor :=
  match shape x, shape vec with
  | [b; t; hx], [b'; hv] =>
      if ((b =? b') && (Z.of_nat hx =? h)%Z && (Z.of_nat hv =? h)%Z && (0 <=? p * p * o)%Z)%bool
      then Some (zeros (dtype x) [b; t; Z.to_nat (p * p * o)])
      else None
  | _, _ => None
  end.

Definition temb (t : Tensor) (dim : Z) : option Tensor :=
  match shape t with
  | [b] => Some (zeros (dtype t) [b; Z.to_nat dim])
  | _ => None
  end.

#[global] Instance backend_bf : Backend scalar dt | 10 :=
  {| linear_forward := fun _ i o _ x => last_axis i o x;
     mlp_embedder_forward := fun _ i h x => last_axis i h x;
     embed_nd_forward := fun _ dim _ axes ids => embed_nd dim axes ids;
     double_stream_block_forward := fun _ h _ _ _ img txt vec _ => double_block h img txt vec;
     single_stream_block_forward := fun _ h _ _ x vec _ => single_block h x vec;
     last_layer_forward := fun _ h p o x vec => last_layer h p o x vec;
     timestep_embedding := temb |}.

(** The model of [Toy.cfg] without guidance, in bfloat16. *)
Definition model : Flux dt :=
  match __init__ (Some BF16) (Toy.cfg false) with
  | Ok m => m
  | Raise _ => mkFlux dt None (Toy.cfg false) 0 0 0 0 Identity Identity Identity Identity
                 Identity Identity [] [] Identity
  end.

(** A latent of one row of 258 patches: shape (1, 1, 2, 516), all zeros;
    a context of one token. *)
Definition x_long : Tensor := zeros BF16 [1; 1; 2; 516].
Definition context1 : Tensor := zeros BF16 [1; 1; 3].
Definition timestep1 : Tensor := zeros BF16 [1].
Definition y1 : Tensor := zeros BF16 [1; 2].

(** The run of [forward] on them, and its call of the positional
    embedder. *)
Definition run_long : M Tensor := forward model x_long timestep1 context1 y1 None.

Definition pe_call_long : Event scalar dt := nth 4 (trace run_long) (Call FinalLayer []).

End Bfloat.

(** * Properties *)

(** ** Indexing *)

Lemma nth_map_seq {X} (f : nat -> X) (n k : nat) (d : X) :
  k < n -> nth k (map f (seq 0 n)) d = f k.
Proof.
  intros Hk.
  rewrite (nth_indep _ d (f 0)) by (rewrite length_map, length_seq; exact Hk).
  rewrite map_nth, seq_nth by exact Hk.
  reflexivity.
Qed.

Lemma unravel_length (s : list nat) : forall n, length (unravel s n) = length s.
Proof. induction s; simpl; intros; auto. Qed.

Lemma ravel_lt (s : list nat) : forall idx, Forall2 lt idx s -> ravel s idx < numel s.
Proof.
  induction s as [|d s IH]; intros idx H; inversion H; subst; simpl.
  - lia.
  - specialize (IH _ H4). nia.
Qed.

Lemma ravel_unravel (s : list nat) : forall n, n < numel s -> ravel s (unravel s n) = n.
Proof.
  induction s as [|d s IH]; simpl; intros n Hn.
  - lia.
  - assert (Hp : numel s <> 0) by (intro E; rewrite E in Hn; lia).
    rewrite IH by (apply Nat.mod_upper_bound; exact Hp).
    pose proof (Nat.div_mod_eq n (numel s)). lia.
Qed.

Lemma unravel_ravel (s : list nat) :
  forall idx, Forall2 lt idx s -> unravel s (ravel s idx) = idx.
Proof.
  induction s as [|d s IH]; intros idx H; inversion H; subst; simpl; auto.
  pose proof (ravel_lt _ _ H4) as Hr.
  assert (Hp : numel s <> 0) by lia.
  f_equal.
  - rewrite Nat.div_add_l by exact Hp. rewrite Nat.div_small by exact Hr. lia.
  - rewrite Nat.add_comm, Nat.Div0.mod_add, Nat.mod_small by exact Hr.
    apply IH; assumption.
Qed.

Lemma unravel_bounds (s : list nat) :
  forall n, n < numel s -> Forall2 lt (unravel s n) s.
Proof.
  induction s as [|d s IH]; simpl; intros n Hn; constructor.
  - assert (Hp : numel s <> 0) by (intro E; rewrite E in Hn; lia).
    apply Nat.Div0.div_lt_upper_bound. lia.
  - apply IH. apply Nat.mod_upper_bound. intro E; rewrite E in Hn; lia.
Qed.

(** ** Patch embedding and unembedding *)

Section Patches.
Context {A Dtype : Type} `{Sc : Scalar A Dtype}.

Lemma gather_inverse {X} (d : X) (l : list X) :
  length l = 6 ->
  gather d merge_split (gather d split_merge l) = l
  /\ gather d split_merge (gather d merge_split l) = l.
Proof.
  intros Hl.
  do 6 (destruct l as [|? l]; [discriminate Hl|]).
  destruct l; [|discriminate Hl].
  split; reflexivity.
Qed.

Lemma gather_bounds (p idx s : list nat) :
  (p = split_merge \/ p = merge_split) ->
  length s = 6 ->
  Forall2 lt idx s ->
  Forall2 lt (gather 0 p idx) (gather 0 p s).
Proof.
  intros Hp Hs H.
  do 6 (destruct s as [|? s]; [discriminate Hs|]).
  destruct s; [|discriminate Hs].
  repeat match goal with
         | H : Forall2 _ _ (_ :: _) |- _ => inversion H; clear H; subst
         | H : Forall2 _ _ [] |- _ => inversion H; clear H; subst
         end.
  destruct Hp; subst p; cbn; repeat constructor; assumption.
Qed.

Lemma permute_undo (p q : list nat) (t : Tensor A Dtype) :
  (p = split_merge /\ q = merge_split) \/ (p = merge_split /\ q = split_merge) ->
  ndim t = 6 ->
  wf t ->
  permute q (permute p t) = t.
Proof.
  intros Hpq Hn Hw.
  assert (Hinv : invperm p = q /\ invperm q = p)
    by (destruct Hpq as [[-> ->]|[-> ->]]; split; reflexivity).
  assert (Hp : p = split_merge \/ p = merge_split)
    by (destruct Hpq as [[-> _]|[-> _]]; auto).
  assert (Hg : forall X (d : X) l, length l = 6 -> gather d q (gather d p l) = l).
  { intros X d l Hl. destruct (gather_inverse d l Hl).
    destruct Hpq as [[-> ->]|[-> ->]]; assumption. }
  destruct Hinv as [Hip Hiq].
  destruct t as [dt s dat]. unfold ndim, wf in *. simpl in Hn, Hw.
  unfold permute. simpl dtype. simpl shape. simpl data.
  rewrite Hip, Hiq, (Hg _ 0 s Hn).
  f_equal.
  apply nth_ext with (d := zero) (d' := zero).
  - rewrite length_map, length_seq. symmetry. exact Hw.
  - intros o Ho. rewrite length_map, length_seq in Ho.
    rewrite nth_map_seq by exact Ho.
    pose proof (unravel_bounds s o Ho) as Hb.
    pose proof (gather_bounds p _ _ Hp Hn Hb) as Hb'.
    rewrite nth_map_seq by (apply ravel_lt; exact Hb').
    rewrite unravel_ravel by exact Hb'.
    rewrite Hg by (rewrite unravel_length; exact Hn).
    rewrite ravel_unravel by exact Ho.
    reflexivity.
Qed.

Lemma even_halves (n : nat) : n mod 2 = 0 -> n / 2 * 2 = n.
Proof. intros H. pose proof (Nat.div_mod_eq n 2). lia. Qed.

(** C2. Patch embedding followed by unembedding is the identity: for every
    tensor [x] of shape (b, c, h, w) with h and w even, the rearrangement
    "b c (h ph) (w pw) -> b (h w) (c ph pw)" with ph = pw = 2 succeeds, and
    the rearrangement "b (h w) (c ph pw) -> b c (h ph) (w pw)" with h = h//2,
    w = w//2, ph = pw = 2 applied to its result gives back [x]. *)
Theorem patchify_unpatchify_roundtrip (x : Tensor A Dtype) (b c h w : nat) :
  wf x ->
  shape x = [b; c; h; w] ->
  h mod 2 = 0 ->
  w mod 2 = 0 ->
  exists img,
    rearrange_patchify 2 2 x = Ok img
    /\ shape img = [b; (h / 2) * (w / 2); c * 2 * 2]
    /\ rearrange_unpatchify (h / 2) (w / 2) 2 2 img = Ok x.
Proof.
  intros Hw Hs Hh Hwd.
  unfold rearrange_patchify. rewrite Hs.
  rewrite Hh, Hwd. cbn [Nat.eqb andb].
  eexists. split; [reflexivity|]. split; [reflexivity|].
  unfold rearrange_unpatchify. cbn [shape view].
  rewrite Nat.eqb_refl.
  replace (c * 2 * 2) with (c * (2 * 2)) by lia.
  rewrite Nat.Div0.mod_mul, Nat.div_mul by lia.
  cbn [Nat.eqb andb].
  set (t := view [b; c; h / 2; 2; w / 2; 2] x).
  assert (Ht : wf t).
  { unfold wf, t. cbn [data shape view]. rewrite Hw, Hs. cbn [numel fold_right].
    rewrite <- (even_halves h Hh) at 1. rewrite <- (even_halves w Hwd) at 1. lia. }
  assert (Hv : view [b; h / 2; w / 2; c; 2; 2]
                 (view [b; h / 2 * (w / 2); c * (2 * 2)] (permute split_merge t))
               = permute split_merge t) by reflexivity.
  rewrite Hv.
  rewrite permute_undo; [| left; split; reflexivity | reflexivity | exact Ht].
  destruct x as [dt s d]. unfold t, view. cbn [dtype data shape] in *. subst s.
  rewrite (even_halves h Hh), (even_halves w Hwd). reflexivity.
Qed.

End Patches.

Lemma patchify_unpatchify_roundtrip_witness :
  exists img,
    rearrange_patchify 2 2 Toy.x0 = Ok img
    /\ shape img = [1; (4 / 2) * (4 / 2); 1 * 2 * 2]
    /\ rearrange_unpatchify (4 / 2) (4 / 2) 2 2 img = Ok Toy.x0.
Proof.
  apply (patchify_unpatchify_roundtrip Toy.x0 1 1 4 4); reflexivity.
Defined.

(** ** The constructor *)

Section Construction.
Context {Dtype : Type}.
Local Open Scope Z_scope.

Lemma init_zero_division (dt : option Dtype) (p : FluxParams.t) :
  FluxParams.num_heads p = 0 -> __init__ dt p = Raise ZeroDivisionError.
Proof. intros H. unfold __init__, py_mod. rewrite H. reflexivity. Qed.

Lemma init_ok_iff (dt : option Dtype) (p : FluxParams.t) :
  FluxParams.num_heads p <> 0 ->
  (exists m, __init__ dt p = Ok m)
  <-> FluxParams.hidden_size p mod FluxParams.num_heads p = 0
      /\ py_sum (FluxParams.axes_dim p) = FluxParams.hidden_size p / FluxParams.num_heads p.
Proof.
  intros Hn. unfold __init__, py_mod, py_floordiv.
  apply Z.eqb_neq in Hn. rewrite Hn. cbn [rbind].
  destruct (Z.eqb_spec (FluxParams.hidden_size p mod FluxParams.num_heads p) 0) as [E|E];
    cbn [negb].
  - destruct (Z.eqb_spec (py_sum (FluxParams.axes_dim p))
                (FluxParams.hidden_size p / FluxParams.num_heads p)) as [E'|E']; cbn [negb].
    + split; [intros _; split; assumption | intros _; eexists; reflexivity].
    + split; [intros [m Hm]; discriminate | intros [_ H]; contradiction].
  - split; [intros [m Hm]; discriminate | intros [H _]; contradiction].
Qed.

Lemma init_value_error (dt : option Dtype) (p : FluxParams.t) :
  FluxParams.num_heads p <> 0 ->
  FluxParams.hidden_size p mod FluxParams.num_heads p <> 0
  \/ py_sum (FluxParams.axes_dim p) <> FluxParams.hidden_size p / FluxParams.num_heads p ->
  exists msg, __init__ dt p = Raise (ValueError msg).
Proof.
  intros Hn H. unfold __init__, py_mod, py_floordiv.
  apply Z.eqb_neq in Hn. rewrite Hn. cbn [rbind].
  destruct (Z.eqb_spec (FluxParams.hidden_size p mod FluxParams.num_heads p) 0) as [E|E];
    cbn [negb]; [|eexists; reflexivity].
  destruct (Z.eqb_spec (py_sum (FluxParams.axes_dim p))
              (FluxParams.hidden_size p / FluxParams.num_heads p)) as [E'|E']; cbn [negb];
    [|eexists; reflexivity].
  destruct H; contradiction.
Qed.

(** C8 (amended). With [num_heads = 0] the constructor raises
    ZeroDivisionError at [hidden_size % num_heads].  With [num_heads <> 0]
    it raises ValueError if [hidden_size] is not divisible by [num_heads],
    raises ValueError if the sum of [axes_dim] is not
    [hidden_size // num_heads], and returns a model exactly when
    [hidden_size] is divisible by [num_heads] and the sum of [axes_dim] is
    [hidden_size // num_heads]. *)
Theorem init_validation (dt : option Dtype) (p : FluxParams.t) :
  let h := FluxParams.hidden_size p in
  let n := FluxParams.num_heads p in
  let s := py_sum (FluxParams.axes_dim p) in
  (n = 0 -> __init__ dt p = Raise ZeroDivisionError)
  /\ (n <> 0 ->
      (~ (n | h) -> exists msg, __init__ dt p = Raise (ValueError msg))
      /\ (s <> h / n -> exists msg, __init__ dt p = Raise (ValueError msg))
      /\ ((exists m, __init__ dt p = Ok m) <-> (n | h) /\ s = h / n)).
Proof.
  cbv zeta. split; [apply init_zero_division|].
  intros Hn. split; [|split].
  - intros Hd. apply init_value_error; [exact Hn|]. left.
    intros E. apply Hd. apply Z.mod_divide; assumption.
  - intros Hs. apply init_value_error; [exact Hn|]. right. exact Hs.
  - rewrite (init_ok_iff dt p Hn). rewrite Z.mod_divide by exact Hn. reflexivity.
Qed.

(** The projections at both ends of a constructed model. *)
Lemma init_projections (dt : option Dtype) (p : FluxParams.t) (m : Flux Dtype) :
  __init__ dt p = Ok m ->
  img_in m = Linear (FluxParams.in_channels p) (FluxParams.hidden_size p) true
  /\ txt_in m = Linear (FluxParams.context_in_dim p) (FluxParams.hidden_size p) true
  /\ final_layer m = LastLayer (FluxParams.hidden_size p) 1 (FluxParams.in_channels p)
  /\ in_channels m = FluxParams.in_channels p.
Proof.
  unfold __init__, py_mod, py_floordiv. intros H.
  destruct (FluxParams.num_heads p =? 0); [discriminate|]. cbn [rbind] in H.
  destruct (negb (FluxParams.hidden_size p mod FluxParams.num_heads p =? 0));
    [discriminate|].
  destruct (negb (py_sum (FluxParams.axes_dim p)
                  =? FluxParams.hidden_size p / FluxParams.num_heads p));
    [discriminate|].
  injection H as <-. cbn. auto.
Qed.

(** C7 (amended). A model the constructor returns holds one double-stream
    block per element of [range(depth)], that is max(depth, 0) of them, and
    max(depth_single_blocks, 0) single-stream blocks, each built from the
    configuration; one image and one text input projection, one timestep
    and one vector embedder, a guidance embedder exactly when
    [guidance_embed] is set (the identity otherwise), the positional
    embedder and one final projection layer. *)
Theorem init_composition (dt : option Dtype) (p : FluxParams.t) (m : Flux Dtype) :
  __init__ dt p = Ok m ->
  let h := FluxParams.hidden_size p in
  let n := FluxParams.num_heads p in
  Z.of_nat (length (double_blocks m)) = Z.max 0 (FluxParams.depth p)
  /\ Forall (eq (DoubleStreamBlock h n (FluxParams.mlp_ratio p) (FluxParams.qkv_bias p)))
            (double_blocks m)
  /\ Z.of_nat (length (single_blocks m)) = Z.max 0 (FluxParams.depth_single_blocks p)
  /\ Forall (eq (SingleStreamBlock h n (FluxParams.mlp_ratio p))) (single_blocks m)
  /\ img_in m = Linear (FluxParams.in_channels p) h true
  /\ txt_in m = Linear (FluxParams.context_in_dim p) h true
  /\ time_in m = MLPEmbedder 256 h
  /\ vector_in m = MLPEmbedder (FluxParams.vec_in_dim p) h
  /\ guidance_in m = (if FluxParams.guidance_embed p then MLPEmbedder 256 h else Identity)
  /\ pe_embedder m = EmbedND (h / n) (FluxParams.theta p) (FluxParams.axes_dim p)
  /\ final_layer m = LastLayer h 1 (FluxParams.in_channels p)
  /\ params m = p
  /\ in_channels m = FluxParams.in_channels p
  /\ out_channels m = in_channels m.
Proof.
  unfold __init__, py_mod, py_floordiv. intros H. cbv zeta.
  destruct (FluxParams.num_heads p =? 0); [discriminate|]. cbn [rbind] in H.
  destruct (negb (FluxParams.hidden_size p mod FluxParams.num_heads p =? 0));
    [discriminate|].
  destruct (negb (py_sum (FluxParams.axes_dim p)
                  =? FluxParams.hidden_size p / FluxParams.num_heads p));
    [discriminate|].
  injection H as <-. cbn.
  unfold range. rewrite !length_map, !length_seq.
  repeat split; try lia.
  - apply Forall_forall. intros b Hb. apply in_map_iff in Hb.
    destruct Hb as [? [<- _]]. reflexivity.
  - apply Forall_forall. intros b Hb. apply in_map_iff in Hb.
    destruct Hb as [? [<- _]]. reflexivity.
Qed.

End Construction.

Lemma init_validation_witness :
  (exists m, __init__ (Some Toy.F32) (Toy.cfg true) = Ok m) <-> (2 | 8)%Z /\ 4%Z = (8 / 2)%Z.
Proof.
  apply (proj2 (init_validation (Some Toy.F32) (Toy.cfg true))).
  discriminate.
Defined.

(** With [hidden_size = 5] and [num_heads = 0] the hidden size is not
    divisible by the number of heads, and the constructor raises
    ZeroDivisionError, not ValueError. *)
Lemma init_zero_heads :
  ~ (0 | 5)%Z
  /\ __init__ (Some Toy.F32) Toy.cfg_zero_heads = Raise ZeroDivisionError.
Proof.
  split; [|reflexivity].
  intros [k Hk]. lia.
Qed.

Lemma init_composition_witness :
  Z.of_nat (length (double_blocks (Toy.model true))) = 2%Z
  /\ Z.of_nat (length (single_blocks (Toy.model true))) = 3%Z.
Proof.
  pose proof (init_composition (Some Toy.F32) (Toy.cfg true) (Toy.model true) eq_refl) as H.
  cbv zeta in H. destruct H as (H1 & _ & H2 & _).
  split; [exact H1 | exact H2].
Defined.

(** With [depth = -1] the constructor returns a model; it holds no
    double-stream block, not [depth] many. *)
Lemma init_negative_depth :
  exists m, __init__ (Some Toy.F32) Toy.cfg_negative_depth = Ok m
            /\ FluxParams.depth Toy.cfg_negative_depth = (-1)%Z
            /\ length (double_blocks m) = 0%nat
            /\ Z.of_nat (length (double_blocks m)) <> FluxParams.depth Toy.cfg_negative_depth.
Proof.
  eexists. split; [reflexivity|]. repeat split. discriminate.
Qed.

(** ** Runs of the forward pass *)

Section Runs.
Context {A Dtype : Type} `{Sc : Scalar A Dtype} `{Bk : Backend A Dtype}.
Local Abbreviation Tensor := (Tensor A Dtype).
Local Abbreviation M := (@M A Dtype).

Lemma bind_ok {X Y} (x : X) (evs : list (Event A Dtype)) (k : X -> M Y) :
  bind (Ok x, evs) k = (outcome (k x), evs ++ trace (k x)).
Proof. unfold bind, outcome, trace. destruct (k x); reflexivity. Qed.

Lemma bind_call_some {X Y} s args (x : X) (k : X -> M Y) :
  bind (call s args (Some x)) k = (outcome (k x), Call s args :: trace (k x)).
Proof. unfold call. rewrite bind_ok. reflexivity. Qed.

Lemma bind_call_none {X Y} s args (k : X -> M Y) :
  bind (call s args None) k = (Raise (LayerError s), [Call s args]).
Proof. reflexivity. Qed.

Lemma bind_helper_some {X Y} name (x : X) (k : X -> M Y) :
  bind (helper name (Some x)) k = k x.
Proof. unfold helper, bind. destruct (k x); reflexivity. Qed.

Lemma bind_helper_none {X Y} name (k : X -> M Y) :
  bind (helper name None) k = (Raise (HelperError name), []).
Proof. reflexivity. Qed.

Lemma bind_lift_ok {X Y} (x : X) (k : X -> M Y) : bind (lift (Ok x)) k = k x.
Proof. unfold lift, bind. destruct (k x); reflexivity. Qed.

Lemma bind_lift_raise {X Y} e (k : X -> M Y) : bind (lift (Raise e)) k = (Raise e, []).
Proof. reflexivity. Qed.

Lemma bind_ret {X Y} (x : X) (k : X -> M Y) : bind (ret x) k = k x.
Proof. unfold ret, bind. destruct (k x); reflexivity. Qed.

Lemma bind_raise {X Y} e (k : X -> M Y) : bind (raise e) k = (Raise e, []).
Proof. reflexivity. Qed.

Lemma outcome_pair {X} (r : result X) (evs : list (Event A Dtype)) :
  outcome (r, evs) = r.
Proof. reflexivity. Qed.

Lemma trace_pair {X} (r : result X) (evs : list (Event A Dtype)) :
  trace (r, evs) = evs.
Proof. reflexivity. Qed.

Lemma pair_eta {X} (m : M X) : m = (outcome m, trace m).
Proof. destruct m; reflexivity. Qed.

Lemma outcome_bind {X Y} (m : M X) (k : X -> M Y) :
  outcome (bind m k)
  = match outcome m with
    | Ok x => outcome (k x)
    | Raise e => Raise e
    end.
Proof. destruct m as [[x|e] evs]; [rewrite bind_ok|]; reflexivity. Qed.

Lemma trace_bind {X Y} (m : M X) (k : X -> M Y) :
  trace (bind m k)
  = trace m ++ match outcome m with
               | Ok x => trace (k x)
               | Raise _ => []
               end.
Proof.
  destruct m as [[x|e] evs]; [rewrite bind_ok; reflexivity|].
  cbn. rewrite app_nil_r. reflexivity.
Qed.

(** The loops against the folds. *)
Lemma run_double_blocks_spec blocks : forall k img txt vec pe,
  value (outcome (run_double_blocks blocks k img txt vec pe))
  = double_chain blocks k img txt vec pe
  /\ trace (run_double_blocks blocks k img txt vec pe)
     = double_calls blocks k img txt vec pe.
Proof.
  induction blocks as [|b rest IH]; intros; cbn [run_double_blocks double_chain double_calls].
  - split; reflexivity.
  - unfold apply_double.
    destruct (forward_double (DoubleBlocks k) b img txt vec pe) as [r|].
    + rewrite bind_call_some, outcome_pair, trace_pair. cbn [obind].
      destruct (IH (S k) (fst r) (snd r) vec pe) as [H1 H2].
      rewrite H1, H2. split; reflexivity.
    + rewrite bind_call_none. split; reflexivity.
Qed.

Lemma run_single_blocks_spec blocks : forall k img vec pe,
  value (outcome (run_single_blocks blocks k img vec pe))
  = single_chain blocks k img vec pe
  /\ trace (run_single_blocks blocks k img vec pe)
     = single_calls blocks k img vec pe.
Proof.
  induction blocks as [|b rest IH]; intros; cbn [run_single_blocks single_chain single_calls].
  - split; reflexivity.
  - unfold apply_single.
    destruct (forward_single (SingleBlocks k) b img vec pe) as [r|].
    + rewrite bind_call_some, outcome_pair, trace_pair. cbn [obind].
      destruct (IH (S k) r vec pe) as [H1 H2].
      rewrite H1, H2. split; reflexivity.
    + rewrite bind_call_none. split; reflexivity.
Qed.

Lemma double_calls_callee blocks : forall k img txt vec pe r,
  double_chain blocks k img txt vec pe = Some r ->
  map (@callee A Dtype) (double_calls blocks k img txt vec pe)
  = map DoubleBlocks (seq k (length blocks)).
Proof.
  induction blocks as [|b rest IH]; intros k img txt vec pe r H; cbn in *; [reflexivity|].
  destruct (forward_double (DoubleBlocks k) b img txt vec pe) as [r'|]; [|discriminate].
  cbn in H. f_equal. eapply IH; eassumption.
Qed.

Lemma single_calls_callee blocks : forall k img vec pe r,
  single_chain blocks k img vec pe = Some r ->
  map (@callee A Dtype) (single_calls blocks k img vec pe)
  = map SingleBlocks (seq k (length blocks)).
Proof.
  induction blocks as [|b rest IH]; intros k img vec pe r H; cbn in *; [reflexivity|].
  destruct (forward_single (SingleBlocks k) b img vec pe) as [r'|]; [|discriminate].
  cbn in H. f_equal. eapply IH; eassumption.
Qed.

Lemma double_calls_phase blocks : forall k img txt vec pe,
  Forall (fun e => phase e = 1) (double_calls blocks k img txt vec pe).
Proof.
  induction blocks as [|b rest IH]; intros; cbn; constructor; [reflexivity|].
  destruct (forward_double (DoubleBlocks k) b img txt vec pe); [apply IH|constructor].
Qed.

Lemma single_calls_phase blocks : forall k img vec pe,
  Forall (fun e => phase e = 2) (single_calls blocks k img vec pe).
Proof.
  induction blocks as [|b rest IH]; intros; cbn; constructor; [reflexivity|].
  destruct (forward_single (SingleBlocks k) b img vec pe); [apply IH|constructor].
Qed.

Lemma double_calls_vec blocks : forall k img txt vec pe,
  Forall (fun e => vec_arg e = Some vec) (double_calls blocks k img txt vec pe).
Proof.
  induction blocks as [|b rest IH]; intros; cbn; constructor; [reflexivity|].
  destruct (forward_double (DoubleBlocks k) b img txt vec pe); [apply IH|constructor].
Qed.

Lemma single_calls_vec blocks : forall k img vec pe,
  Forall (fun e => vec_arg e = Some vec) (single_calls blocks k img vec pe).
Proof.
  induction blocks as [|b rest IH]; intros; cbn; constructor; [reflexivity|].
  destruct (forward_single (SingleBlocks k) b img vec pe); [apply IH|constructor].
Qed.

Ltac step_as x E :=
  rewrite ?outcome_pair, ?trace_pair;
  lazymatch goal with
  | |- context [bind (call ?s ?a ?o) ?k] =>
      destruct o as [x|] eqn:E; [rewrite bind_call_some | rewrite bind_call_none]
  | |- context [bind (helper ?n ?o) ?k] =>
      destruct o as [x|] eqn:E; [rewrite bind_helper_some | rewrite bind_helper_none]
  | |- context [bind (lift ?r) ?k] =>
      destruct r as [x|] eqn:E; [rewrite bind_lift_ok | rewrite bind_lift_raise]
  end;
  rewrite ?outcome_pair, ?trace_pair.

Tactic Notation "step" ident(x) ident(E) :=
  step_as x E; [|intros ?H; discriminate].

Lemma guidance_stage (self : Flux Dtype) (dt : Dtype) (t : Tensor) (guidance : option Tensor) :
  let G := if FluxParams.guidance_embed (params self) then
             match guidance with
             | Some g =>
                 bind (helper "timestep_embedding" (timestep_embedding g 256))
                   (fun ge =>
                    bind (call GuidanceIn [to_dtype dt ge]
                            (forward1 GuidanceIn (guidance_in self) (to_dtype dt ge)))
                      (fun gv => lift (tensor_add t gv)))
             | None => raise guidance_error
             end
           else ret t in
  Forall (fun e => callee e = GuidanceIn) (trace G)
  /\ forall v, outcome G = Ok v ->
       (if FluxParams.guidance_embed (params self) then
          obind guidance (fun g =>
          obind (timestep_embedding g 256) (fun ge =>
          obind (forward1 GuidanceIn (guidance_in self) (to_dtype dt ge)) (fun gv =>
          value (tensor_add t gv))))
        else Some t) = Some v.
Proof.
  cbv zeta.
  destruct (FluxParams.guidance_embed (params self)).
  - destruct guidance as [g|]; cbn [obind].
    + destruct (timestep_embedding g 256) as [ge|];
        [rewrite bind_helper_some | rewrite bind_helper_none]; cbn [obind].
      * destruct (forward1 GuidanceIn (guidance_in self) (to_dtype dt ge)) as [gv|];
          [rewrite bind_call_some | rewrite bind_call_none];
          rewrite outcome_pair, trace_pair; cbn [obind].
        -- split; [repeat constructor|].
           intros v H. unfold lift, outcome in H. cbn [fst] in H. rewrite H. reflexivity.
        -- split; [repeat constructor|]. intros v H; discriminate H.
      * split; [constructor|]. intros v H; discriminate H.
    + split; [constructor|]. intros v H; discriminate H.
  - split; [constructor|]. intros v H. injection H as <-. reflexivity.
Qed.

Lemma forward_orig_ok (self : Flux Dtype) (img img_ids txt txt_ids timesteps y : Tensor)
    (guidance : option Tensor) (out : Tensor) :
  outcome (forward_orig self img img_ids txt txt_ids timesteps y guidance) = Ok out ->
  ndim img = 3 /\ ndim txt = 3 /\
  exists img1 txt1 ids pe vec img2 txt2 x0 x1 n x2 pre,
    forward1 ImgIn (img_in self) img = Some img1
    /\ conditioning self (dtype img1) timesteps y guidance = Some vec
    /\ forward1 TxtIn (txt_in self) txt = Some txt1
    /\ cat1 txt_ids img_ids = Ok ids
    /\ forward1 PeEmbedder (pe_embedder self) ids = Some pe
    /\ double_chain (double_blocks self) 0 img1 txt1 vec pe = Some (img2, txt2)
    /\ cat1 txt2 img2 = Ok x0
    /\ single_chain (single_blocks self) 0 x0 vec pe = Some x1
    /\ shape_at txt2 1 = Ok n
    /\ slice1_from n x1 = Ok x2
    /\ forward_final FinalLayer (final_layer self) x2 vec = Some out
    /\ trace (forward_orig self img img_ids txt txt_ids timesteps y guidance)
       = pre ++ [Call PeEmbedder [ids]]
             ++ double_calls (double_blocks self) 0 img1 txt1 vec pe
             ++ single_calls (single_blocks self) 0 x0 vec pe
             ++ [Call FinalLayer [x2; vec]]
    /\ Forall (fun e => phase e = 0 /\ callee e <> PeEmbedder) pre.
Proof.
  unfold forward_orig.
  destruct (Nat.eqb_spec (ndim img) 3) as [Hi|Hi]; cbn [negb orb];
    [|intros H; discriminate H].
  destruct (Nat.eqb_spec (ndim txt) 3) as [Ht|Ht]; cbn [negb orb];
    [|intros H; discriminate H].
  unfold apply1, apply_final.
  step img1 E1. step te E2. step t E3.
  match goal with
  | |- context [bind (if ?c then ?a else ?b) ?k] => set (G := if c then a else b)
  end.
  destruct (guidance_stage self (dtype img1) t guidance) as [HGt HGo].
  cbv zeta in HGt, HGo. fold G in HGt, HGo.
  rewrite outcome_bind, trace_bind.
  destruct (outcome G) as [tg|] eqn:EG; [|intros H; discriminate H].
  specialize (HGo tg eq_refl).
  step yv E4. step vec E5. step txt1 E6. step ids E7. step pe E8.
  rewrite outcome_bind, trace_bind.
  destruct (run_double_blocks_spec (double_blocks self) 0 img1 txt1 vec pe) as [HDo HDt].
  destruct (outcome (run_double_blocks (double_blocks self) 0 img1 txt1 vec pe))
    as [r|] eqn:ED; [|intros H; discriminate H].
  cbn [value] in HDo. rewrite HDt.
  step x0 E9.
  rewrite outcome_bind, trace_bind.
  destruct (run_single_blocks_spec (single_blocks self) 0 x0 vec pe) as [HSo HSt].
  destruct (outcome (run_single_blocks (single_blocks self) 0 x0 vec pe))
    as [x1|] eqn:ES; [|intros H; discriminate H].
  cbn [value] in HSo. rewrite HSt.
  step n E10. step x2 E11. step o E12.
  unfold ret. rewrite ?outcome_pair, ?trace_pair.
  intros H. injection H as ->.
  split; [exact Hi|]. split; [exact Ht|].
  exists img1, txt1, ids, pe, vec, (fst r), (snd r), x0, x1, n, x2.
  exists ([Call ImgIn [img]; Call TimeIn [to_dtype (dtype img1) te]] ++ trace G
          ++ [Call VectorIn [y]; Call TxtIn [txt]]).
  repeat match goal with |- _ /\ _ => split end; try reflexivity; try assumption.
  - unfold conditioning. rewrite E2. cbn [obind]. rewrite E3. cbn [obind].
    rewrite HGo. cbn [obind]. rewrite E4. cbn [obind]. rewrite E5. reflexivity.
  - rewrite <- HDo. destruct r; reflexivity.
  - rewrite <- HSo. reflexivity.
  - cbn [app]. f_equal. f_equal. rewrite <- !app_assoc. reflexivity.
  - cbn [app].
    do 2 (constructor; [split; [reflexivity|discriminate]|]).
    apply Forall_app. split.
    + eapply Forall_impl; [|exact HGt].
      intros [s a] Hs. cbn in Hs. subst s. split; [reflexivity|discriminate].
    + do 2 (constructor; [split; [reflexivity|discriminate]|]). constructor.
Qed.

Lemma tensor_add_raises (a b : Tensor) e :
  tensor_add a b = Raise e -> e = RuntimeError.
Proof.
  unfold tensor_add. destruct (broadcast_shapes (shape a) (shape b)); [discriminate|].
  intros H; injection H as <-; reflexivity.
Qed.

Lemma cat1_raises (a b : Tensor) e :
  cat1 a b = Raise e -> e = RuntimeError \/ e = IndexError.
Proof.
  unfold cat1, cat1_alone. intros H.
  repeat match type of H with
         | context [match ?l with [] => _ | _ :: _ => _ end] => destruct l
         | context [if ?c then _ else _] => destruct c
         end;
    try discriminate H; injection H as <-; auto.
Qed.

Lemma shape_at_raises (t : Tensor) k e : shape_at t k = Raise e -> e = IndexError.
Proof.
  unfold shape_at. destruct (nth_error (shape t) k); [discriminate|].
  intros H; injection H as <-; reflexivity.
Qed.

Lemma slice1_from_raises n (t : Tensor) e : slice1_from n t = Raise e -> e = IndexError.
Proof.
  unfold slice1_from. destruct (shape t) as [|? [|? ?]]; try discriminate;
    intros H; injection H as <-; reflexivity.
Qed.

Lemma run_double_blocks_raises blocks : forall k img txt vec pe e,
  outcome (run_double_blocks blocks k img txt vec pe) = Raise e ->
  exists j, e = LayerError (DoubleBlocks j).
Proof.
  induction blocks as [|b rest IH]; intros k img txt vec pe e; cbn [run_double_blocks].
  - intros H; discriminate H.
  - unfold apply_double.
    destruct (forward_double (DoubleBlocks k) b img txt vec pe) as [r|].
    + rewrite bind_call_some, outcome_pair. apply IH.
    + rewrite bind_call_none, outcome_pair. intros H; injection H as <-. eauto.
Qed.

Lemma run_single_blocks_raises blocks : forall k img vec pe e,
  outcome (run_single_blocks blocks k img vec pe) = Raise e ->
  exists j, e = LayerError (SingleBlocks j).
Proof.
  induction blocks as [|b rest IH]; intros k img vec pe e; cbn [run_single_blocks].
  - intros H; discriminate H.
  - unfold apply_single.
    destruct (forward_single (SingleBlocks k) b img vec pe) as [r|].
    + rewrite bind_call_some, outcome_pair. apply IH.
    + rewrite bind_call_none, outcome_pair. intros H; injection H as <-. eauto.
Qed.

(** The three ways [forward_orig] raises: its rank check, its guidance
    check, or an exception from below that is not a ValueError of its
    own. *)
Lemma forward_orig_raises (self : Flux Dtype) (img img_ids txt txt_ids timesteps y : Tensor)
    (guidance : option Tensor) (e : exn) :
  outcome (forward_orig self img img_ids txt txt_ids timesteps y guidance) = Raise e ->
  (e = rank_error /\ (ndim img <> 3 \/ ndim txt <> 3)
   /\ trace (forward_orig self img img_ids txt txt_ids timesteps y guidance) = [])
  \/ (e = guidance_error /\ ndim img = 3 /\ ndim txt = 3
      /\ FluxParams.guidance_embed (params self) = true /\ guidance = None)
  \/ (ndim img = 3 /\ ndim txt = 3 /\ forall msg, e <> ValueError msg).
Proof.
  unfold forward_orig.
  destruct (Nat.eqb_spec (ndim img) 3) as [Hi|Hi]; cbn [negb orb];
    [|intros H; injection H as <-; left; auto].
  destruct (Nat.eqb_spec (ndim txt) 3) as [Ht|Ht]; cbn [negb orb];
    [|intros H; injection H as <-; left; auto].
  intros H. right.
  assert (Hgoal : (e = guidance_error
                   /\ FluxParams.guidance_embed (params self) = true /\ guidance = None)
                  \/ forall msg, e <> ValueError msg);
    [|destruct Hgoal as [(? & ? & ?)|?]; [left|right]; auto].
  revert H. unfold apply1, apply_final.
  step_as img1 E1; [|intros H; injection H as <-; right; discriminate].
  step_as te E2; [|intros H; injection H as <-; right; discriminate].
  step_as t E3; [|intros H; injection H as <-; right; discriminate].
  rewrite outcome_bind.
  match goal with
  | |- context [outcome (if ?c then ?a else ?b)] => set (G := if c then a else b)
  end.
  destruct (outcome G) as [tg|eg] eqn:EG.
  - clear EG G.
    step_as yv E4; [|intros H; injection H as <-; right; discriminate].
    step_as vec E5;
      [|intros H; injection H as <-; right; apply tensor_add_raises in E5; subst; discriminate].
    step_as txt1 E6; [|intros H; injection H as <-; right; discriminate].
    step_as ids E7;
      [|intros H; injection H as <-; right;
        apply cat1_raises in E7; destruct E7; subst; discriminate].
    step_as pe E8; [|intros H; injection H as <-; right; discriminate].
    rewrite outcome_bind.
    destruct (outcome (run_double_blocks (double_blocks self) 0 img1 txt1 vec pe))
      as [r|ed] eqn:ED;
      [|intros H; injection H as <-; right;
        apply run_double_blocks_raises in ED; destruct ED as [j ->]; discriminate].
    step_as x0 E9;
      [|intros H; injection H as <-; right;
        apply cat1_raises in E9; destruct E9; subst; discriminate].
    rewrite outcome_bind.
    destruct (outcome (run_single_blocks (single_blocks self) 0 x0 vec pe))
      as [x1|es] eqn:ES;
      [|intros H; injection H as <-; right;
        apply run_single_blocks_raises in ES; destruct ES as [j ->]; discriminate].
    step_as n E10;
      [|intros H; injection H as <-; right; apply shape_at_raises in E10; subst; discriminate].
    step_as x2 E11;
      [|intros H; injection H as <-; right;
        apply slice1_from_raises in E11; subst; discriminate].
    step_as o E12; [|intros H; injection H as <-; right; discriminate].
    intros H; discriminate H.
  - intros H; injection H as <-. subst G.
    destruct (FluxParams.guidance_embed (params self)); [|discriminate EG].
    destruct guidance as [g|].
    + right. revert EG.
      step_as gemb F1; [|intros H; injection H as <-; discriminate].
      step_as gv F2; [|intros H; injection H as <-; discriminate].
      unfold lift. rewrite outcome_pair. intros H.
      apply tensor_add_raises in H. subst. discriminate.
    + left. injection EG as <-. auto.
Qed.

Lemma stage_calls_double blocks k img txt vec pe :
  stage_calls 1 vec (double_calls blocks k img txt vec pe).
Proof.
  unfold stage_calls. apply Forall_forall. intros e He. split.
  - pose proof (double_calls_phase blocks k img txt vec pe) as H.
    rewrite Forall_forall in H. auto.
  - pose proof (double_calls_vec blocks k img txt vec pe) as H.
    rewrite Forall_forall in H. auto.
Qed.

Lemma stage_calls_single blocks k img vec pe :
  stage_calls 2 vec (single_calls blocks k img vec pe).
Proof.
  unfold stage_calls. apply Forall_forall. intros e He. split.
  - pose proof (single_calls_phase blocks k img vec pe) as H.
    rewrite Forall_forall in H. auto.
  - pose proof (single_calls_vec blocks k img vec pe) as H.
    rewrite Forall_forall in H. auto.
Qed.

Ltac embedder_calls HG :=
  repeat first
    [ apply Forall_nil
    | apply Forall_cons; [split; [reflexivity|discriminate]|]
    | apply Forall_app; split
    | eapply Forall_impl; [|exact HG];
      let s := fresh in let a := fresh in let Hs := fresh in
      intros [s a] Hs; cbn in Hs; subst s; split; [reflexivity|discriminate] ].

Lemma trace_shape_pre self img img_ids txt_ids timesteps y guidance tr :
  Forall (fun e => phase e = 0 /\ callee e <> PeEmbedder) tr ->
  trace_shape self img img_ids txt_ids timesteps y guidance tr.
Proof. intros H. exists tr, []. rewrite app_nil_r. auto. Qed.

Lemma trace_shape_post self img img_ids txt_ids timesteps y guidance
    img1 vec ids pre dbl sgl fin :
  forward1 ImgIn (img_in self) img = Some img1 ->
  conditioning self (dtype img1) timesteps y guidance = Some vec ->
  cat1 txt_ids img_ids = Ok ids ->
  Forall (fun e => phase e = 0 /\ callee e <> PeEmbedder) pre ->
  stage_calls 1 vec dbl -> stage_calls 2 vec sgl -> stage_calls 3 vec fin ->
  trace_shape self img img_ids txt_ids timesteps y guidance
    (pre ++ Call PeEmbedder [ids] :: dbl ++ sgl ++ fin).
Proof.
  intros. exists pre, (Call PeEmbedder [ids] :: dbl ++ sgl ++ fin).
  split; [reflexivity|]. split; [assumption|].
  right. exists img1, vec, ids, dbl, sgl, fin. repeat split; assumption.
Qed.

Lemma forward_orig_trace (self : Flux Dtype) (img img_ids txt txt_ids timesteps y : Tensor)
    (guidance : option Tensor) :
  trace_shape self img img_ids txt_ids timesteps y guidance
    (trace (forward_orig self img img_ids txt txt_ids timesteps y guidance)).
Proof.
  unfold forward_orig.
  destruct (negb (ndim img =? 3) || negb (ndim txt =? 3)).
  { apply trace_shape_pre. constructor. }
  unfold apply1, apply_final.
  step_as img1 E1; [|apply trace_shape_pre; embedder_calls I].
  step_as te E2; [|apply trace_shape_pre; embedder_calls I].
  step_as t E3; [|apply trace_shape_pre; embedder_calls I].
  match goal with
  | |- context [bind (if ?c then ?a else ?b) ?k] => set (G := if c then a else b)
  end.
  destruct (guidance_stage self (dtype img1) t guidance) as [HGt HGo].
  cbv zeta in HGt, HGo. fold G in HGt, HGo.
  rewrite trace_bind.
  destruct (outcome G) as [tg|] eqn:EG;
    [|apply trace_shape_pre; rewrite app_nil_r; embedder_calls HGt].
  specialize (HGo tg eq_refl).
  step_as yv E4; [|apply trace_shape_pre; embedder_calls HGt].
  step_as vec E5; [|apply trace_shape_pre; embedder_calls HGt].
  step_as txt1 E6; [|apply trace_shape_pre; embedder_calls HGt].
  step_as ids E7; [|apply trace_shape_pre; embedder_calls HGt].
  assert (Hvec : conditioning self (dtype img1) timesteps y guidance = Some vec).
  { unfold conditioning. rewrite E2. cbn [obind]. rewrite E3. cbn [obind].
    rewrite HGo. cbn [obind]. rewrite E4. cbn [obind]. rewrite E5. reflexivity. }
  assert (Hpost : forall dbl sgl fin rest,
             rest = dbl ++ sgl ++ fin ->
             stage_calls 1 vec dbl -> stage_calls 2 vec sgl -> stage_calls 3 vec fin ->
             trace_shape self img img_ids txt_ids timesteps y guidance
               (Call ImgIn [img] :: Call TimeIn [to_dtype (dtype img1) te]
                  :: trace G ++ Call VectorIn [y] :: Call TxtIn [txt]
                  :: Call PeEmbedder [ids] :: rest)).
  { intros dbl sgl fin rest -> Hd Hs Hf.
    replace (Call ImgIn [img] :: Call TimeIn [to_dtype (dtype img1) te]
               :: trace G ++ Call VectorIn [y] :: Call TxtIn [txt]
               :: Call PeEmbedder [ids] :: dbl ++ sgl ++ fin)
      with (([Call ImgIn [img]; Call TimeIn [to_dtype (dtype img1) te]] ++ trace G
             ++ [Call VectorIn [y]; Call TxtIn [txt]])
            ++ Call PeEmbedder [ids] :: dbl ++ sgl ++ fin)
      by (cbn [app]; rewrite <- app_assoc; reflexivity).
    eapply trace_shape_post; try eassumption. embedder_calls HGt. }
  step_as pe E8;
    [|apply (Hpost [] [] []); [reflexivity|constructor..]].
  rewrite trace_bind.
  destruct (run_double_blocks_spec (double_blocks self) 0 img1 txt1 vec pe) as [_ HDt].
  rewrite HDt.
  pose proof (stage_calls_double (double_blocks self) 0 img1 txt1 vec pe) as HD.
  set (D := double_calls (double_blocks self) 0 img1 txt1 vec pe) in *.
  destruct (outcome (run_double_blocks (double_blocks self) 0 img1 txt1 vec pe)) as [r|];
    [|apply (Hpost D [] []); [rewrite !app_nil_r; reflexivity|exact HD|constructor..]].
  step_as x0 E9;
    [|apply (Hpost D [] []); [rewrite !app_nil_r; reflexivity|exact HD|constructor..]].
  rewrite trace_bind.
  destruct (run_single_blocks_spec (single_blocks self) 0 x0 vec pe) as [_ HSt].
  rewrite HSt.
  pose proof (stage_calls_single (single_blocks self) 0 x0 vec pe) as HS.
  set (S := single_calls (single_blocks self) 0 x0 vec pe) in *.
  destruct (outcome (run_single_blocks (single_blocks self) 0 x0 vec pe)) as [x1|];
    [|apply (Hpost D S []); [rewrite !app_nil_r; reflexivity|exact HD|exact HS|constructor]].
  step_as n E10;
    [|apply (Hpost D S []); [rewrite !app_nil_r; reflexivity|exact HD|exact HS|constructor]].
  step_as x2 E11;
    [|apply (Hpost D S []); [rewrite !app_nil_r; reflexivity|exact HD|exact HS|constructor]].
  assert (HF : stage_calls 3 vec [Call FinalLayer [x2; vec]])
    by (constructor; [split; reflexivity|constructor]).
  step_as o E12.
  - apply (Hpost D S [Call FinalLayer [x2; vec]]);
      [reflexivity|exact HD|exact HS|exact HF].
  - apply (Hpost D S [Call FinalLayer [x2; vec]]);
      [reflexivity|exact HD|exact HS|exact HF].
Qed.

End Runs.

(** ** Order of the stages *)

Lemma sorted_app (l1 l2 : list nat) :
  StronglySorted le l1 -> StronglySorted le l2 ->
  (forall a b, In a l1 -> In b l2 -> a <= b) ->
  StronglySorted le (l1 ++ l2).
Proof.
  intros H1 H2 H. induction H1 as [|a l Hl IH Ha]; cbn; [exact H2|].
  constructor.
  - apply IH. intros x b Hx Hb. apply H; [right|]; assumption.
  - apply Forall_app. split; [exact Ha|].
    apply Forall_forall. intros b Hb. apply H; [left; reflexivity|exact Hb].
Qed.

Lemma sorted_constant (p : nat) (l : list nat) :
  Forall (eq p) l -> StronglySorted le l.
Proof.
  induction 1 as [|a l Ha Hl IH]; constructor; [exact IH|].
  subst a. eapply Forall_impl; [|exact Hl]. intros b <-. constructor.
Qed.

Lemma sorted_middle (l1 l2 l3 : list nat) (a b : nat) :
  StronglySorted le (l1 ++ a :: l2 ++ b :: l3) -> a <= b.
Proof.
  induction l1 as [|x l1 IH]; cbn; intros H; inversion H; subst; [|auto].
  rewrite Forall_forall in H3. apply H3. apply in_or_app. right. left. reflexivity.
Qed.

Section Claims.
Context {A Dtype : Type} `{Sc : Scalar A Dtype} `{Bk : Backend A Dtype}.
Local Abbreviation Tensor := (Tensor A Dtype).

Lemma stage_calls_sorted (p : nat) (vec : Tensor) (evs : list (Event A Dtype)) :
  stage_calls p vec evs ->
  StronglySorted le (map phase evs) /\ Forall (eq p) (map phase evs).
Proof.
  intros H.
  assert (Hp : Forall (eq p) (map phase evs)).
  { apply Forall_forall. intros q Hq. apply in_map_iff in Hq.
    destruct Hq as [e [<- He]]. unfold stage_calls in H. rewrite Forall_forall in H.
    symmetry. apply (H e He). }
  split; [eapply sorted_constant; exact Hp | exact Hp].
Qed.

Lemma trace_shape_sorted self (img img_ids txt_ids timesteps y : Tensor) guidance tr :
  trace_shape self img img_ids txt_ids timesteps y guidance tr ->
  StronglySorted le (map phase tr).
Proof.
  intros (pre & post & -> & Hpre & Hpost).
  assert (Hp0 : Forall (eq 0) (map phase pre)).
  { apply Forall_forall. intros q Hq. apply in_map_iff in Hq.
    destruct Hq as [e [<- He]]. rewrite Forall_forall in Hpre.
    symmetry. apply (Hpre e He). }
  rewrite map_app. apply sorted_app.
  - eapply sorted_constant. exact Hp0.
  - destruct Hpost as [->|(img1 & vec & ids & dbl & sgl & fin & _ & _ & _ & -> & Hd & Hs & Hf)];
      [constructor|].
    apply stage_calls_sorted in Hd, Hs, Hf.
    destruct Hd as [Hd1 Hd2], Hs as [Hs1 Hs2], Hf as [Hf1 Hf2].
    rewrite Forall_forall in Hd2, Hs2, Hf2.
    cbn [map]. rewrite !map_app. constructor.
    + apply sorted_app; [exact Hd1| |].
      * apply sorted_app; [exact Hs1|exact Hf1|].
        intros a b Ha Hb. rewrite <- (Hs2 a Ha), <- (Hf2 b Hb). lia.
      * intros a b Ha Hb. rewrite <- (Hd2 a Ha).
        apply in_app_or in Hb. destruct Hb as [Hb|Hb];
          [rewrite <- (Hs2 b Hb)|rewrite <- (Hf2 b Hb)]; lia.
    + apply Forall_forall. intros b Hb. cbn. lia.
  - intros a b Ha Hb. rewrite Forall_forall in Hp0. rewrite <- (Hp0 a Ha). lia.
Qed.

(** C10. [forward_orig] raises its rank ValueError whenever [img] or [txt]
    does not have 3 dimensions, and no layer has been called by then; when
    both have 3 dimensions the check passes: the rank error is not raised
    and the image projection is called on [img]. *)
Theorem rank_check (self : Flux Dtype) (img img_ids txt txt_ids timesteps y : Tensor)
    (guidance : option Tensor) :
  if (ndim img =? 3) && (ndim txt =? 3)
  then outcome (forward_orig self img img_ids txt txt_ids timesteps y guidance)
         <> Raise rank_error
       /\ exists rest,
            trace (forward_orig self img img_ids txt txt_ids timesteps y guidance)
            = Call ImgIn [img] :: rest
  else forward_orig self img img_ids txt txt_ids timesteps y guidance
       = (Raise rank_error, []).
Proof.
  destruct (Nat.eqb_spec (ndim img) 3) as [Hi|Hi];
    [destruct (Nat.eqb_spec (ndim txt) 3) as [Ht|Ht]|]; cbn [andb].
  - split.
    + intros H. apply forward_orig_raises in H.
      destruct H as [(_ & [H|H] & _)|[(H & _)|(_ & _ & H)]]; try contradiction.
      * discriminate H.
      * apply (H _ eq_refl).
    + unfold forward_orig. apply Nat.eqb_eq in Hi, Ht. rewrite Hi, Ht. cbn [negb orb].
      unfold apply1.
      destruct (forward1 ImgIn (img_in self) img);
        [rewrite bind_call_some|rewrite bind_call_none]; rewrite trace_pair; eauto.
  - unfold forward_orig. apply Nat.eqb_eq in Hi. apply Nat.eqb_neq in Ht.
    rewrite Hi, Ht. reflexivity.
  - unfold forward_orig. apply Nat.eqb_neq in Hi. rewrite Hi. reflexivity.
Qed.

(** C1. In every run of [forward_orig] the calls come in the order of the
    stages, so that no single-stream block is called before a double-stream
    block.  In a run that returns, the trace is: the embedders, then the
    double-stream blocks one after the other, each receiving the [img] and
    [txt] the previous one returned, then the single-stream blocks on the
    concatenation of the resulting [txt] and [img], then the final layer on
    what is left after the text tokens are cut off. *)
Theorem double_stream_then_single_stream
    (self : Flux Dtype) (img img_ids txt txt_ids timesteps y : Tensor)
    (guidance : option Tensor) :
  let run := forward_orig self img img_ids txt txt_ids timesteps y guidance in
  StronglySorted le (map phase (trace run))
  /\ (forall l1 l2 l3 i j a b,
        trace run <> l1 ++ Call (SingleBlocks i) a :: l2 ++ Call (DoubleBlocks j) b :: l3)
  /\ (forall out, outcome run = Ok out ->
      exists pre img1 txt1 vec pe img2 txt2 x0 x1 n x2,
        trace run = pre
                    ++ double_calls (double_blocks self) 0 img1 txt1 vec pe
                    ++ single_calls (single_blocks self) 0 x0 vec pe
                    ++ [Call FinalLayer [x2; vec]]
        /\ Forall (fun e => phase e = 0) pre
        /\ map callee (double_calls (double_blocks self) 0 img1 txt1 vec pe)
           = map DoubleBlocks (seq 0 (length (double_blocks self)))
        /\ double_chain (double_blocks self) 0 img1 txt1 vec pe = Some (img2, txt2)
        /\ cat1 txt2 img2 = Ok x0
        /\ map callee (single_calls (single_blocks self) 0 x0 vec pe)
           = map SingleBlocks (seq 0 (length (single_blocks self)))
        /\ single_chain (single_blocks self) 0 x0 vec pe = Some x1
        /\ shape_at txt2 1 = Ok n
        /\ slice1_from n x1 = Ok x2
        /\ forward_final FinalLayer (final_layer self) x2 vec = Some out).
Proof.
  cbv zeta.
  pose proof (trace_shape_sorted _ _ _ _ _ _ _ _
                (forward_orig_trace self img img_ids txt txt_ids timesteps y guidance))
    as Hsorted.
  split; [exact Hsorted|]. split.
  - intros l1 l2 l3 i j a b E. rewrite E in Hsorted.
    rewrite map_app in Hsorted. cbn [map] in Hsorted.
    rewrite map_app in Hsorted. cbn [map] in Hsorted.
    apply sorted_middle in Hsorted. cbn in Hsorted. lia.
  - intros out Hout.
    destruct (forward_orig_ok _ _ _ _ _ _ _ _ _ Hout)
      as (_ & _ & img1 & txt1 & ids & pe & vec & img2 & txt2 & x0 & x1 & n & x2 & pre
          & H1 & H2 & H3 & H4 & H5 & H6 & H7 & H8 & H9 & H10 & H11 & Htr & Hpre).
    exists (pre ++ [Call PeEmbedder [ids]]), img1, txt1, vec, pe, img2, txt2, x0, x1, n, x2.
    repeat match goal with |- _ /\ _ => split end; try assumption.
    + rewrite Htr, <- app_assoc. reflexivity.
    + apply Forall_app. split.
      * eapply Forall_impl; [|exact Hpre]. intros e [He _]. exact He.
      * repeat constructor.
    + eapply double_calls_callee. exact H6.
    + eapply single_calls_callee. exact H8.
Qed.

Lemma conditioning_inv self dt (timesteps y : Tensor) guidance vec :
  conditioning self dt timesteps y guidance = Some vec ->
  exists te t tg yv,
    timestep_embedding timesteps 256 = Some te
    /\ forward1 TimeIn (time_in self) (to_dtype dt te) = Some t
    /\ (if FluxParams.guidance_embed (params self)
        then exists g ge gv,
               guidance = Some g
               /\ timestep_embedding g 256 = Some ge
               /\ forward1 GuidanceIn (guidance_in self) (to_dtype dt ge) = Some gv
               /\ tensor_add t gv = Ok tg
        else tg = t)
    /\ forward1 VectorIn (vector_in self) y = Some yv
    /\ tensor_add tg yv = Ok vec.
Proof.
  unfold conditioning. intros H.
  destruct (timestep_embedding timesteps 256) as [te|] eqn:E1; [|discriminate].
  cbn [obind] in H.
  destruct (forward1 TimeIn (time_in self) (to_dtype dt te)) as [t|] eqn:E2;
    [|discriminate].
  cbn [obind] in H.
  exists te, t.
  destruct (FluxParams.guidance_embed (params self)).
  - destruct guidance as [g|]; [|discriminate]. cbn [obind] in H.
    destruct (timestep_embedding g 256) as [gemb|] eqn:E3; [|discriminate].
    cbn [obind] in H.
    destruct (forward1 GuidanceIn (guidance_in self) (to_dtype dt gemb)) as [gv|] eqn:E4;
      [|discriminate].
    cbn [obind] in H.
    destruct (tensor_add t gv) as [tg|] eqn:E5; [|discriminate]. cbn [value obind] in H.
    destruct (forward1 VectorIn (vector_in self) y) as [yv|] eqn:E6; [|discriminate].
    cbn [obind] in H.
    destruct (tensor_add tg yv) as [v|] eqn:E7; [|discriminate]. cbn [value] in H.
    injection H as <-.
    exists tg, yv.
    split; [reflexivity|]. split; [assumption|].
    split; [exists g, gemb, gv; auto|]. split; [reflexivity|assumption].
  - cbn [obind] in H.
    destruct (forward1 VectorIn (vector_in self) y) as [yv|] eqn:E6; [|discriminate].
    cbn [obind] in H.
    destruct (tensor_add t yv) as [v|] eqn:E7; [|discriminate]. cbn [value] in H.
    injection H as <-.
    exists t, yv.
    split; [reflexivity|]. split; [assumption|].
    split; [reflexivity|]. split; [reflexivity|assumption].
Qed.

Lemma block_calls_vec self (img img_ids txt_ids timesteps y : Tensor) guidance tr e :
  trace_shape self img img_ids txt_ids timesteps y guidance tr ->
  In e tr -> is_block e ->
  exists img1 vec,
    forward1 ImgIn (img_in self) img = Some img1
    /\ conditioning self (dtype img1) timesteps y guidance = Some vec
    /\ vec_arg e = Some vec.
Proof.
  intros (pre & post & -> & Hpre & Hpost) He Hb. unfold is_block in Hb.
  apply in_app_or in He. destruct He as [He|He].
  - rewrite Forall_forall in Hpre. destruct (Hpre e He) as [H0 _]. lia.
  - destruct Hpost as [->|(img1 & vec & ids & dbl & sgl & fin & H1 & H2 & _ & -> & Hd & Hs & Hf)];
      [destruct He|].
    exists img1, vec. split; [exact H1|]. split; [exact H2|].
    unfold stage_calls in Hd, Hs, Hf. rewrite Forall_forall in Hd, Hs, Hf.
    destruct He as [<-|He]; [cbn in Hb; lia|].
    apply in_app_or in He. destruct He as [He|He]; [apply (Hd e He)|].
    apply in_app_or in He. destruct He as [He|He]; [apply (Hs e He)|apply (Hf e He)].
Qed.

(** C4. In every run of [forward_orig], each double-stream block, each
    single-stream block and the final layer receives the same conditioning
    vector: time_in of the timestep embedding, plus guidance_in of the
    guidance embedding exactly when [guidance_embed] is set, plus
    vector_in(y) (the embeddings cast to the dtype of the projected image
    tokens, the sums taken in this order).  The image and text tokens enter
    it in no other way. *)
Theorem conditioning_vector (self : Flux Dtype)
    (img img_ids txt txt_ids timesteps y : Tensor) (guidance : option Tensor)
    (e : Event A Dtype) :
  In e (trace (forward_orig self img img_ids txt txt_ids timesteps y guidance)) ->
  is_block e ->
  exists img1 vec te t tg yv,
    vec_arg e = Some vec
    /\ forward1 ImgIn (img_in self) img = Some img1
    /\ timestep_embedding timesteps 256 = Some te
    /\ forward1 TimeIn (time_in self) (to_dtype (dtype img1) te) = Some t
    /\ (if FluxParams.guidance_embed (params self)
        then exists g ge gv,
               guidance = Some g
               /\ timestep_embedding g 256 = Some ge
               /\ forward1 GuidanceIn (guidance_in self) (to_dtype (dtype img1) ge) = Some gv
               /\ tensor_add t gv = Ok tg
        else tg = t)
    /\ forward1 VectorIn (vector_in self) y = Some yv
    /\ tensor_add tg yv = Ok vec.
Proof.
  intros He Hb.
  destruct (block_calls_vec _ _ _ _ _ _ _ _ _
              (forward_orig_trace self img img_ids txt txt_ids timesteps y guidance) He Hb)
    as (img1 & vec & H1 & H2 & H3).
  destruct (conditioning_inv _ _ _ _ _ _ H2) as (te & t & tg & yv & Ha & Hb' & Hc & Hd & Hf).
  exists img1, vec, te, t, tg, yv.
  repeat match goal with |- _ /\ _ => split end; assumption.
Qed.

(** C3 (amended). For a guidance-distilled model and inputs of rank 3 on
    which the image projection, the timestep embedding and time_in (all
    called before the check) raise nothing: [forward_orig] raises a
    ValueError if and only if [guidance] is None; and when [guidance] is
    given, the vector every block and the final layer receive is
    (time + guidance_in(timestep_embedding(guidance, 256))) + vector.
    For a model that is not guidance-distilled, [guidance] has no effect on
    the run. *)
Theorem guidance_check (self : Flux Dtype) (img img_ids txt txt_ids timesteps y : Tensor) :
  (FluxParams.guidance_embed (params self) = true ->
   forall guidance img1 te t,
     ndim img = 3 -> ndim txt = 3 ->
     forward1 ImgIn (img_in self) img = Some img1 ->
     timestep_embedding timesteps 256 = Some te ->
     forward1 TimeIn (time_in self) (to_dtype (dtype img1) te) = Some t ->
     let run := forward_orig self img img_ids txt txt_ids timesteps y guidance in
     ((exists msg, outcome run = Raise (ValueError msg)) <-> guidance = None)
     /\ (forall g e,
           guidance = Some g -> In e (trace run) -> is_block e ->
           exists gemb gv tg yv vec,
             timestep_embedding g 256 = Some gemb
             /\ forward1 GuidanceIn (guidance_in self) (to_dtype (dtype img1) gemb) = Some gv
             /\ tensor_add t gv = Ok tg
             /\ forward1 VectorIn (vector_in self) y = Some yv
             /\ tensor_add tg yv = Ok vec
             /\ vec_arg e = Some vec))
  /\ (FluxParams.guidance_embed (params self) = false ->
      forall g1 g2,
        forward_orig self img img_ids txt txt_ids timesteps y g1
        = forward_orig self img img_ids txt txt_ids timesteps y g2).
Proof.
  split.
  - intros Hg guidance img1 te t Hi Ht E1 E2 E3. cbv zeta. split; [split|].
    + intros [msg H]. apply forward_orig_raises in H.
      destruct H as [(_ & [H|H] & _)|[(_ & _ & _ & _ & H)|(_ & _ & H)]];
        try contradiction; [exact H|].
      exfalso. apply (H msg). reflexivity.
    + intros ->. eexists. unfold forward_orig.
      apply Nat.eqb_eq in Hi, Ht. rewrite Hi, Ht. cbn [negb orb].
      unfold apply1. rewrite E1, bind_call_some, outcome_pair.
      rewrite E2, bind_helper_some. rewrite E3, bind_call_some, outcome_pair.
      rewrite Hg, bind_raise, outcome_pair. reflexivity.
    + intros g e -> He Hb.
      destruct (block_calls_vec _ _ _ _ _ _ _ _ _
                  (forward_orig_trace self img img_ids txt txt_ids timesteps y (Some g))
                  He Hb) as (img1' & vec & H1 & H2 & H3).
      rewrite E1 in H1. injection H1 as <-.
      destruct (conditioning_inv _ _ _ _ _ _ H2)
        as (te' & t' & tg & yv & Ha & Hb' & Hc & Hd & Hf).
      rewrite E2 in Ha. injection Ha as <-.
      rewrite E3 in Hb'. injection Hb' as <-.
      rewrite Hg in Hc. destruct Hc as (g' & gemb & gv & Hg' & Hc1 & Hc2 & Hc3).
      injection Hg' as <-.
      exists gemb, gv, tg, yv, vec.
      repeat match goal with |- _ /\ _ => split end; assumption.
  - intros Hg g1 g2. unfold forward_orig. rewrite Hg. reflexivity.
Qed.

End Claims.

Lemma double_stream_then_single_stream_witness :
  exists out,
    outcome Toy.run_orig = Ok out
    /\ exists pre img1 txt1 vec pe img2 txt2 x0 x1 n x2,
        trace Toy.run_orig
        = pre
          ++ double_calls (double_blocks (Toy.model true)) 0 img1 txt1 vec pe
          ++ single_calls (single_blocks (Toy.model true)) 0 x0 vec pe
          ++ [Call FinalLayer [x2; vec]]
        /\ Forall (fun e => phase e = 0) pre
        /\ map callee (double_calls (double_blocks (Toy.model true)) 0 img1 txt1 vec pe)
           = map DoubleBlocks (seq 0 (length (double_blocks (Toy.model true))))
        /\ double_chain (double_blocks (Toy.model true)) 0 img1 txt1 vec pe
           = Some (img2, txt2)
        /\ cat1 txt2 img2 = Ok x0
        /\ map callee (single_calls (single_blocks (Toy.model true)) 0 x0 vec pe)
           = map SingleBlocks (seq 0 (length (single_blocks (Toy.model true))))
        /\ single_chain (single_blocks (Toy.model true)) 0 x0 vec pe = Some x1
        /\ shape_at txt2 1 = Ok n
        /\ slice1_from n x1 = Ok x2
        /\ forward_final FinalLayer (final_layer (Toy.model true)) x2 vec = Some out.
Proof.
  eexists. split; [vm_compute; reflexivity|].
  apply (proj2 (proj2 (double_stream_then_single_stream (Toy.model true) Toy.img0
                         Toy.img_ids0 Toy.txt0 Toy.txt_ids0 Toy.timestep0 Toy.y0
                         (Some Toy.guidance0)))).
  vm_compute. reflexivity.
Defined.

Lemma conditioning_vector_witness :
  exists img1 vec te t tg yv,
    vec_arg Toy.block_call = Some vec
    /\ forward1 ImgIn (img_in (Toy.model true)) Toy.img0 = Some img1
    /\ timestep_embedding Toy.timestep0 256 = Some te
    /\ forward1 TimeIn (time_in (Toy.model true)) (to_dtype (dtype img1) te) = Some t
    /\ (if FluxParams.guidance_embed (params (Toy.model true))
        then exists g gemb gv,
               Some Toy.guidance0 = Some g
               /\ timestep_embedding g 256 = Some gemb
               /\ forward1 GuidanceIn (guidance_in (Toy.model true))
                    (to_dtype (dtype img1) gemb) = Some gv
               /\ tensor_add t gv = Ok tg
        else tg = t)
    /\ forward1 VectorIn (vector_in (Toy.model true)) Toy.y0 = Some yv
    /\ tensor_add tg yv = Ok vec.
Proof.
  apply (conditioning_vector (Toy.model true) Toy.img0 Toy.img_ids0 Toy.txt0 Toy.txt_ids0
           Toy.timestep0 Toy.y0 (Some Toy.guidance0) Toy.block_call).
  - vm_compute. do 6 right. left. reflexivity.
  - vm_compute. constructor.
Defined.

Lemma guidance_check_witness :
  ~ (exists msg,
       outcome (forward_orig (Toy.model true) Toy.img0 Toy.img_ids0 Toy.txt0 Toy.txt_ids0
                  Toy.timestep0 Toy.y0 (Some Toy.guidance0))
       = Raise (ValueError msg)).
Proof.
  intros H.
  eapply (proj1 (guidance_check (Toy.model true) Toy.img0 Toy.img_ids0 Toy.txt0
                   Toy.txt_ids0 Toy.timestep0 Toy.y0) eq_refl (Some Toy.guidance0))
    in H; [discriminate H|reflexivity|reflexivity|..]; vm_compute; reflexivity.
Defined.

(** Image tokens of rank 3 that the image projection does not take: with
    [guidance] None the run ends in the exception of the layer, which is
    called before the guidance check, not in a ValueError. *)
Lemma guidance_check_after_layers :
  ndim Toy.img_narrow = 3 /\ ndim Toy.txt0 = 3
  /\ FluxParams.guidance_embed (params (Toy.model true)) = true
  /\ outcome (forward_orig (Toy.model true) Toy.img_narrow Toy.img_ids0 Toy.txt0
                Toy.txt_ids0 Toy.timestep0 Toy.y0 None)
     = Raise (LayerError ImgIn).
Proof. repeat split. Qed.

(** ** Positional ids *)

Lemma map_seq_shift {X} (f : nat -> X) (b m : nat) :
  map f (seq b m) = map (fun j => f (b + j)) (seq 0 m).
Proof.
  rewrite <- (Nat.add_0_r b) at 1. generalize 0 as c.
  induction m as [|m IH]; intros c; [reflexivity|].
  cbn [seq map]. f_equal.
  rewrite <- IH. f_equal. f_equal. lia.
Qed.

Lemma map_seq_mul {X} (f : nat -> X) (n m : nat) :
  map f (seq 0 (n * m))
  = flat_map (fun i => map (fun j => f (i * m + j)) (seq 0 m)) (seq 0 n).
Proof.
  induction n as [|n IH].
  - reflexivity.
  - replace (S n * m) with (n * m + m) by lia.
    rewrite seq_app, map_app, IH, seq_S, flat_map_app. cbn [flat_map].
    rewrite app_nil_r. f_equal.
    cbn [Nat.add]. apply map_seq_shift.
Qed.

Lemma nth_repeat_default {X} (a : X) (n k : nat) : nth k (repeat a n) a = a.
Proof.
  revert k. induction n as [|n IH]; intros [|k]; cbn; auto.
Qed.

Lemma skipn_repeat {X} (a : X) (n k : nat) : skipn k (repeat a n) = repeat a (n - k).
Proof.
  revert k. induction n as [|n IH]; intros [|k]; cbn; auto.
Qed.

Lemma firstn_repeat {X} (a : X) (n k : nat) : firstn k (repeat a n) = repeat a (Nat.min k n).
Proof.
  revert k. induction n as [|n IH]; intros [|k]; cbn; auto. f_equal. apply IH.
Qed.

Lemma rows_concat_repeat {X} (d : list X) (sz n bs i : nat) :
  length d = n * sz -> i < bs ->
  firstn ((i * n + n - i * n) * sz) (skipn (i * n * sz) (concat (repeat d bs))) = d.
Proof.
  intros Hd Hi. replace (i * n + n - i * n) with n by lia.
  revert i Hi. induction bs as [|bs IH]; intros i Hi; [lia|].
  cbn [repeat concat]. destruct i as [|i].
  - cbn [Nat.mul skipn]. rewrite firstn_app, <- Hd, firstn_all, Nat.sub_diag.
    cbn [firstn]. apply app_nil_r.
  - replace (S i * n * sz) with (length d + i * n * sz) by lia.
    rewrite skipn_app, skipn_all2 by lia. cbn [app].
    replace (length d + i * n * sz - length d) with (i * n * sz) by lia.
    apply IH. lia.
Qed.

Lemma flat_map_ext_seq {X} (f g : nat -> list X) (b n : nat) :
  (forall i, b <= i < b + n -> f i = g i) ->
  flat_map f (seq b n) = flat_map g (seq b n).
Proof.
  intros H. rewrite !flat_map_concat_map. f_equal.
  apply map_ext_in. intros i Hi. apply in_seq in Hi. apply H. exact Hi.
Qed.

(** Lists cut in chunks of equal length. *)

Lemma nth_flat_map_chunks {X} (f : nat -> list X) (c : nat) (d : X) :
  forall i j k b,
    (forall m, k <= m < k + b -> length (f m) = c) ->
    i < b -> j < c ->
    nth (i * c + j) (flat_map f (seq k b)) d = nth j (f (k + i)) d.
Proof.
  induction i as [|i IH]; intros j k b Hf Hi Hj.
  - destruct b as [|b]; [lia|]. cbn [seq flat_map Nat.mul Nat.add].
    rewrite app_nth1 by (rewrite Hf; lia). rewrite Nat.add_0_r. reflexivity.
  - destruct b as [|b]; [lia|]. cbn [seq flat_map].
    rewrite app_nth2 by (rewrite Hf; lia). rewrite Hf by lia.
    replace (S i * c + j - c) with (i * c + j) by lia.
    rewrite IH; [f_equal; f_equal; lia| |lia|lia].
    intros m Hm. apply Hf. lia.
Qed.

Lemma skipn_flat_map_chunks {X} (f : nat -> list X) (c : nat) :
  forall i k b,
    (forall m, k <= m < k + b -> length (f m) = c) ->
    i <= b ->
    skipn (i * c) (flat_map f (seq k b)) = flat_map f (seq (k + i) (b - i)).
Proof.
  induction i as [|i IH]; intros k b Hf Hi.
  - cbn [Nat.mul skipn]. rewrite Nat.add_0_r, Nat.sub_0_r. reflexivity.
  - destruct b as [|b]; [lia|]. cbn [seq flat_map].
    replace (S i * c) with (length (f k) + i * c) by (rewrite Hf; lia).
    rewrite skipn_app, skipn_all2 by lia. cbn [app].
    replace (length (f k) + i * c - length (f k)) with (i * c) by lia.
    rewrite IH; [f_equal; f_equal; lia| |lia].
    intros m Hm. apply Hf. lia.
Qed.

Lemma flat_map_chunks {X} (c b : nat) : forall (d : list X),
  length d = b * c ->
  flat_map (fun i => firstn c (skipn (i * c) d)) (seq 0 b) = d.
Proof.
  induction b as [|b IH]; intros d Hd.
  - destruct d; [reflexivity|discriminate Hd].
  - rewrite seq_S, flat_map_app. cbn [flat_map Nat.add]. rewrite app_nil_r.
    transitivity (firstn (b * c) d ++ skipn (b * c) d); [|apply firstn_skipn].
    f_equal.
    + rewrite <- (IH (firstn (b * c) d)) by (rewrite length_firstn; lia).
      apply flat_map_ext_seq. intros i Hi.
      rewrite skipn_firstn_comm, firstn_firstn. f_equal. nia.
    + apply firstn_all2. rewrite length_skipn. lia.
Qed.

Section Ids.
Context {A Dtype : Type} `{Sc : Scalar A Dtype}.
Local Abbreviation Tensor := (Tensor A Dtype).

Lemma rows_length (sz lo n : nat) (d : list A) :
  (lo + n) * sz <= length d -> length (rows sz lo (lo + n) d) = n * sz.
Proof.
  intros H. unfold rows. rewrite length_firstn, length_skipn.
  replace (lo + n - lo) with n by lia. nia.
Qed.


Lemma bidx_same (s idx : list nat) :
  Forall2 lt idx s -> bidx s idx = idx.
Proof.
  intros H. unfold bidx.
  assert (Hl : length idx = length s) by (eapply Forall2_length; exact H).
  rewrite Hl, Nat.sub_diag. cbn [skipn].
  induction H as [|i d idx s Hid H IH]; [reflexivity|].
  cbn [combine map fst snd]. f_equal.
  - destruct (Nat.eqb_spec d 1); [lia|reflexivity].
  - apply IH. eapply Forall2_length; exact H.
Qed.

Lemma expand_data_same (s : list nat) (d : list A) :
  length d = numel s -> expand_data s s d = d.
Proof.
  intros Hd. unfold expand_data.
  apply nth_ext with (d := zero) (d' := zero).
  - rewrite length_map, length_seq. symmetry. exact Hd.
  - intros o Ho. rewrite length_map, length_seq in Ho.
    rewrite nth_map_seq by exact Ho.
    rewrite bidx_same by (apply unravel_bounds; exact Ho).
    rewrite ravel_unravel by exact Ho. reflexivity.
Qed.

Lemma broadcast_same (s : list nat) : broadcast_shapes s s = Some s.
Proof.
  unfold broadcast_shapes.
  assert (H : forall r, broadcast_rev r r = Some r).
  { induction r as [|a r IH]; [reflexivity|]. cbn. rewrite IH, Nat.eqb_refl. reflexivity. }
  rewrite H. cbn. rewrite rev_involutive. reflexivity.
Qed.

Lemma broadcast_column (h w : nat) : broadcast_shapes [h; w] [h; 1] = Some [h; w].
Proof.
  unfold broadcast_shapes. cbn. rewrite Nat.eqb_refl.
  destruct (Nat.eqb_spec w 1) as [->|]; reflexivity.
Qed.

Lemma broadcast_row (h w : nat) : broadcast_shapes [h; w] [1; w] = Some [h; w].
Proof.
  unfold broadcast_shapes. cbn. rewrite Nat.eqb_refl.
  destruct (Nat.eqb_spec h 1) as [->|]; reflexivity.
Qed.

(** A vector of [h] values along the rows, read at every (i, j). *)
Lemma expand_column (h w : nat) (d : list A) :
  expand_data [h; 1] [h; w] d = map (fun o => nth (o / w) d zero) (seq 0 (numel [h; w])).
Proof.
  unfold expand_data. apply map_ext_in. intros o Ho. apply in_seq in Ho.
  cbn [numel fold_right] in Ho. f_equal.
  cbn -[Nat.div Nat.modulo]. rewrite !Nat.mul_1_r, !Nat.add_0_r.
  destruct (Nat.eqb_spec h 1) as [->|]; [|reflexivity].
  symmetry. apply Nat.div_small. lia.
Qed.

(** A vector of [w] values along the columns, read at every (i, j). *)
Lemma expand_row (h w : nat) (d : list A) :
  expand_data [1; w] [h; w] d = map (fun o => nth (o mod w) d zero) (seq 0 (numel [h; w])).
Proof.
  unfold expand_data. apply map_ext_in. intros o Ho. apply in_seq in Ho.
  cbn [numel fold_right] in Ho. f_equal.
  cbn -[Nat.div Nat.modulo]. rewrite !Nat.mul_1_r, !Nat.add_0_r, Nat.div_1_r.
  destruct (Nat.eqb_spec w 1) as [->|]; [|reflexivity].
  rewrite Nat.mod_1_r. reflexivity.
Qed.


Lemma combine_map_seq {X Y} (f : nat -> X) (g : nat -> Y) (n : nat) :
  combine (map f (seq 0 n)) (map g (seq 0 n)) = map (fun o => (f o, g o)) (seq 0 n).
Proof.
  generalize 0 as b. induction n as [|n IH]; intros b; [reflexivity|].
  cbn. f_equal. apply IH.
Qed.

Lemma expand_data_length (s target : list nat) (d : list A) :
  length (expand_data s target d) = numel target.
Proof. unfold expand_data. rewrite length_map, length_seq. reflexivity. Qed.

(** [img_ids[..., k] = img_ids[..., k] + v] on ids of shape (h, w, 3),
    for a value [v] that broadcasts to (h, w) and reads [g o] at the
    flat position [o]. *)
Lemma add_to_channel_spec (k h w : nat) (dt : Dtype) (v t : Tensor) (g : nat -> A) :
  k < 3 ->
  shape t = [h; w; 3] -> dtype t = dt -> dtype v = dt ->
  broadcast_shapes [h; w] (shape v) = Some [h; w] ->
  expand_data (shape v) [h; w] (data v) = map g (seq 0 (numel [h; w])) ->
  add_to_channel k v t
  = Ok {| dtype := dt;
          shape := [h; w; 3];
          data := map (fun p => if p mod 3 =? k
                                then add (nth p (data t) zero) (g (p / 3))
                                else nth p (data t) zero)
                      (seq 0 (numel [h; w; 3])) |}.
Proof.
  intros Hk Hs Hdt Hdv Hb Hg.
  unfold add_to_channel, select_last. rewrite Hs. cbn [rev app].
  apply Nat.ltb_lt in Hk. rewrite Hk. cbn [rbind].
  unfold tensor_add. cbn [shape dtype data]. rewrite Hb. cbn [rbind].
  unfold setitem_last. rewrite Hs. cbn [rev app]. rewrite Hk.
  cbn [shape dtype data]. rewrite broadcast_same.
  replace (shape_eqb [h; w] [h; w]) with true
    by (cbn; rewrite !Nat.eqb_refl; reflexivity).
  rewrite Hdt, Hdv, promote_same. f_equal. f_equal.
  rewrite Hg.
  rewrite (expand_data_same [h; w] (map _ (seq _ _)))
    by (rewrite length_map, length_seq; reflexivity).
  rewrite combine_map_seq, map_map. cbn [fst snd].
  rewrite expand_data_same by (rewrite length_map, length_seq; reflexivity).
  apply map_ext_in. intros p Hp. apply in_seq in Hp.
  cbn [numel fold_right] in Hp.
  destruct (Nat.eqb_spec (p mod 3) k) as [E|E]; [|reflexivity].
  rewrite convert_same.
  assert (Hq : p / 3 < numel [h; w]).
  { cbn [numel fold_right]. apply Nat.Div0.div_lt_upper_bound. lia. }
  rewrite nth_map_seq by exact Hq.
  replace (p / 3 * 3 + k) with p; [reflexivity|].
  pose proof (Nat.div_mod_eq p 3). lia.
Qed.

Lemma zeros_nth (dt : Dtype) (s : list nat) (p : nat) : nth p (data (zeros dt s)) zero = zero.
Proof. cbn [zeros data]. apply nth_repeat_default. Qed.

(** The image ids before replication: (0, i, j) at patch (i, j). *)
Lemma image_ids (dt : Dtype) (h w : nat) :
  rbind (add_to_channel 1 (view [h; 1] (linspace dt h)) (zeros dt [h; w; 3]))
        (add_to_channel 2 (view [1; w] (linspace dt w)))
  = Ok {| dtype := dt;
          shape := [h; w; 3];
          data := flat_map (fun i =>
                    flat_map (fun j => [zero; lin dt h i; lin dt w j]) (seq 0 w))
                    (seq 0 h) |}.
Proof.
  rewrite (add_to_channel_spec 1 h w dt _ _ (fun o => lin dt h (o / w)));
    try reflexivity; try lia; [|apply broadcast_column|].
  2:{ cbn [view shape data linspace]. rewrite expand_column.
      apply map_ext_in. intros o Ho. apply in_seq in Ho. cbn [numel fold_right] in Ho.
      apply nth_map_seq. apply Nat.Div0.div_lt_upper_bound. lia. }
  cbn [rbind].
  rewrite (add_to_channel_spec 2 h w dt _ _ (fun o => lin dt w (o mod w)));
    try reflexivity; try lia; [|apply broadcast_row|].
  2:{ cbn [view shape data linspace]. rewrite expand_row.
      apply map_ext_in. intros o Ho. apply in_seq in Ho. cbn [numel fold_right] in Ho.
      apply nth_map_seq. apply Nat.mod_upper_bound. lia. }
  f_equal. f_equal. cbn [data].
  replace (numel [h; w; 3]) with (h * (w * 3)) by (cbn [numel fold_right]; lia).
  rewrite map_seq_mul. apply flat_map_ext_seq. intros i Hi.
  rewrite map_seq_mul. apply flat_map_ext_seq. intros j Hj.
  assert (Hp : forall r, r < 3 -> i * (w * 3) + (j * 3 + r) < h * (w * 3)) by nia.
  assert (Hm : forall r, r < 3 -> (i * (w * 3) + (j * 3 + r)) mod 3 = r).
  { intros r Hr. replace (i * (w * 3) + (j * 3 + r)) with (r + (i * w + j) * 3) by lia.
    rewrite Nat.Div0.mod_add. apply Nat.mod_small. exact Hr. }
  assert (Hd : forall r, r < 3 -> (i * (w * 3) + (j * 3 + r)) / 3 = i * w + j).
  { intros r Hr. replace (i * (w * 3) + (j * 3 + r)) with (r + (i * w + j) * 3) by lia.
    rewrite Nat.div_add by lia. rewrite Nat.div_small by exact Hr. lia. }
  assert (Hi' : (i * w + j) / w = i).
  { rewrite Nat.add_comm, Nat.div_add by lia. rewrite Nat.div_small by lia. lia. }
  assert (Hj' : (i * w + j) mod w = j).
  { rewrite Nat.add_comm, Nat.Div0.mod_add. apply Nat.mod_small. lia. }
  cbn [seq map].
  rewrite !Hm, !Hd by lia. cbn [Nat.eqb].
  rewrite !nth_map_seq by (apply Hp; lia).
  rewrite !Hm, !Hd by lia. cbn [Nat.eqb].
  rewrite !zeros_nth, Hi', Hj', !add_zero_lin. reflexivity.
Qed.


Lemma image_ids_length (dt : Dtype) (h w : nat) :
  length (flat_map (fun i => flat_map (fun j => [zero; lin dt h i; lin dt w j]) (seq 0 w))
            (seq 0 h)) = h * w * 3.
Proof.
  rewrite flat_map_constant_length with (c := w * 3).
  - rewrite length_seq. lia.
  - intros i _. rewrite flat_map_constant_length with (c := 3).
    + rewrite length_seq. reflexivity.
    + reflexivity.
Qed.

(** The ids handed to [forward_orig]: concatenating the text ids with the
    replicated image ids gives the positional ids. *)
Lemma forward_ids (dt : Dtype) (bs l h w : nat) :
  exists img_ids,
    rbind (rbind (add_to_channel 1 (view [h; 1] (linspace dt h)) (zeros dt [h; w; 3]))
                 (add_to_channel 2 (view [1; w] (linspace dt w))))
          (repeat_batch bs) = Ok img_ids
    /\ cat1 (zeros dt [bs; l; 3]) img_ids = Ok (positional_ids dt bs l h w).
Proof.
  rewrite image_ids. cbn [rbind]. unfold repeat_batch. cbn [shape dtype data].
  eexists. split; [reflexivity|].
  unfold cat1, legacy_empty. cbn [shape zeros shape_eqb]. rewrite !andb_false_r.
  rewrite Nat.eqb_refl. cbn [andb Nat.eqb dtype data zeros]. rewrite promote_same.
  unfold positional_ids. f_equal. f_equal.
  apply flat_map_ext_seq. intros i Hi. f_equal.
  - unfold rows. rewrite skipn_repeat, firstn_repeat. f_equal.
    cbn [numel fold_right]. nia.
  - unfold rows. replace (numel [3]) with 3 by reflexivity.
    apply rows_concat_repeat; [|lia].
    apply image_ids_length.
Qed.

Lemma forward_ids_steps (dt : Dtype) (bs l h w : nat) :
  exists ids1 ids2 img_ids,
    add_to_channel 1 (view [h; 1] (linspace dt h)) (zeros dt [h; w; 3]) = Ok ids1
    /\ add_to_channel 2 (view [1; w] (linspace dt w)) ids1 = Ok ids2
    /\ repeat_batch bs ids2 = Ok img_ids
    /\ cat1 (zeros dt [bs; l; 3]) img_ids = Ok (positional_ids dt bs l h w).
Proof.
  destruct (forward_ids dt bs l h w) as (img_ids & H & Hc).
  destruct (add_to_channel 1 (view [h; 1] (linspace dt h)) (zeros dt [h; w; 3]))
    as [ids1|] eqn:E1; [|discriminate H].
  cbn [rbind] in H.
  destruct (add_to_channel 2 (view [1; w] (linspace dt w)) ids1) as [ids2|] eqn:E2;
    [|discriminate H].
  cbn [rbind] in H.
  exists ids1, ids2, img_ids.
  split; [reflexivity|]. split; [exact E2|]. split; assumption.
Qed.

(** The positional ids read entry by entry. *)
Lemma positional_ids_item (dt : Dtype) (bs l h w b : nat) :
  b < bs ->
  (forall t k, t < l -> k < 3 -> item (positional_ids dt bs l h w) [b; t; k] = zero)
  /\ (forall i j, i < h -> j < w ->
        item (positional_ids dt bs l h w) [b; l + (i * w + j); 0] = zero
        /\ item (positional_ids dt bs l h w) [b; l + (i * w + j); 1] = lin dt h i
        /\ item (positional_ids dt bs l h w) [b; l + (i * w + j); 2] = lin dt w j).
Proof.
  intros Hb.
  set (G := fun i : nat => flat_map (fun j => [zero; lin dt h i; lin dt w j]) (seq 0 w)).
  set (F := fun _ : nat => repeat zero (l * 3) ++ flat_map G (seq 0 h)).
  assert (HG : forall i, length (G i) = w * 3).
  { intros i. unfold G. rewrite flat_map_constant_length with (c := 3).
    - rewrite length_seq. reflexivity.
    - reflexivity. }
  assert (HGG : length (flat_map G (seq 0 h)) = h * w * 3)
    by apply image_ids_length.
  assert (HF : forall m, length (F m) = (l + h * w) * 3).
  { intros m. unfold F. rewrite length_app, repeat_length, HGG. lia. }
  assert (Hitem : forall t k, k < 3 -> t < l + h * w ->
            item (positional_ids dt bs l h w) [b; t; k] = nth (t * 3 + k) (F b) zero).
  { intros t k Hk Ht. unfold item, positional_ids. cbn [shape data ravel numel fold_right].
    fold G. change (fun _ : nat => repeat zero (l * 3) ++ flat_map G (seq 0 h)) with F.
    replace (b * ((l + h * w) * (3 * 1)) + (t * (3 * 1) + (k * 1 + 0)))
      with (b * ((l + h * w) * 3) + (t * 3 + k)) by lia.
    rewrite (nth_flat_map_chunks F ((l + h * w) * 3) zero b (t * 3 + k) 0 bs);
      [reflexivity| |exact Hb|nia].
    intros m _. apply HF. }
  split.
  - intros t k Ht Hk. rewrite Hitem by lia. unfold F.
    rewrite app_nth1 by (rewrite repeat_length; lia).
    apply nth_repeat_default.
  - intros i j Hi Hj.
    assert (Hn : forall k, k < 3 ->
              item (positional_ids dt bs l h w) [b; l + (i * w + j); k]
              = nth k [zero; lin dt h i; lin dt w j] zero).
    { intros k Hk. rewrite Hitem by nia. unfold F.
      rewrite app_nth2 by (rewrite repeat_length; lia).
      rewrite repeat_length.
      replace ((l + (i * w + j)) * 3 + k - l * 3) with (i * (w * 3) + (j * 3 + k)) by lia.
      rewrite (nth_flat_map_chunks G (w * 3) zero i (j * 3 + k) 0 h);
        [|intros m _; apply HG|exact Hi|lia].
      unfold G. cbn [Nat.add].
      rewrite (nth_flat_map_chunks (fun j0 => [zero; lin dt h i; lin dt w j0]) 3 zero
                 j k 0 w); [reflexivity| |exact Hj|exact Hk].
      reflexivity. }
    rewrite !Hn by lia. auto.
Qed.

End Ids.

Section ForwardRuns.
Context {A Dtype : Type} `{Sc : Scalar A Dtype} `{Bk : Backend A Dtype}.
Local Abbreviation Tensor := (Tensor A Dtype).

(** [forward] either stops before any layer is called, or runs
    [forward_orig] on the patches of [x] and the positional ids and
    unpatchifies what it returns. *)
Lemma forward_cases (self : Flux Dtype) (x timestep context y : Tensor)
    (guidance : option Tensor) :
  (trace (forward self x timestep context y guidance) = []
   /\ forall out, outcome (forward self x timestep context y guidance) <> Ok out)
  \/ exists bs c h w img img_ids l,
       shape x = [bs; c; h; w]
       /\ rearrange_patchify 2 2 x = Ok img
       /\ shape_at context 1 = Ok l
       /\ cat1 (zeros (dtype x) [bs; l; 3]) img_ids
          = Ok (positional_ids (dtype x) bs l (h / 2) (w / 2))
       /\ trace (forward self x timestep context y guidance)
          = trace (forward_orig self img img_ids context (zeros (dtype x) [bs; l; 3])
                     timestep y guidance)
       /\ outcome (forward self x timestep context y guidance)
          = rbind (outcome (forward_orig self img img_ids context
                              (zeros (dtype x) [bs; l; 3]) timestep y guidance))
                  (rearrange_unpatchify (h / 2) (w / 2) 2 2).
Proof.
  unfold forward.
  destruct (shape x) as [|bs [|c [|h [|w [|? ?]]]]] eqn:Hs;
    try (left; split; [reflexivity|intros out H; discriminate H]).
  destruct (rearrange_patchify 2 2 x) as [img|] eqn:Ep;
    [rewrite bind_lift_ok|left; split; [reflexivity|intros out H; discriminate H]].
  destruct (shape_at context 1) as [l|] eqn:El.
  - destruct (forward_ids_steps (dtype x) bs l (h / 2) (w / 2))
      as (ids1 & ids2 & img_ids & E1 & E2 & E3 & E4).
    rewrite E1, bind_lift_ok, E2, bind_lift_ok, E3, bind_lift_ok, bind_lift_ok.
    right. exists bs, c, h, w, img, img_ids, l.
    repeat match goal with |- _ /\ _ => split end; try reflexivity; try assumption.
    + rewrite trace_bind.
      destruct (outcome (forward_orig self img img_ids context
                           (zeros (dtype x) [bs; l; 3]) timestep y guidance));
        cbn [lift trace snd]; apply app_nil_r.
    + rewrite outcome_bind.
      destruct (outcome (forward_orig self img img_ids context
                           (zeros (dtype x) [bs; l; 3]) timestep y guidance));
        reflexivity.
  - destruct (forward_ids_steps (dtype x) bs 0 (h / 2) (w / 2))
      as (ids1 & ids2 & img_ids & E1 & E2 & E3 & _).
    rewrite E1, bind_lift_ok, E2, bind_lift_ok, E3, bind_lift_ok, bind_lift_raise.
    left. split; [reflexivity|intros out H; discriminate H].
Qed.

Lemma pe_calls self (img img_ids txt_ids timesteps y : Tensor) guidance tr e :
  trace_shape self img img_ids txt_ids timesteps y guidance tr ->
  In e tr -> callee e = PeEmbedder ->
  exists ids, cat1 txt_ids img_ids = Ok ids /\ arguments e = [ids].
Proof.
  intros (pre & post & -> & Hpre & Hpost) He Hc.
  apply in_app_or in He. destruct He as [He|He].
  - rewrite Forall_forall in Hpre. destruct (Hpre e He) as [_ H]. contradiction.
  - destruct Hpost as [->|(img1 & vec & ids & dbl & sgl & fin & _ & _ & Hi & -> & Hd & Hs & Hf)];
      [destruct He|].
    destruct He as [<-|He]; [exists ids; auto|].
    exfalso.
    assert (Hp : 1 <= phase e).
    { unfold stage_calls in Hd, Hs, Hf. rewrite Forall_forall in Hd, Hs, Hf.
      apply in_app_or in He. destruct He as [He|He]; [destruct (Hd e He) as [-> _]; lia|].
      apply in_app_or in He.
      destruct He as [He|He]; [destruct (Hs e He) as [-> _]|destruct (Hf e He) as [-> _]];
        lia. }
    unfold phase in Hp. rewrite Hc in Hp. lia.
Qed.

(** Where the dtype holds the integers below [n], the points of the
    linspace are these integers. *)
Lemma lin_number (dt : Dtype) (n i : nat) :
  holds_below dt n -> i < n -> is_number dt (Z.of_nat i) (lin dt n i).
Proof.
  intros H Hi. apply lin_exact; [|exact Hi].
  intros k Hk E. destruct (H k Hk) as [a Ha]. unfold is_number in Ha. congruence.
Qed.

(** C5 (amended). In every run of [forward], the positional embedder is
    called on the positional ids only: per sample of the batch, one zero
    vector (0, 0, 0) per text token, followed, for every patch row
    i < h // 2 and patch column j < w // 2, by the vector of 0, point i of
    [torch.linspace(0, h // 2 - 1, steps=h // 2)] and point j of
    [torch.linspace(0, w // 2 - 1, steps=w // 2)] in the dtype of [x].
    The vector is (0, i, j) when that dtype holds every integer below
    h // 2 and below w // 2 exactly.  In a run that returns, the positional
    embedder is called. *)
Theorem positional_encoding_inputs (self : Flux Dtype) (x timestep context y : Tensor)
    (guidance : option Tensor) :
  let run := forward self x timestep context y guidance in
  (forall e, In e (trace run) -> callee e = PeEmbedder -> positional_call x context e)
  /\ (forall out, outcome run = Ok out ->
      exists e, In e (trace run) /\ callee e = PeEmbedder).
Proof.
  cbv zeta.
  destruct (forward_cases self x timestep context y guidance)
    as [[Ht Ho]|(bs & c & h & w & img & img_ids & l & Hs & Hp & Hl & Hc & Ht & Ho)].
  - split.
    + intros e He. rewrite Ht in He. destruct He.
    + intros out H. destruct (Ho out H).
  - split.
    + intros e He Hcal. rewrite Ht in He.
      destruct (pe_calls _ _ _ _ _ _ _ _ _
                  (forward_orig_trace self img img_ids context _ timestep y guidance)
                  He Hcal) as (ids & Hids & Harg).
      rewrite Hc in Hids. injection Hids as <-.
      exists bs, c, h, w, l, (positional_ids (dtype x) bs l (h / 2) (w / 2)).
      split; [exact Hs|]. split; [exact Hl|]. split; [exact Harg|].
      split; [reflexivity|]. split; [apply number_zero|]. split.
      * intros b t k Hb. apply (positional_ids_item (dtype x) bs l (h / 2) (w / 2) b Hb).
      * intros b i j Hb Hi Hj. cbv zeta.
        destruct (positional_ids_item (dtype x) bs l (h / 2) (w / 2) b Hb) as [_ H].
        destruct (H i j Hi Hj) as (H0 & H1 & H2).
        split; [exact H0|]. split; [exact H1|]. split; [exact H2|]. split.
        -- intros E. rewrite H1. apply lin_number; assumption.
        -- intros E. rewrite H2. apply lin_number; assumption.
    + intros out H. rewrite Ho in H.
      destruct (outcome (forward_orig self img img_ids context
                           (zeros (dtype x) [bs; l; 3]) timestep y guidance))
        as [out0|] eqn:E0; [|discriminate H].
      destruct (forward_orig_ok _ _ _ _ _ _ _ _ _ E0)
        as (_ & _ & img1 & txt1 & ids & pe & vec & img2 & txt2 & x0 & x1 & n & x2 & pre
            & _ & _ & _ & _ & _ & _ & _ & _ & _ & _ & _ & Htr & _).
      exists (Call PeEmbedder [ids]). split; [|reflexivity].
      rewrite Ht, Htr. apply in_or_app. right. left. reflexivity.
Qed.

End ForwardRuns.

Lemma positional_encoding_inputs_witness :
  positional_call Toy.x0 Toy.context0 Toy.pe_call.
Proof.
  apply (proj1 (positional_encoding_inputs (Toy.model true) Toy.x0 Toy.timestep0
                  Toy.context0 Toy.y0 (Some Toy.guidance0)) Toy.pe_call).
  - vm_compute. do 5 right. left. reflexivity.
  - reflexivity.
Defined.

(** A bfloat16 latent of shape (1, 1, 2, 516) has 258 patch columns, and
    bfloat16 holds no 257: in the ids the positional embedder is called on,
    the last component of the id of the patch in row 0 and column 257 is
    not the integer 257. *)
Lemma positional_ids_bfloat16 :
  shape Bfloat.x_long = [1; 1; 2; 516]
  /\ shape_at Bfloat.context1 1 = Ok 1
  /\ In Bfloat.pe_call_long (trace Bfloat.run_long)
  /\ callee Bfloat.pe_call_long = PeEmbedder
  /\ (forall a, ~ is_number (dtype Bfloat.x_long) 257 a)
  /\ exists ids,
       arguments Bfloat.pe_call_long = [ids]
       /\ ~ is_number (dtype Bfloat.x_long) 257 (item ids [0; 1 + (0 * (516 / 2) + 257); 2]).
Proof.
  split; [reflexivity|]. split; [reflexivity|]. split.
  { vm_compute. do 4 right. left. reflexivity. }
  split; [reflexivity|]. split.
  { intros a H. discriminate H. }
  eexists. split; [vm_compute; reflexivity|].
  intros H. discriminate H.
Qed.

(** ** Tokens of a concatenation and of a cut *)

Section Tokens.
Context {A Dtype : Type} `{Sc : Scalar A Dtype}.
Local Abbreviation Tensor := (Tensor A Dtype).

Lemma nth_rows (sz lo hi j : nat) (d : list A) (z : A) :
  j < (hi - lo) * sz -> nth j (rows sz lo hi d) z = nth (lo * sz + j) d z.
Proof.
  intros Hj. unfold rows. rewrite nth_firstn.
  apply Nat.ltb_lt in Hj. rewrite Hj. apply nth_skipn.
Qed.

Lemma item3 (t : Tensor) (bs m d i j k : nat) :
  shape t = [bs; m; d] ->
  item t [i; j; k] = nth (i * (m * d) + (j * d + k)) (data t) zero.
Proof.
  intros Hs. unfold item. rewrite Hs. cbn [ravel numel fold_right].
  f_equal. lia.
Qed.

(** The concatenation entry by entry. *)
Lemma cat1_tokens (a b x : Tensor) (bs l n d : nat) :
  wf a -> wf b ->
  shape a = [bs; l; d] -> shape b = [bs; n; d] ->
  cat1 a b = Ok x ->
  wf x /\ tokens_joined a b x.
Proof.
  intros Wa Wb Ha Hb H.
  unfold wf in Wa, Wb. rewrite Ha in Wa. rewrite Hb in Wb.
  cbn [numel fold_right] in Wa, Wb. rewrite Nat.mul_1_r in Wa, Wb.
  unfold cat1, legacy_empty in H. rewrite Ha, Hb in H. cbn [shape_eqb] in H.
  rewrite !andb_false_r, !Nat.eqb_refl in H. cbn [andb] in H.
  injection H as <-.
  cbn [numel fold_right]. rewrite Nat.mul_1_r.
  set (F := fun i => rows d (i * l) (i * l + l) (data a)
                     ++ rows d (i * n) (i * n + n) (data b)).
  assert (HF : forall i, i < bs -> length (F i) = (l + n) * d).
  { intros i Hi. unfold F. rewrite length_app, !rows_length by nia. lia. }
  split.
  - unfold wf. cbn [shape data numel fold_right].
    rewrite flat_map_constant_length with (c := (l + n) * d).
    + rewrite length_seq. lia.
    + intros i Hi. apply in_seq in Hi. apply HF. lia.
  - exists bs, l, n, d. split; [exact Ha|]. split; [exact Hb|]. split; [reflexivity|].
    intros i k Hi Hk.
    assert (Hx : forall t, t < l + n ->
              item {| dtype := promote (dtype a) (dtype b);
                      shape := [bs; l + n; d];
                      data := flat_map F (seq 0 bs) |} [i; t; k]
              = nth (t * d + k) (F i) zero).
    { intros t Ht. rewrite (item3 _ bs (l + n) d) by reflexivity. cbn [data].
      rewrite (nth_flat_map_chunks F ((l + n) * d) zero i (t * d + k) 0 bs);
        [reflexivity| |exact Hi|nia].
      intros m Hm. apply HF. lia. }
    split.
    + intros t Ht. rewrite Hx by lia. unfold F.
      rewrite app_nth1 by (rewrite rows_length by nia; nia).
      rewrite nth_rows by nia.
      rewrite (item3 a bs l d) by exact Ha. f_equal. lia.
    + intros t Ht. rewrite Hx by lia. unfold F.
      rewrite app_nth2 by (rewrite rows_length by nia; nia).
      rewrite rows_length by nia.
      rewrite nth_rows by nia.
      rewrite (item3 b bs n d) by exact Hb. f_equal. lia.
Qed.

(** The cut entry by entry. *)
Lemma slice1_tokens (x y : Tensor) (bs l n d : nat) :
  wf x ->
  shape x = [bs; l + n; d] ->
  slice1_from l x = Ok y ->
  tokens_from l x y.
Proof.
  intros Wx Hx H. unfold wf in Wx. rewrite Hx in Wx.
  cbn [numel fold_right] in Wx. rewrite Nat.mul_1_r in Wx.
  unfold slice1_from in H. rewrite Hx in H. injection H as <-.
  cbn [numel fold_right]. rewrite Nat.mul_1_r.
  replace (Nat.min l (l + n)) with l by lia.
  replace (l + n - l) with n by lia.
  exists bs, n, d. split; [exact Hx|]. split; [reflexivity|].
  intros i t k Hi Ht Hk.
  set (F := fun i => rows d (i * (l + n) + l) (i * (l + n) + (l + n)) (data x)).
  rewrite (item3 _ bs n d) by reflexivity. cbn [data]. fold F.
  assert (HF : forall m, m < bs -> length (F m) = n * d).
  { intros m Hm. unfold F.
    replace (m * (l + n) + (l + n)) with (m * (l + n) + l + n) by lia.
    apply rows_length. nia. }
  rewrite (nth_flat_map_chunks F (n * d) zero i (t * d + k) 0 bs);
    [|intros m Hm; apply HF; lia|exact Hi|nia].
  unfold F. cbn [Nat.add]. rewrite nth_rows by nia.
  rewrite (item3 x bs (l + n) d) by exact Hx. f_equal. lia.
Qed.

End Tokens.

(** ** Shapes *)

Lemma shape_eqb_eq (a b : list nat) : shape_eqb a b = true -> a = b.
Proof.
  revert b. induction a as [|x a IH]; intros [|y b] H; cbn in H; try discriminate.
  - reflexivity.
  - apply andb_true_iff in H. destruct H as [H1 H2].
    apply Nat.eqb_eq in H1. f_equal; auto.
Qed.

Section Shapes.
Context {A Dtype : Type} `{Sc : Scalar A Dtype} `{Bk : Backend A Dtype}.
Local Abbreviation Tensor := (Tensor A Dtype).

Lemma shape_contract_seq : ShapeContract -> SeqContract.
Proof.
  intros C. split.
  - intros s i o b x y H Hx.
    destruct (linear_shape C _ _ _ _ _ _ H) as (r & d & Hr & _ & Hy).
    unfold seq_len, ndim in *. rewrite Hr, Hy. rewrite Hr, length_app in Hx. cbn in Hx.
    destruct r as [|a [|c [|? ?]]]; cbn in Hx; try lia. reflexivity.
  - intros s h n r q img txt vec pe img' txt' H.
    destruct (double_shape C _ _ _ _ _ _ _ _ _ _ _ H) as [H1 H2].
    unfold seq_len. rewrite H1, H2. auto.
  - intros s h n r x vec pe x' H.
    unfold seq_len. rewrite (single_shape C _ _ _ _ _ _ _ _ H). reflexivity.
  - intros s h p o x vec out H.
    destruct (last_shape C _ _ _ _ _ _ _ H) as (b & n & d & Hx & Ho).
    unfold seq_len. rewrite Hx, Ho. reflexivity.
Qed.

Lemma double_chain_seq (C : SeqContract) blocks : forall k (img txt vec pe img2 txt2 : Tensor),
  double_chain blocks k img txt vec pe = Some (img2, txt2) ->
  seq_len img2 = seq_len img /\ seq_len txt2 = seq_len txt.
Proof.
  induction blocks as [|b rest IH]; intros k img txt vec pe img2 txt2 H; cbn in H.
  - injection H as <- <-. auto.
  - destruct (forward_double (DoubleBlocks k) b img txt vec pe) as [[i t]|] eqn:E;
      [|discriminate H].
    cbn [obind fst snd] in H. apply IH in H. destruct H as [H1 H2].
    destruct b; cbn in E; try discriminate E.
    destruct (double_seq C _ _ _ _ _ _ _ _ _ _ _ E) as [H3 H4].
    split; congruence.
Qed.

Lemma single_chain_seq (C : SeqContract) blocks : forall k (x vec pe x1 : Tensor),
  single_chain blocks k x vec pe = Some x1 -> seq_len x1 = seq_len x.
Proof.
  induction blocks as [|b rest IH]; intros k x vec pe x1 H; cbn in H.
  - injection H as <-. auto.
  - destruct (forward_single (SingleBlocks k) b x vec pe) as [x'|] eqn:E;
      [|discriminate H].
    cbn [obind] in H. apply IH in H.
    destruct b; cbn in E; try discriminate E.
    rewrite H. eapply single_seq; eassumption.
Qed.

Lemma double_chain_shape (C : ShapeContract) blocks :
  forall k (img txt vec pe img2 txt2 : Tensor),
  double_chain blocks k img txt vec pe = Some (img2, txt2) ->
  shape img2 = shape img /\ shape txt2 = shape txt.
Proof.
  induction blocks as [|b rest IH]; intros k img txt vec pe img2 txt2 H; cbn in H.
  - injection H as <- <-. auto.
  - destruct (forward_double (DoubleBlocks k) b img txt vec pe) as [[i t]|] eqn:E;
      [|discriminate H].
    cbn [obind fst snd] in H. apply IH in H. destruct H as [H1 H2].
    destruct b; cbn in E; try discriminate E.
    destruct (double_shape C _ _ _ _ _ _ _ _ _ _ _ E) as [H3 H4].
    split; congruence.
Qed.

Lemma single_chain_shape (C : ShapeContract) blocks : forall k (x vec pe x1 : Tensor),
  single_chain blocks k x vec pe = Some x1 -> shape x1 = shape x.
Proof.
  induction blocks as [|b rest IH]; intros k x vec pe x1 H; cbn in H.
  - injection H as <-. auto.
  - destruct (forward_single (SingleBlocks k) b x vec pe) as [x'|] eqn:E;
      [|discriminate H].
    cbn [obind] in H. apply IH in H.
    destruct b; cbn in E; try discriminate E.
    rewrite H. eapply single_shape; eassumption.
Qed.

(** Concatenation along the sequence axis adds the sequence lengths. *)
Lemma cat1_seq (a b x : Tensor) (n : nat) :
  cat1 a b = Ok x -> shape_at a 1 = Ok n -> seq_len x = n + seq_len b.
Proof.
  unfold cat1, cat1_alone, legacy_empty, shape_at, seq_len. intros H Hn.
  destruct (shape_eqb (shape a) [0]) eqn:Ea.
  { apply shape_eqb_eq in Ea. rewrite Ea in Hn. discriminate Hn. }
  destruct (shape_eqb (shape b) [0]) eqn:Eb.
  { apply shape_eqb_eq in Eb. rewrite Eb.
    destruct (shape a) as [|? [|? ?]] eqn:Es; try discriminate H.
    injection H as <-. cbn [to_dtype shape]. rewrite Es. cbn in Hn.
    injection Hn as <-. cbn. lia. }
  destruct (shape a) as [|ba [|na ra]]; try discriminate H.
  destruct (shape b) as [|bb [|nb rb]]; try discriminate H.
  destruct ((ba =? bb) && shape_eqb ra rb); [|discriminate H].
  injection H as <-. cbn in *. injection Hn as <-. reflexivity.
Qed.

Lemma slice1_from_seq (n : nat) (t x : Tensor) :
  slice1_from n t = Ok x -> seq_len x = seq_len t - n.
Proof.
  unfold slice1_from, seq_len. intros H.
  destruct (shape t) as [|b [|m r]]; try discriminate H.
  injection H as <-. reflexivity.
Qed.

Lemma forward_orig_seq_len (dt : option Dtype) (p : FluxParams.t) (self : Flux Dtype)
    (img img_ids txt txt_ids timesteps y : Tensor) (guidance : option Tensor)
    (out : Tensor) :
  SeqContract ->
  __init__ dt p = Ok self ->
  outcome (forward_orig self img img_ids txt txt_ids timesteps y guidance) = Ok out ->
  seq_len out = seq_len img.
Proof.
  intros C Hinit Hout.
  destruct (init_projections dt p self Hinit) as (Himg & _ & Hfin & _).
  destruct (forward_orig_ok _ _ _ _ _ _ _ _ _ Hout)
    as (Hi & _ & img1 & txt1 & ids & pe & vec & img2 & txt2 & x0 & x1 & n & x2 & pre
        & H1 & _ & _ & _ & _ & H6 & H7 & H8 & H9 & H10 & H11 & _ & _).
  rewrite Himg in H1. cbn [forward1] in H1.
  rewrite Hfin in H11. cbn [forward_final] in H11.
  pose proof (linear_seq C _ _ _ _ _ _ H1 Hi) as E1.
  destruct (double_chain_seq C _ _ _ _ _ _ _ _ H6) as [E2 _].
  pose proof (cat1_seq _ _ _ _ H7 H9) as E3.
  pose proof (single_chain_seq C _ _ _ _ _ _ H8) as E4.
  pose proof (slice1_from_seq _ _ _ H10) as E5.
  pose proof (last_seq C _ _ _ _ _ _ _ H11) as E6.
  lia.
Qed.

Lemma double_chain_wf (W : WfContract) blocks :
  forall k (img txt vec pe img2 txt2 : Tensor),
  wf img -> wf txt ->
  double_chain blocks k img txt vec pe = Some (img2, txt2) ->
  wf img2 /\ wf txt2.
Proof.
  induction blocks as [|b rest IH]; intros k img txt vec pe img2 txt2 Wi Wt H; cbn in H.
  - injection H as <- <-. auto.
  - destruct (forward_double (DoubleBlocks k) b img txt vec pe) as [[i t]|] eqn:E;
      [|discriminate H].
    cbn [obind fst snd] in H.
    destruct b; cbn in E; try discriminate E.
    destruct (double_wf W _ _ _ _ _ _ _ _ _ _ _ E) as [Wi' Wt'].
    exact (IH _ _ _ _ _ _ _ Wi' Wt' H).
Qed.

Lemma single_chain_wf (W : WfContract) blocks : forall k (x vec pe x1 : Tensor),
  wf x -> single_chain blocks k x vec pe = Some x1 -> wf x1.
Proof.
  induction blocks as [|b rest IH]; intros k x vec pe x1 Wx H; cbn in H.
  - injection H as <-. exact Wx.
  - destruct (forward_single (SingleBlocks k) b x vec pe) as [x'|] eqn:E;
      [|discriminate H].
    cbn [obind] in H.
    destruct b; cbn in E; try discriminate E.
    exact (IH _ _ _ _ _ (single_wf W _ _ _ _ _ _ _ _ E) H).
Qed.

(** C6. For a constructed model whose sub-layers keep to their shape
    contracts and return well-formed tensors, what [forward_orig] returns
    has the sequence length of [img], whatever the sequence length of
    [txt].  The run is tied together as follows: the double-stream blocks
    turn the projected [img] and [txt] into [img2] and [txt2], of the
    sequence lengths of [img] and [txt]; [x0] holds the tokens of [txt2]
    followed by those of [img2]; the single-stream blocks turn [x0] into
    [x1], of the same length; [x2] holds the tokens of [x1] but the first
    [seq_len txt], entry by entry, so only the image-token part at the end
    is kept; the final layer is called last, on [x2], and [out] is what it
    returns. *)
Theorem text_tokens_dropped (dt : option Dtype) (p : FluxParams.t) (self : Flux Dtype)
    (img img_ids txt txt_ids timesteps y : Tensor) (guidance : option Tensor)
    (out : Tensor) :
  ShapeContract -> WfContract ->
  __init__ dt p = Ok self ->
  outcome (forward_orig self img img_ids txt txt_ids timesteps y guidance) = Ok out ->
  seq_len out = seq_len img
  /\ exists img1 txt1 vec ids pe img2 txt2 x0 x1 x2 pre,
       forward1 ImgIn (img_in self) img = Some img1
       /\ forward1 TxtIn (txt_in self) txt = Some txt1
       /\ conditioning self (dtype img1) timesteps y guidance = Some vec
       /\ cat1 txt_ids img_ids = Ok ids
       /\ forward1 PeEmbedder (pe_embedder self) ids = Some pe
       /\ double_chain (double_blocks self) 0 img1 txt1 vec pe = Some (img2, txt2)
       /\ seq_len img2 = seq_len img
       /\ seq_len txt2 = seq_len txt
       /\ tokens_joined txt2 img2 x0
       /\ single_chain (single_blocks self) 0 x0 vec pe = Some x1
       /\ seq_len x1 = seq_len txt + seq_len img
       /\ tokens_from (seq_len txt) x1 x2
       /\ seq_len x2 = seq_len img
       /\ forward_final FinalLayer (final_layer self) x2 vec = Some out
       /\ trace (forward_orig self img img_ids txt txt_ids timesteps y guidance)
          = pre ++ [Call FinalLayer [x2; vec]].
Proof.
  intros C W Hinit Hout.
  split; [eapply forward_orig_seq_len; try eassumption; apply shape_contract_seq; exact C|].
  destruct (init_projections dt p self Hinit) as (Himg & Htxt & _ & _).
  destruct (forward_orig_ok _ _ _ _ _ _ _ _ _ Hout)
    as (Hi & Ht & img1 & txt1 & ids & pe & vec & img2 & txt2 & x0 & x1 & m & x2 & pre
        & H1 & H2 & H3 & H4 & H5 & H6 & H7 & H8 & H9 & H10 & H11 & Htr & _).
  exists img1, txt1, vec, ids, pe, img2, txt2, x0, x1, x2.
  eexists.
  split; [exact H1|]. split; [exact H3|]. split; [exact H2|]. split; [exact H4|].
  split; [exact H5|]. split; [exact H6|].
  rewrite Himg in H1. cbn [forward1] in H1.
  rewrite Htxt in H3. cbn [forward1] in H3.
  pose proof (linear_wf W _ _ _ _ _ _ H1) as Wi1.
  pose proof (linear_wf W _ _ _ _ _ _ H3) as Wt1.
  destruct (linear_shape C _ _ _ _ _ _ H1) as (r & d' & Hr & _ & Himg1).
  assert (Hr' : exists bs n, r = [bs; n]).
  { unfold ndim in Hi. rewrite Hr, length_app in Hi. cbn in Hi.
    destruct r as [|bs [|n [|? ?]]]; cbn in Hi; try lia. eauto. }
  destruct Hr' as (bs & n & ->).
  destruct (linear_shape C _ _ _ _ _ _ H3) as (rt & dt' & Hrt & _ & Htxt1).
  assert (Hrt' : exists bt l, rt = [bt; l]).
  { unfold ndim in Ht. rewrite Hrt, length_app in Ht. cbn in Ht.
    destruct rt as [|bt [|l [|? ?]]]; cbn in Ht; try lia. eauto. }
  destruct Hrt' as (bt & l & ->).
  cbn [app] in Hr, Hrt, Himg1, Htxt1.
  set (D := Z.to_nat (FluxParams.hidden_size p)) in *.
  destruct (double_chain_shape C _ _ _ _ _ _ _ _ H6) as [E2 E2'].
  rewrite Himg1 in E2. rewrite Htxt1 in E2'.
  destruct (double_chain_wf W _ _ _ _ _ _ _ _ Wi1 Wt1 H6) as [Wi2 Wt2].
  pose proof (single_chain_shape C _ _ _ _ _ _ H8) as E4.
  unfold shape_at in H9. rewrite E2' in H9. cbn in H9. injection H9 as <-.
  assert (Hb : bt = bs).
  { unfold cat1, legacy_empty in H7. rewrite E2, E2' in H7. cbn [shape_eqb] in H7.
    rewrite !andb_false_r in H7.
    destruct (Nat.eqb_spec bt bs) as [E|]; [exact E|discriminate H7]. }
  subst bt.
  destruct (cat1_tokens txt2 img2 x0 bs l n D Wt2 Wi2 E2' E2 H7) as [Wx0 J].
  assert (Ex0 : shape x0 = [bs; l + n; D]).
  { destruct J as (bs' & l' & n' & d & Ja & Jb & Jx & _).
    rewrite E2' in Ja. injection Ja as <- <- <-.
    rewrite E2 in Jb. injection Jb as <-. exact Jx. }
  rewrite Ex0 in E4.
  pose proof (single_chain_wf W _ _ _ _ _ _ Wx0 H8) as Wx1.
  pose proof (slice1_tokens x1 x2 bs l n D Wx1 E4 H10) as S.
  assert (Ex2 : shape x2 = [bs; n; D]).
  { destruct S as (bs' & n' & d & Sx & Sy & _).
    rewrite E4 in Sx. injection Sx as <- Hn <-.
    replace n' with n in Sy by lia. exact Sy. }
  assert (Li : seq_len img = n) by (unfold seq_len; rewrite Hr; reflexivity).
  assert (Lt : seq_len txt = l) by (unfold seq_len; rewrite Hrt; reflexivity).
  rewrite Li, Lt. unfold seq_len. rewrite E2, E2', E4, Ex2. cbn [nth].
  repeat match goal with |- _ /\ _ => split end;
    try reflexivity; try assumption.
  rewrite Htr, !app_assoc. reflexivity.
Qed.


Lemma patchify_shape (x img : Tensor) (bs c h w : nat) :
  rearrange_patchify 2 2 x = Ok img ->
  shape x = [bs; c; h; w] ->
  h mod 2 = 0 /\ w mod 2 = 0 /\ shape img = [bs; h / 2 * (w / 2); c * 2 * 2].
Proof.
  unfold rearrange_patchify. intros H Hs. rewrite Hs in H.
  destruct (Nat.eqb_spec (h mod 2) 0) as [Eh|]; [|discriminate H].
  destruct (Nat.eqb_spec (w mod 2) 0) as [Ew|]; [|discriminate H].
  cbn [andb] in H. injection H as <-. auto.
Qed.

Lemma unpatchify_shape (t out : Tensor) (hl wl b n k : nat) :
  rearrange_unpatchify hl wl 2 2 t = Ok out ->
  shape t = [b; n; k] ->
  shape out = [b; k / 4; hl * 2; wl * 2].
Proof.
  unfold rearrange_unpatchify. intros H Hs. rewrite Hs in H.
  destruct ((n =? hl * wl) && (k mod (2 * 2) =? 0)); [|discriminate H].
  injection H as <-. reflexivity.
Qed.

Lemma app_last_inv {X} (r : list X) (d a b c : X) :
  [a; b; c] = r ++ [d] -> r = [a; b] /\ d = c.
Proof.
  intros H. change [a; b; c] with ([a; b] ++ [c]) in H.
  apply app_inj_tail in H. destruct H; auto.
Qed.

Lemma forward_orig_shape (C : ShapeContract) (dt : option Dtype) (p : FluxParams.t)
    (self : Flux Dtype) (img img_ids txt txt_ids timesteps y : Tensor)
    (guidance : option Tensor) (out : Tensor) (bs n d : nat) :
  __init__ dt p = Ok self ->
  shape img = [bs; n; d] ->
  outcome (forward_orig self img img_ids txt txt_ids timesteps y guidance) = Ok out ->
  Z.of_nat d = in_channels self
  /\ shape out = [bs; n; Z.to_nat (in_channels self)].
Proof.
  intros Hinit Hs Hout.
  destruct (init_projections dt p self Hinit) as (Himg & Htxt & Hfin & Hin).
  destruct (forward_orig_ok _ _ _ _ _ _ _ _ _ Hout)
    as (_ & Ht & img1 & txt1 & ids & pe & vec & img2 & txt2 & x0 & x1 & m & x2 & pre
        & H1 & _ & H3 & _ & _ & H6 & H7 & H8 & H9 & H10 & H11 & _ & _).
  rewrite Himg in H1. cbn [forward1] in H1.
  rewrite Htxt in H3. cbn [forward1] in H3.
  rewrite Hfin in H11. cbn [forward_final] in H11.
  destruct (linear_shape C _ _ _ _ _ _ H1) as (r & d' & Hr & Hd & Himg1).
  rewrite Hs in Hr. apply app_last_inv in Hr. destruct Hr as [-> ->].
  destruct (linear_shape C _ _ _ _ _ _ H3) as (rt & dt' & Hrt & _ & Htxt1).
  assert (Hrt' : exists bt l, rt = [bt; l]).
  { unfold ndim in Ht. rewrite Hrt, length_app in Ht. cbn in Ht.
    destruct rt as [|bt [|l [|? ?]]]; cbn in Ht; try lia. eauto. }
  destruct Hrt' as (bt & l & ->).
  destruct (double_chain_shape C _ _ _ _ _ _ _ _ H6) as [E2 E2'].
  rewrite Himg1 in E2. rewrite Htxt1 in E2'. cbn [app] in E2, E2'.
  pose proof (single_chain_shape C _ _ _ _ _ _ H8) as E4.
  unfold shape_at in H9. rewrite E2' in H9. cbn in H9. injection H9 as <-.
  unfold cat1, legacy_empty in H7. rewrite E2, E2' in H7. cbn [shape_eqb] in H7.
  rewrite !andb_false_r in H7.
  destruct (Nat.eqb_spec bt bs) as [->|]; [|discriminate H7].
  rewrite Nat.eqb_refl in H7. cbn [andb] in H7. injection H7 as <-. cbn [shape] in E4.
  unfold slice1_from in H10. rewrite E4 in H10. injection H10 as <-.
  destruct (last_shape C _ _ _ _ _ _ _ H11) as (b' & n' & d'' & Hx2 & Hout').
  cbn [shape] in Hx2. injection Hx2 as <- <- <-.
  split; [rewrite Hin; exact Hd|].
  rewrite Hout', Hin.
  replace (l + n - l) with n by lia.
  replace (1 * 1 * FluxParams.in_channels p)%Z with (FluxParams.in_channels p) by lia.
  reflexivity.
Qed.

(** C9 (amended). For a constructed model whose sub-layers keep to their
    shape contracts, a tensor [forward] returns for an input of shape
    (bs, c, h, w) has that same shape; and [forward] returns only if h and
    w are even and the model has 4 * c input channels, one per value of a
    2 x 2 patch. *)
Theorem forward_keeps_shape (dt : option Dtype) (p : FluxParams.t) (self : Flux Dtype)
    (x timestep context y : Tensor) (guidance : option Tensor) (out : Tensor)
    (bs c h w : nat) :
  ShapeContract ->
  __init__ dt p = Ok self ->
  shape x = [bs; c; h; w] ->
  outcome (forward self x timestep context y guidance) = Ok out ->
  shape out = [bs; c; h; w]
  /\ h mod 2 = 0 /\ w mod 2 = 0
  /\ in_channels self = Z.of_nat (4 * c).
Proof.
  intros C Hinit Hs Hout.
  destruct (forward_cases self x timestep context y guidance)
    as [[_ Ho]|(bs' & c' & h' & w' & img & img_ids & l & Hs' & Hp & Hl & Hc & Ht & Ho)];
    [destruct (Ho out Hout)|].
  rewrite Hs in Hs'. injection Hs' as <- <- <- <-.
  destruct (patchify_shape _ _ _ _ _ _ Hp Hs) as (Hh & Hw & Himg).
  rewrite Ho in Hout.
  destruct (outcome (forward_orig self img img_ids context
                       (zeros (dtype x) [bs; l; 3]) timestep y guidance))
    as [out0|] eqn:E0; [|discriminate Hout].
  cbn [rbind] in Hout.
  destruct (forward_orig_shape C dt p self _ _ _ _ _ _ _ _ _ _ _ Hinit Himg E0)
    as [Hd Hout0].
  pose proof (unpatchify_shape _ _ _ _ _ _ _ Hout Hout0) as Hsh.
  rewrite <- Hd, Nat2Z.id in Hsh.
  replace (c * 2 * 2 / 4) with c in Hsh
    by (replace (c * 2 * 2) with (c * 4) by lia; symmetry; apply Nat.div_mul; lia).
  rewrite (even_halves h Hh), (even_halves w Hw) in Hsh.
  repeat split; try assumption.
  rewrite <- Hd. f_equal. lia.
Qed.

End Shapes.

Lemma toy_shape_contract : @ShapeContract Z Toy.dt Toy.backend.
Proof.
  split.
  - intros s i o b x y H. cbn in H. unfold Toy.last_axis in H.
    destruct (rev (shape x)) as [|d r] eqn:Er; [discriminate H|].
    destruct (Z.eqb_spec (Z.of_nat d) i) as [Ed|]; [|discriminate H].
    destruct (0 <=? o)%Z; [|discriminate H].
    cbn [andb] in H. injection H as <-.
    exists (rev r), d. split; [|split; [exact Ed|reflexivity]].
    rewrite <- (rev_involutive (shape x)), Er. reflexivity.
  - intros s h n r q img txt vec pe img' txt' H. cbn in H. unfold Toy.double_block in H.
    destruct (shape img) as [|? [|? [|? [|? ?]]]]; try discriminate H.
    destruct (shape txt) as [|? [|? [|? [|? ?]]]]; try discriminate H.
    destruct (shape vec) as [|? [|? [|? ?]]]; try discriminate H.
    match type of H with (if ?c then _ else _) = _ => destruct c end; [|discriminate H].
    injection H as <- <-. split; reflexivity.
  - intros s h n r x vec pe x' H. cbn in H. unfold Toy.single_block in H.
    destruct (shape x) as [|? [|? [|? [|? ?]]]]; try discriminate H.
    destruct (shape vec) as [|? [|? [|? ?]]]; try discriminate H.
    match type of H with (if ?c then _ else _) = _ => destruct c end; [|discriminate H].
    injection H as <-. reflexivity.
  - intros s h p o x vec out H. cbn in H. unfold Toy.last_layer in H.
    destruct (shape x) as [|b [|n [|d [|? ?]]]]; try discriminate H.
    destruct (shape vec) as [|? [|? [|? ?]]]; try discriminate H.
    match type of H with (if ?c then _ else _) = _ => destruct c end; [|discriminate H].
    injection H as <-. exists b, n, d. split; reflexivity.
Qed.

Lemma toy_wf_contract : @WfContract Z Toy.dt Toy.backend.
Proof.
  assert (Hf : forall d s v, wf (Toy.filled d s v)).
  { intros d s v. unfold wf, Toy.filled. cbn [data shape]. apply repeat_length. }
  split.
  - intros s i o b x y H. cbn in H. unfold Toy.last_axis in H.
    destruct (rev (shape x)) as [|d r]; [discriminate H|].
    destruct ((Z.of_nat d =? i)%Z && (0 <=? o)%Z); [|discriminate H].
    injection H as <-. apply Hf.
  - intros s h n r q img txt vec pe img' txt' H. cbn in H. unfold Toy.double_block in H.
    destruct (shape img) as [|b [|ni [|hi [|? ?]]]]; try discriminate H.
    destruct (shape txt) as [|b' [|nt [|ht [|? ?]]]]; try discriminate H.
    destruct (shape vec) as [|b'' [|hv [|? ?]]]; try discriminate H.
    match type of H with (if ?c then _ else _) = _ => destruct c end; [|discriminate H].
    injection H as <- <-. split; apply Hf.
  - intros s h n r x vec pe x' H. cbn in H. unfold Toy.single_block in H.
    destruct (shape x) as [|b [|t [|hx [|? ?]]]]; try discriminate H.
    destruct (shape vec) as [|b' [|hv [|? ?]]]; try discriminate H.
    match type of H with (if ?c then _ else _) = _ => destruct c end; [|discriminate H].
    injection H as <-. apply Hf.
Qed.

Lemma text_tokens_dropped_witness :
  exists out,
    outcome Toy.run_orig = Ok out
    /\ seq_len out = seq_len Toy.img0
    /\ exists img1 txt1 vec ids pe img2 txt2 x0 x1 x2 pre,
         forward1 ImgIn (img_in (Toy.model true)) Toy.img0 = Some img1
         /\ forward1 TxtIn (txt_in (Toy.model true)) Toy.txt0 = Some txt1
         /\ conditioning (Toy.model true) (dtype img1) Toy.timestep0 Toy.y0
              (Some Toy.guidance0) = Some vec
         /\ cat1 Toy.txt_ids0 Toy.img_ids0 = Ok ids
         /\ forward1 PeEmbedder (pe_embedder (Toy.model true)) ids = Some pe
         /\ double_chain (double_blocks (Toy.model true)) 0 img1 txt1 vec pe
            = Some (img2, txt2)
         /\ seq_len img2 = seq_len Toy.img0
         /\ seq_len txt2 = seq_len Toy.txt0
         /\ tokens_joined txt2 img2 x0
         /\ single_chain (single_blocks (Toy.model true)) 0 x0 vec pe = Some x1
         /\ seq_len x1 = seq_len Toy.txt0 + seq_len Toy.img0
         /\ tokens_from (seq_len Toy.txt0) x1 x2
         /\ seq_len x2 = seq_len Toy.img0
         /\ forward_final FinalLayer (final_layer (Toy.model true)) x2 vec = Some out
         /\ trace Toy.run_orig = pre ++ [Call FinalLayer [x2; vec]].
Proof.
  eexists. split; [vm_compute; reflexivity|].
  apply (text_tokens_dropped (Some Toy.F32) (Toy.cfg true) (Toy.model true) Toy.img0
           Toy.img_ids0 Toy.txt0 Toy.txt_ids0 Toy.timestep0 Toy.y0 (Some Toy.guidance0)).
  - exact toy_shape_contract.
  - exact toy_wf_contract.
  - reflexivity.
  - vm_compute. reflexivity.
Defined.

Lemma forward_keeps_shape_witness :
  exists out,
    outcome Toy.run = Ok out
    /\ shape out = [1; 1; 4; 4]
    /\ 4 mod 2 = 0 /\ 4 mod 2 = 0
    /\ in_channels (Toy.model true) = Z.of_nat (4 * 1).
Proof.
  eexists. split; [vm_compute; reflexivity|].
  apply (forward_keeps_shape (Some Toy.F32) (Toy.cfg true) (Toy.model true) Toy.x0
           Toy.timestep0 Toy.context0 Toy.y0 (Some Toy.guidance0)).
  - exact toy_shape_contract.
  - reflexivity.
  - reflexivity.
  - vm_compute. reflexivity.
Defined.

(** A latent of shape (1, 4, 2, 2) for a model of 4 input channels: h and
    w are even and c is the number of input channels, yet [forward] returns
    no tensor: the patches have 16 values each, and the image projection,
    which takes 4, raises. *)
Lemma forward_channels_mismatch :
  shape Toy.x_wide = [1; 4; 2; 2]
  /\ in_channels (Toy.model true) = 4%Z
  /\ 2 mod 2 = 0
  /\ outcome (forward (Toy.model true) Toy.x_wide Toy.timestep0 Toy.context0 Toy.y0
                (Some Toy.guidance0))
     = Raise (LayerError ImgIn).
Proof. repeat split. Qed.

(** * Further properties *)

(** ** Further properties of the constructor *)

Section ConstructionMore.
Context {Dtype : Type}.
Local Open Scope Z_scope.
Local Open Scope string_scope.

(** X1. A model the constructor returns has a non-zero number of heads, a
    hidden size that is the number of heads times the sum of [axes_dim],
    and a positional embedder of that per-head dimension. *)
Theorem init_head_dimension (dt : option Dtype) (p : FluxParams.t) (m : Flux Dtype) :
  __init__ dt p = Ok m ->
  num_heads m <> 0
  /\ hidden_size m = num_heads m * py_sum (FluxParams.axes_dim p)
  /\ pe_embedder m = EmbedND (py_sum (FluxParams.axes_dim p)) (FluxParams.theta p)
                       (FluxParams.axes_dim p).
Proof.
  unfold __init__, py_mod, py_floordiv. intros H.
  destruct (Z.eqb_spec (FluxParams.num_heads p) 0) as [|Hn]; [discriminate|].
  cbn [rbind] in H.
  destruct (Z.eqb_spec (FluxParams.hidden_size p mod FluxParams.num_heads p) 0)
    as [Hm|]; [|discriminate].
  cbn [negb rbind] in H.
  destruct (Z.eqb_spec (py_sum (FluxParams.axes_dim p))
              (FluxParams.hidden_size p / FluxParams.num_heads p)) as [Hs|];
    [|discriminate].
  cbn [negb] in H. injection H as <-. cbn.
  split; [exact Hn|]. split.
  - rewrite Hs.
    pose proof (Z.div_mod (FluxParams.hidden_size p) (FluxParams.num_heads p) Hn). lia.
  - rewrite Hs. reflexivity.
Qed.

(** X2. The two checks of the constructor in their order: with a non-zero
    number of heads, a hidden size that leaves a remainder is reported
    first, whatever [axes_dim] is; the positional dimension is reported
    only for a hidden size that divides. *)
Theorem init_error_messages (dt : option Dtype) (p : FluxParams.t) :
  let h := FluxParams.hidden_size p in
  let n := FluxParams.num_heads p in
  n <> 0 ->
  (h mod n <> 0 ->
   __init__ dt p
   = Raise (ValueError ("Hidden size " ++ string_of_Z h
                        ++ " must be divisible by num_heads " ++ string_of_Z n)))
  /\ (h mod n = 0 -> py_sum (FluxParams.axes_dim p) <> h / n ->
      __init__ dt p
      = Raise (ValueError ("Got " ++ string_of_list_Z (FluxParams.axes_dim p)
                           ++ " but expected positional dim " ++ string_of_Z (h / n)))).
Proof.
  cbv zeta. intros Hn. unfold __init__, py_mod, py_floordiv.
  apply Z.eqb_neq in Hn. rewrite Hn. cbn [rbind]. split.
  - intros Hm. apply Z.eqb_neq in Hm. rewrite Hm. reflexivity.
  - intros Hm Hs. apply Z.eqb_eq in Hm. apply Z.eqb_neq in Hs. rewrite Hm, Hs. reflexivity.
Qed.

End ConstructionMore.

Lemma init_head_dimension_witness :
  num_heads (Toy.model true) <> 0%Z
  /\ hidden_size (Toy.model true) = (num_heads (Toy.model true) * py_sum [2; 1; 1])%Z
  /\ pe_embedder (Toy.model true) = EmbedND (py_sum [2; 1; 1]%Z) 10000 [2; 1; 1]%Z.
Proof.
  exact (init_head_dimension (Some Toy.F32) (Toy.cfg true) (Toy.model true) eq_refl).
Defined.

Lemma init_error_messages_witness :
  __init__ (Some Toy.F32) Toy.cfg_indivisible
  = Raise (ValueError "Hidden size 5 must be divisible by num_heads 2")
  /\ __init__ (Some Toy.F32) Toy.cfg_axes
     = Raise (ValueError "Got [2, 1] but expected positional dim 4").
Proof.
  split.
  - apply (proj1 (init_error_messages (Some Toy.F32) Toy.cfg_indivisible
                    ltac:(discriminate))).
    discriminate.
  - apply (proj2 (init_error_messages (Some Toy.F32) Toy.cfg_axes ltac:(discriminate)));
      [reflexivity|discriminate].
Defined.

(** ** What [forward] turns down *)

Section ForwardInputs.
Context {A Dtype : Type} `{Sc : Scalar A Dtype} `{Bk : Backend A Dtype}.
Local Abbreviation Tensor := (Tensor A Dtype).

Lemma patchify_even (x : Tensor) (bs c h w : nat) :
  shape x = [bs; c; h; w] -> h mod 2 = 0 -> w mod 2 = 0 ->
  exists img, rearrange_patchify 2 2 x = Ok img
              /\ shape img = [bs; h / 2 * (w / 2); c * 2 * 2].
Proof.
  intros Hs Hh Hw. unfold rearrange_patchify. rewrite Hs, Hh, Hw.
  eexists. split; reflexivity.
Qed.

Lemma unpatchify_raises (h w : nat) (t : Tensor) e :
  rearrange_unpatchify h w 2 2 t = Raise e -> e = EinopsError.
Proof.
  unfold rearrange_unpatchify. intros H.
  destruct (shape t) as [|b [|n [|k [|k' r]]]]; try (injection H as <-; reflexivity).
  destruct ((n =? h * w) && (k mod (2 * 2) =? 0)); [discriminate H|].
  injection H as <-; reflexivity.
Qed.

(** X3. [forward] turns down a latent that does not have 4 dimensions
    with the ValueError of the tuple unpacking, and a 4-dimensional latent
    of odd height or odd width with the error of einops; either way before
    any sub-layer is called, whatever the other arguments are. *)
Theorem forward_rejects_latent (self : Flux Dtype) (x timestep context y : Tensor)
    (guidance : option Tensor) :
  (ndim x <> 4 ->
   forward self x timestep context y guidance = (Raise (unpack_error (ndim x)), []))
  /\ (forall bs c h w,
        shape x = [bs; c; h; w] ->
        h mod 2 <> 0 \/ w mod 2 <> 0 ->
        forward self x timestep context y guidance = (Raise EinopsError, [])).
Proof.
  split.
  - unfold forward, ndim. intros H.
    destruct (shape x) as [|bs [|c [|h [|w [|a r]]]]]; try reflexivity.
    cbn in H. lia.
  - intros bs c h w Hs H. unfold forward. rewrite Hs.
    assert (Hp : rearrange_patchify 2 2 x = Raise EinopsError).
    { unfold rearrange_patchify. rewrite Hs.
      destruct (Nat.eqb_spec (h mod 2) 0) as [Eh|]; [|reflexivity].
      destruct (Nat.eqb_spec (w mod 2) 0) as [Ew|]; [|reflexivity].
      destruct H; contradiction. }
    rewrite Hp. reflexivity.
Qed.

(** X4. On a 4-dimensional input of even height and width, the rank of
    [context] decides: below 2, [context.shape[1]] raises IndexError; 2 or
    above but not 3, the rank check of [forward_orig] raises its
    ValueError; in both cases no sub-layer is called.  With a context of
    rank 3 the rank check never fails, since the patches have rank 3. *)
Theorem forward_context_rank (self : Flux Dtype) (x timestep context y : Tensor)
    (guidance : option Tensor) (bs c h w : nat) :
  shape x = [bs; c; h; w] ->
  h mod 2 = 0 -> w mod 2 = 0 ->
  (ndim context < 2 ->
   forward self x timestep context y guidance = (Raise IndexError, []))
  /\ (2 <= ndim context -> ndim context <> 3 ->
      forward self x timestep context y guidance = (Raise rank_error, []))
  /\ (ndim context = 3 ->
      outcome (forward self x timestep context y guidance) <> Raise rank_error).
Proof.
  intros Hs Hh Hw.
  destruct (patchify_even x bs c h w Hs Hh Hw) as (img & Hp & Himg).
  assert (Hstart : forall l,
             shape_at context 1 = Ok l ->
             exists img_ids,
               forward self x timestep context y guidance
               = bind (forward_orig self img img_ids context (zeros (dtype x) [bs; l; 3])
                         timestep y guidance)
                      (fun out => lift (rearrange_unpatchify (h / 2) (w / 2) 2 2 out))).
  { intros l Hl.
    destruct (forward_ids_steps (dtype x) bs l (h / 2) (w / 2))
      as (ids1 & ids2 & img_ids & E1 & E2 & E3 & _).
    exists img_ids. unfold forward. rewrite Hs, Hp, bind_lift_ok.
    rewrite E1, bind_lift_ok, E2, bind_lift_ok, E3, bind_lift_ok, Hl, bind_lift_ok.
    reflexivity. }
  split; [|split].
  - intros Hc.
    destruct (forward_ids_steps (dtype x) bs 0 (h / 2) (w / 2))
      as (ids1 & ids2 & img_ids & E1 & E2 & E3 & _).
    unfold forward. rewrite Hs, Hp, bind_lift_ok.
    rewrite E1, bind_lift_ok, E2, bind_lift_ok, E3, bind_lift_ok.
    assert (Hl : shape_at context 1 = Raise IndexError).
    { unfold shape_at, ndim in *. destruct (shape context) as [|? [|? ?]]; cbn in *;
        try reflexivity. lia. }
    rewrite Hl. reflexivity.
  - intros Hc Hc3.
    assert (Hl : exists l, shape_at context 1 = Ok l).
    { unfold shape_at, ndim in *. destruct (shape context) as [|? [|? ?]]; cbn in *;
        try lia. eauto. }
    destruct Hl as [l Hl]. destruct (Hstart l Hl) as [img_ids ->].
    unfold forward_orig.
    assert (Hi : ndim img = 3) by (unfold ndim; rewrite Himg; reflexivity).
    apply Nat.eqb_eq in Hi. apply Nat.eqb_neq in Hc3. rewrite Hi, Hc3. reflexivity.
  - intros Hc H.
    assert (Hl : exists l, shape_at context 1 = Ok l).
    { unfold shape_at, ndim in *. destruct (shape context) as [|? [|? ?]]; cbn in *;
        try lia. eauto. }
    destruct Hl as [l Hl]. destruct (Hstart l Hl) as [img_ids E]. rewrite E in H.
    rewrite outcome_bind in H.
    destruct (outcome (forward_orig self img img_ids context
                         (zeros (dtype x) [bs; l; 3]) timestep y guidance))
      as [out|e] eqn:E0.
    + unfold lift in H. rewrite outcome_pair in H.
      apply unpatchify_raises in H. discriminate H.
    + injection H as ->. apply forward_orig_raises in E0.
      assert (Hi : ndim img = 3) by (unfold ndim; rewrite Himg; reflexivity).
      destruct E0 as [(_ & [H|H] & _)|[(H & _)|(_ & _ & H)]]; try contradiction.
      * discriminate H.
      * apply (H _ eq_refl).
Qed.

End ForwardInputs.

Lemma forward_rejects_latent_witness :
  forward (Toy.model true) Toy.x_flat Toy.timestep0 Toy.context0 Toy.y0 None
  = (Raise (ValueError "not enough values to unpack (expected 4, got 2)"), [])
  /\ forward (Toy.model true) Toy.x_odd Toy.timestep0 Toy.context0 Toy.y0 None
     = (Raise EinopsError, []).
Proof.
  split.
  - apply (proj1 (forward_rejects_latent (Toy.model true) Toy.x_flat Toy.timestep0
                    Toy.context0 Toy.y0 None)).
    discriminate.
  - apply (proj2 (forward_rejects_latent (Toy.model true) Toy.x_odd Toy.timestep0
                    Toy.context0 Toy.y0 None) 1 1 3 4); [reflexivity|].
    left. discriminate.
Defined.

Lemma forward_context_rank_witness :
  forward (Toy.model true) Toy.x0 Toy.timestep0 Toy.context_flat Toy.y0 None
  = (Raise IndexError, [])
  /\ forward (Toy.model true) Toy.x0 Toy.timestep0 Toy.context_2d Toy.y0 None
     = (Raise rank_error, [])
  /\ outcome (forward (Toy.model true) Toy.x0 Toy.timestep0 Toy.context0 Toy.y0 None)
     <> Raise rank_error.
Proof.
  split; [|split].
  - apply (proj1 (forward_context_rank (Toy.model true) Toy.x0 Toy.timestep0
                    Toy.context_flat Toy.y0 None 1 1 4 4 eq_refl eq_refl eq_refl)).
    cbn. lia.
  - apply (proj1 (proj2 (forward_context_rank (Toy.model true) Toy.x0 Toy.timestep0
                           Toy.context_2d Toy.y0 None 1 1 4 4 eq_refl eq_refl eq_refl)));
      cbn; lia.
  - apply (proj2 (proj2 (forward_context_rank (Toy.model true) Toy.x0 Toy.timestep0
                           Toy.context0 Toy.y0 None 1 1 4 4 eq_refl eq_refl eq_refl))).
    reflexivity.
Defined.

(** ** Layout of the patches *)

Section PatchLayout.
Context {A Dtype : Type} `{Sc : Scalar A Dtype}.
Local Abbreviation Tensor := (Tensor A Dtype).

(** X5. Each token of the patchified image is one 2 x 2 patch, channel by
    channel: token i * (w // 2) + j holds at position c * 4 + p * 2 + q the
    value of [x] at channel c, row 2 * i + p, column 2 * j + q. *)
Theorem patch_layout (x img : Tensor) (bs cs h w : nat) :
  shape x = [bs; cs; h; w] ->
  rearrange_patchify 2 2 x = Ok img ->
  forall b c i j p q,
    b < bs -> c < cs -> i < h / 2 -> j < w / 2 -> p < 2 -> q < 2 ->
    item img [b; i * (w / 2) + j; c * 4 + p * 2 + q]
    = item x [b; c; 2 * i + p; 2 * j + q].
Proof.
  intros Hs Hp b c i j p q Hb Hc Hi Hj Hpp Hq.
  unfold rearrange_patchify in Hp. rewrite Hs in Hp.
  destruct (Nat.eqb_spec (h mod 2) 0) as [Hh|]; [|discriminate Hp].
  destruct (Nat.eqb_spec (w mod 2) 0) as [Hw|]; [|discriminate Hp].
  set (hl := h / 2) in *. set (wl := w / 2) in *.
  assert (Himg : img = view [bs; hl * wl; cs * 2 * 2]
                         (permute split_merge (view [bs; cs; hl; 2; wl; 2] x)))
    by (injection Hp as <-; reflexivity).
  clear Hp. subst img.
  unfold item. cbn [shape view data permute dtype].
  assert (Eh : h = hl * 2) by (symmetry; apply even_halves; exact Hh).
  assert (Ew : w = wl * 2) by (symmetry; apply even_halves; exact Hw).
  set (s6 := [bs; cs; hl; 2; wl; 2]).
  set (s6' := gather 0 split_merge s6).
  assert (Hidx : Forall2 lt [b; i; j; c; p; q] s6').
  { unfold s6', s6. cbn [gather map nth split_merge].
    repeat (apply Forall2_cons; [assumption|]). apply Forall2_nil. }
  assert (Ho : ravel [bs; hl * wl; cs * 2 * 2] [b; i * wl + j; c * 4 + p * 2 + q]
               = ravel s6' [b; i; j; c; p; q]).
  { cbn [ravel numel fold_right s6' s6 gather map nth split_merge]. ring. }
  rewrite Ho.
  rewrite nth_map_seq by (apply ravel_lt; exact Hidx).
  rewrite unravel_ravel by exact Hidx.
  f_equal. rewrite Hs.
  change (invperm split_merge) with merge_split.
  cbn [ravel numel fold_right s6 gather map nth merge_split].
  rewrite Eh, Ew. ring.
Qed.

(** X6. Unembedding followed by embedding is the identity too: a tensor of
    shape (b, h * w, k) with k a multiple of 4 unpatchifies to shape
    (b, k // 4, 2 * h, 2 * w), and patchifying that gives it back. *)
Theorem unpatchify_patchify_roundtrip (t : Tensor) (b n k hl wl : nat) :
  wf t ->
  shape t = [b; n; k] ->
  n = hl * wl ->
  k mod 4 = 0 ->
  exists x,
    rearrange_unpatchify hl wl 2 2 t = Ok x
    /\ shape x = [b; k / 4; hl * 2; wl * 2]
    /\ rearrange_patchify 2 2 x = Ok t.
Proof.
  intros Hw Hs -> Hk.
  assert (Ek : k / 4 * 2 * 2 = k) by (pose proof (Nat.div_mod_eq k 4); lia).
  unfold rearrange_unpatchify. rewrite Hs, Nat.eqb_refl.
  change (2 * 2) with 4. rewrite Hk. cbn [Nat.eqb andb].
  eexists. split; [reflexivity|]. split; [reflexivity|].
  unfold rearrange_patchify. cbn [shape view].
  rewrite !Nat.Div0.mod_mul, !Nat.div_mul by lia. cbn [Nat.eqb andb].
  set (u := view [b; hl; wl; k / 4; 2; 2] t).
  assert (Hu : wf u).
  { unfold wf, u. cbn [data shape view]. rewrite Hw, Hs. cbn [numel fold_right].
    rewrite <- Ek at 1. ring. }
  assert (Hv : view [b; k / 4; hl; 2; wl; 2]
                 (view [b; k / 4; hl * 2; wl * 2] (permute merge_split u))
               = permute merge_split u) by reflexivity.
  rewrite Hv.
  rewrite permute_undo; [| right; split; reflexivity | reflexivity | exact Hu].
  destruct t as [dt s d]. unfold u, view. cbn [dtype data shape] in Hs |- *. subst s.
  rewrite Ek. reflexivity.
Qed.

End PatchLayout.

Lemma patch_layout_witness :
  item Toy.patches0 [0; 1 * (4 / 2) + 0; 0 * 4 + 1 * 2 + 1]
  = item Toy.x0 [0; 0; 2 * 1 + 1; 2 * 0 + 1].
Proof.
  apply (patch_layout Toy.x0 Toy.patches0 1 1 4 4);
    first [reflexivity | vm_compute; repeat constructor].
Defined.

Lemma unpatchify_patchify_roundtrip_witness :
  exists x,
    rearrange_unpatchify 2 2 2 2 Toy.patches0 = Ok x
    /\ shape x = [1; 4 / 4; 2 * 2; 2 * 2]
    /\ rearrange_patchify 2 2 x = Ok Toy.patches0.
Proof.
  apply (unpatchify_patchify_roundtrip Toy.patches0 1 4 4 2 2); reflexivity.
Defined.

(** ** The sequence of calls *)

Section CallOrder.
Context {A Dtype : Type} `{Sc : Scalar A Dtype} `{Bk : Backend A Dtype}.
Local Abbreviation Tensor := (Tensor A Dtype).

Ltac run_step x E :=
  rewrite ?outcome_pair, ?trace_pair;
  lazymatch goal with
  | |- context [bind (call ?s ?a ?o) ?k] =>
      destruct o as [x|] eqn:E; [rewrite bind_call_some | rewrite bind_call_none]
  | |- context [bind (helper ?n ?o) ?k] =>
      destruct o as [x|] eqn:E; [rewrite bind_helper_some | rewrite bind_helper_none]
  | |- context [bind (lift ?r) ?k] =>
      destruct r as [x|] eqn:E; [rewrite bind_lift_ok | rewrite bind_lift_raise]
  end;
  rewrite ?outcome_pair, ?trace_pair.

Ltac flatten :=
  repeat (progress (rewrite ?app_nil_r, ?map_app, <- ?app_assoc; cbn [map callee app]));
  reflexivity.

Ltac stop := split; [flatten | intros ?out ?H; discriminate].

(** The calls of a stack of double-stream blocks: the blocks in order, up
    to the one that raises. *)
Lemma double_calls_prefix blocks : forall k (img txt vec pe : Tensor),
  exists rest,
    map DoubleBlocks (seq k (length blocks))
    = map callee (double_calls blocks k img txt vec pe) ++ rest
    /\ (forall r, double_chain blocks k img txt vec pe = Some r -> rest = []).
Proof.
  induction blocks as [|b blocks IH]; intros k img txt vec pe.
  - exists []. split; [reflexivity|auto].
  - cbn [length seq map double_calls double_chain].
    destruct (forward_double (DoubleBlocks k) b img txt vec pe) as [r|].
    + destruct (IH (S k) (fst r) (snd r) vec pe) as (rest & H1 & H2).
      exists rest. split; [cbn; rewrite H1; reflexivity|].
      cbn [obind]. exact H2.
    + eexists. split; [reflexivity|]. intros r H; discriminate H.
Qed.

Lemma single_calls_prefix blocks : forall k (img vec pe : Tensor),
  exists rest,
    map SingleBlocks (seq k (length blocks))
    = map callee (single_calls blocks k img vec pe) ++ rest
    /\ (forall r, single_chain blocks k img vec pe = Some r -> rest = []).
Proof.
  induction blocks as [|b blocks IH]; intros k img vec pe.
  - exists []. split; [reflexivity|auto].
  - cbn [length seq map single_calls single_chain].
    destruct (forward_single (SingleBlocks k) b img vec pe) as [r|].
    + destruct (IH (S k) r vec pe) as (rest & H1 & H2).
      exists rest. split; [cbn; rewrite H1; reflexivity|].
      cbn [obind]. exact H2.
    + eexists. split; [reflexivity|]. intros r H; discriminate H.
Qed.

(** The calls of the guidance step. *)
Lemma guidance_stage_callees (self : Flux Dtype) (dt : Dtype) (t : Tensor)
    (guidance : option Tensor) :
  let G := if FluxParams.guidance_embed (params self) then
             match guidance with
             | Some g =>
                 bind (helper "timestep_embedding" (timestep_embedding g 256))
                   (fun ge =>
                    bind (call GuidanceIn [to_dtype dt ge]
                            (forward1 GuidanceIn (guidance_in self) (to_dtype dt ge)))
                      (fun gv => lift (tensor_add t gv)))
             | None => raise guidance_error
             end
           else ret t in
  exists rest,
    (if FluxParams.guidance_embed (params self) then [GuidanceIn] else [])
    = map callee (trace G) ++ rest
    /\ (forall v, outcome G = Ok v -> rest = []).
Proof.
  cbv zeta.
  destruct (FluxParams.guidance_embed (params self)).
  - destruct guidance as [g|].
    + destruct (timestep_embedding g 256) as [gemb|];
        [rewrite bind_helper_some | rewrite bind_helper_none].
      * destruct (forward1 GuidanceIn (guidance_in self) (to_dtype dt gemb)) as [gv|];
          [rewrite bind_call_some | rewrite bind_call_none];
          rewrite outcome_pair, trace_pair.
        -- exists []. split; [reflexivity|auto].
        -- exists []. split; [reflexivity|auto].
      * eexists. split; [reflexivity|]. intros v H; discriminate H.
    + eexists. split; [reflexivity|]. intros v H; discriminate H.
  - exists []. split; [reflexivity|auto].
Qed.

Lemma forward_orig_callees (self : Flux Dtype)
    (img img_ids txt txt_ids timesteps y : Tensor) (guidance : option Tensor) :
  exists rest,
    call_order self
    = map callee (trace (forward_orig self img img_ids txt txt_ids timesteps y guidance))
      ++ rest
    /\ (forall out,
          outcome (forward_orig self img img_ids txt txt_ids timesteps y guidance) = Ok out ->
          rest = []).
Proof.
  unfold forward_orig, call_order.
  destruct (negb (ndim img =? 3) || negb (ndim txt =? 3)).
  { eexists. split; [reflexivity|]. intros out H; discriminate H. }
  unfold apply1, apply_final.
  run_step img1 E1; [|eexists; split; [reflexivity|intros out H; discriminate H]].
  run_step te E2; [|eexists; split; [reflexivity|intros out H; discriminate H]].
  run_step t E3; [|eexists; split; [reflexivity|intros out H; discriminate H]].
  match goal with
  | |- context [bind (if ?c then ?a else ?b) ?k] => set (G := if c then a else b)
  end.
  destruct (guidance_stage_callees self (dtype img1) t guidance) as (rg & HG & HGo).
  cbv zeta in HG, HGo. fold G in HG, HGo.
  rewrite HG. clear HG.
  rewrite outcome_bind, trace_bind. cbn [app].
  destruct (outcome G) as [tg|] eqn:EG.
  2:{ rewrite app_nil_r.
      exists (rg ++ [VectorIn; TxtIn; PeEmbedder]
                 ++ map DoubleBlocks (seq 0 (length (double_blocks self)))
                 ++ map SingleBlocks (seq 0 (length (single_blocks self)))
                 ++ [FinalLayer]).
      split; [|intros out H; discriminate H].
      cbn [map app callee]. rewrite <- app_assoc. reflexivity. }
  rewrite (HGo tg eq_refl), app_nil_r. clear HGo.
  pose (DD := map DoubleBlocks (seq 0 (length (double_blocks self)))).
  pose (SS := map SingleBlocks (seq 0 (length (single_blocks self)))).
  fold DD SS.
  run_step yv E4; [|exists ([TxtIn; PeEmbedder] ++ DD ++ SS ++ [FinalLayer]); stop].
  run_step vec E5; [|exists ([TxtIn; PeEmbedder] ++ DD ++ SS ++ [FinalLayer]); stop].
  run_step txt1 E6; [|exists ([PeEmbedder] ++ DD ++ SS ++ [FinalLayer]); stop].
  run_step ids E7; [|exists ([PeEmbedder] ++ DD ++ SS ++ [FinalLayer]); stop].
  run_step pe E8; [|exists (DD ++ SS ++ [FinalLayer]); stop].
  destruct (double_calls_prefix (double_blocks self) 0 img1 txt1 vec pe)
    as (rd & HD & HDo).
  fold DD in HD.
  destruct (run_double_blocks_spec (double_blocks self) 0 img1 txt1 vec pe) as [HDv HDt].
  rewrite outcome_bind, trace_bind, HDt.
  set (D := double_calls (double_blocks self) 0 img1 txt1 vec pe) in *.
  rewrite HD. clear HD.
  destruct (outcome (run_double_blocks (double_blocks self) 0 img1 txt1 vec pe))
    as [r|] eqn:ED; [|exists (rd ++ SS ++ [FinalLayer]); stop].
  cbn [value] in HDv. rewrite (HDo r (eq_sym HDv)). clear HDo.
  run_step x0 E9; [|exists (SS ++ [FinalLayer]); stop].
  destruct (single_calls_prefix (single_blocks self) 0 x0 vec pe) as (rs & HS & HSo).
  fold SS in HS.
  destruct (run_single_blocks_spec (single_blocks self) 0 x0 vec pe) as [HSv HSt].
  rewrite outcome_bind, trace_bind, HSt.
  set (S := single_calls (single_blocks self) 0 x0 vec pe) in *.
  rewrite HS. clear HS.
  destruct (outcome (run_single_blocks (single_blocks self) 0 x0 vec pe))
    as [x1|] eqn:ES; [|exists (rs ++ [FinalLayer]); stop].
  cbn [value] in HSv. rewrite (HSo x1 (eq_sym HSv)). clear HSo.
  run_step n E10; [|exists [FinalLayer]; stop].
  run_step x2 E11; [|exists [FinalLayer]; stop].
  run_step o E12.
  - unfold ret. rewrite outcome_pair, trace_pair.
    exists []. split; [|reflexivity]. flatten.
  - exists []. stop.
Qed.

Lemma call_order_nodup (self : Flux Dtype) : NoDup (call_order self).
Proof.
  unfold call_order.
  assert (HD : forall n, NoDup (map DoubleBlocks (seq 0 n))).
  { intros n. apply NoDup_map_NoDup_ForallPairs; [|apply seq_NoDup].
    intros a b _ _ H. injection H as ->. reflexivity. }
  assert (HS : forall n, NoDup (map SingleBlocks (seq 0 n))).
  { intros n. apply NoDup_map_NoDup_ForallPairs; [|apply seq_NoDup].
    intros a b _ _ H. injection H as ->. reflexivity. }
  assert (Htail : NoDup (map DoubleBlocks (seq 0 (length (double_blocks self)))
                         ++ map SingleBlocks (seq 0 (length (single_blocks self)))
                         ++ [FinalLayer])).
  { apply NoDup_app; [apply HD| |].
    - apply NoDup_app; [apply HS| |].
      + repeat constructor. intros [].
      + intros a Ha [Hb|[]]. apply in_map_iff in Ha. destruct Ha as (k & <- & _).
        discriminate Hb.
    - intros a Ha Hb. apply in_map_iff in Ha. destruct Ha as (k & <- & _).
      apply in_app_or in Hb. destruct Hb as [Hb|[Hb|[]]]; [|discriminate Hb].
      apply in_map_iff in Hb. destruct Hb as (j & Hj & _). discriminate Hj. }
  assert (Hin : forall s,
             In s (map DoubleBlocks (seq 0 (length (double_blocks self)))
                   ++ map SingleBlocks (seq 0 (length (single_blocks self)))
                   ++ [FinalLayer]) -> 1 <= match s with
                                             | DoubleBlocks _ => 1
                                             | SingleBlocks _ => 2
                                             | FinalLayer => 3
                                             | _ => 0
                                             end).
  { intros s Hs. apply in_app_or in Hs. destruct Hs as [Hs|Hs].
    - apply in_map_iff in Hs. destruct Hs as (k & <- & _). lia.
    - apply in_app_or in Hs. destruct Hs as [Hs|[<-|[]]]; [|lia].
      apply in_map_iff in Hs. destruct Hs as (k & <- & _). lia. }
  destruct (FluxParams.guidance_embed (params self)); cbn [app];
    repeat (constructor;
            [cbn [In]; intros H;
             repeat (destruct H as [H|H]; [discriminate H|]);
             apply Hin in H; cbn in H; lia|]);
    exact Htail.
Qed.

(** X7. In every run of [forward_orig], whatever its outcome, the
    sub-layers called are an initial part of the call order: none is called
    out of turn, none twice, and guidance_in not at all by a model that is
    not guidance-distilled. *)
Theorem calls_follow_order (self : Flux Dtype)
    (img img_ids txt txt_ids timesteps y : Tensor) (guidance : option Tensor) :
  let calls :=
    map callee (trace (forward_orig self img img_ids txt txt_ids timesteps y guidance)) in
  (exists rest, call_order self = calls ++ rest)
  /\ NoDup calls
  /\ (FluxParams.guidance_embed (params self) = false -> ~ In GuidanceIn calls).
Proof.
  cbv zeta.
  destruct (forward_orig_callees self img img_ids txt txt_ids timesteps y guidance)
    as (rest & H & _).
  split; [exists rest; exact H|]. split.
  - apply (NoDup_app_remove_r _ rest). rewrite <- H. apply call_order_nodup.
  - intros Hg Hin.
    assert (Hc : In GuidanceIn (call_order self))
      by (rewrite H; apply in_or_app; left; exact Hin).
    unfold call_order in Hc. rewrite Hg in Hc. cbn [app In] in Hc.
    repeat (destruct Hc as [Hc|Hc]; [discriminate Hc|]).
    apply in_app_or in Hc. destruct Hc as [Hc|Hc].
    + apply in_map_iff in Hc. destruct Hc as (k & Hk & _). discriminate Hk.
    + apply in_app_or in Hc. destruct Hc as [Hc|[Hc|[]]]; [|discriminate Hc].
      apply in_map_iff in Hc. destruct Hc as (k & Hk & _). discriminate Hk.
Qed.

(** X8. A run of [forward_orig] that returns has called every sub-layer
    exactly once, in the call order: img_in, time_in, guidance_in if the
    model is guidance-distilled, vector_in, txt_in, pe_embedder, the
    double-stream blocks from first to last, the single-stream blocks from
    first to last, the final layer. *)
Theorem complete_pass_calls (self : Flux Dtype)
    (img img_ids txt txt_ids timesteps y : Tensor) (guidance : option Tensor)
    (out : Tensor) :
  outcome (forward_orig self img img_ids txt txt_ids timesteps y guidance) = Ok out ->
  map callee (trace (forward_orig self img img_ids txt txt_ids timesteps y guidance))
  = call_order self.
Proof.
  intros Hout.
  destruct (forward_orig_callees self img img_ids txt txt_ids timesteps y guidance)
    as (rest & H & Hr).
  rewrite H, (Hr out Hout), app_nil_r. reflexivity.
Qed.

End CallOrder.

Lemma complete_pass_calls_witness :
  map callee (trace Toy.run_orig)
  = [ImgIn; TimeIn; GuidanceIn; VectorIn; TxtIn; PeEmbedder; DoubleBlocks 0;
     DoubleBlocks 1; SingleBlocks 0; SingleBlocks 1; SingleBlocks 2; FinalLayer].
Proof.
  eapply (complete_pass_calls (Toy.model true) Toy.img0 Toy.img_ids0 Toy.txt0
            Toy.txt_ids0 Toy.timestep0 Toy.y0 (Some Toy.guidance0)).
  vm_compute. reflexivity.
Defined.


Lemma calls_follow_order_witness :
  ~ In GuidanceIn
      (map callee (trace (forward_orig (Toy.model false) Toy.img0 Toy.img_ids0 Toy.txt0
                            Toy.txt_ids0 Toy.timestep0 Toy.y0 (Some Toy.guidance0)))).
Proof.
  apply (proj2 (proj2 (calls_follow_order (Toy.model false) Toy.img0 Toy.img_ids0
                         Toy.txt0 Toy.txt_ids0 Toy.timestep0 Toy.y0
                         (Some Toy.guidance0)))).
  reflexivity.
Defined.

(** ** What the embedders are called on *)

Section EmbedderInputs.
Context {A Dtype : Type} `{Sc : Scalar A Dtype} `{Bk : Backend A Dtype}.
Local Abbreviation Tensor := (Tensor A Dtype).

Ltac run_step x E :=
  rewrite ?outcome_pair, ?trace_pair;
  lazymatch goal with
  | |- context [bind (call ?s ?a ?o) ?k] =>
      destruct o as [x|] eqn:E; [rewrite bind_call_some | rewrite bind_call_none]
  | |- context [bind (helper ?n ?o) ?k] =>
      destruct o as [x|] eqn:E; [rewrite bind_helper_some | rewrite bind_helper_none]
  | |- context [bind (lift ?r) ?k] =>
      destruct r as [x|] eqn:E; [rewrite bind_lift_ok | rewrite bind_lift_raise]
  end;
  rewrite ?outcome_pair, ?trace_pair.

Lemma block_call_input self (img txt timesteps y : Tensor) guidance (e : Event A Dtype) :
  1 <= phase e -> embedder_input self img txt timesteps y guidance e.
Proof.
  unfold phase, embedder_input. destruct (callee e); intros H; try exact I; lia.
Qed.

Lemma guidance_stage_inputs (self : Flux Dtype) (img txt timesteps y img1 t : Tensor)
    (guidance : option Tensor) :
  forward1 ImgIn (img_in self) img = Some img1 ->
  let G := if FluxParams.guidance_embed (params self) then
             match guidance with
             | Some g =>
                 bind (helper "timestep_embedding" (timestep_embedding g 256))
                   (fun ge =>
                    bind (call GuidanceIn [to_dtype (dtype img1) ge]
                            (forward1 GuidanceIn (guidance_in self)
                               (to_dtype (dtype img1) ge)))
                      (fun gv => lift (tensor_add t gv)))
             | None => raise guidance_error
             end
           else ret t in
  Forall (embedder_input self img txt timesteps y guidance) (trace G).
Proof.
  intros E1. cbv zeta.
  destruct (FluxParams.guidance_embed (params self)); [|constructor].
  destruct guidance as [g|]; [|constructor].
  destruct (timestep_embedding g 256) as [gemb|] eqn:Eg;
    [rewrite bind_helper_some | rewrite bind_helper_none; constructor].
  assert (H : embedder_input self img txt timesteps y (Some g)
                (Call GuidanceIn [to_dtype (dtype img1) gemb])).
  { cbn. exists img1, g, gemb. auto. }
  destruct (forward1 GuidanceIn (guidance_in self) (to_dtype (dtype img1) gemb));
    [rewrite bind_call_some | rewrite bind_call_none]; rewrite trace_pair;
    repeat constructor; exact H.
Qed.

(** X9. In every run of [forward_orig] the embedders work on the inputs
    themselves: img_in is called on [img], vector_in on [y], txt_in on
    [txt], and time_in and guidance_in on the embeddings of [timesteps]
    and [guidance] cast to the dtype of the projected image tokens. *)
Theorem embedders_take_inputs (self : Flux Dtype)
    (img img_ids txt txt_ids timesteps y : Tensor) (guidance : option Tensor) :
  Forall (embedder_input self img txt timesteps y guidance)
    (trace (forward_orig self img img_ids txt txt_ids timesteps y guidance)).
Proof.
  unfold forward_orig.
  destruct (negb (ndim img =? 3) || negb (ndim txt =? 3)); [constructor|].
  unfold apply1, apply_final.
  assert (H1 : embedder_input self img txt timesteps y guidance (Call ImgIn [img]))
    by reflexivity.
  assert (H4 : embedder_input self img txt timesteps y guidance (Call VectorIn [y]))
    by reflexivity.
  assert (H6 : embedder_input self img txt timesteps y guidance (Call TxtIn [txt]))
    by reflexivity.
  run_step img1 E1; [|repeat constructor; exact H1].
  run_step te E2; [|repeat constructor; exact H1].
  assert (H3 : embedder_input self img txt timesteps y guidance
                 (Call TimeIn [to_dtype (dtype img1) te])).
  { cbn. exists img1, te. auto. }
  run_step t E3; [|repeat constructor; assumption].
  match goal with
  | |- context [bind (if ?c then ?a else ?b) ?k] => set (G := if c then a else b)
  end.
  pose proof (guidance_stage_inputs self img txt timesteps y img1 t guidance E1) as HG.
  cbv zeta in HG. fold G in HG.
  rewrite trace_bind.
  constructor; [exact H1|]. constructor; [exact H3|].
  apply Forall_app. split; [exact HG|].
  destruct (outcome G) as [tg|]; [|constructor].
  run_step yv E4; [|repeat constructor; assumption].
  run_step vec E5; [|repeat constructor; assumption].
  run_step txt1 E6; [|repeat constructor; assumption].
  run_step ids E7; [|repeat constructor; assumption].
  constructor; [exact H4|]. constructor; [exact H6|].
  assert (Hblocks : forall evs : list (Event A Dtype),
             Forall (fun e => 1 <= phase e) evs ->
             Forall (embedder_input self img txt timesteps y guidance) evs).
  { intros evs H. eapply Forall_impl; [|exact H].
    intros e He. apply block_call_input. exact He. }
  run_step pe E8; [|repeat constructor].
  constructor; [exact I|].
  rewrite trace_bind.
  destruct (run_double_blocks_spec (double_blocks self) 0 img1 txt1 vec pe) as [_ HDt].
  rewrite HDt. apply Forall_app. split.
  { apply Hblocks. eapply Forall_impl; [|apply double_calls_phase].
    intros e ->. lia. }
  destruct (outcome (run_double_blocks (double_blocks self) 0 img1 txt1 vec pe)) as [r|];
    [|constructor].
  run_step x0 E9; [|constructor].
  rewrite trace_bind.
  destruct (run_single_blocks_spec (single_blocks self) 0 x0 vec pe) as [_ HSt].
  rewrite HSt. apply Forall_app. split.
  { apply Hblocks. eapply Forall_impl; [|apply single_calls_phase].
    intros e ->. lia. }
  destruct (outcome (run_single_blocks (single_blocks self) 0 x0 vec pe)) as [x1|];
    [|constructor].
  run_step n E10; [|constructor].
  run_step x2 E11; [|constructor].
  run_step o E12; repeat constructor.
Qed.

End EmbedderInputs.

(** ** Shapes at the interface of [forward_orig] *)

Section InterfaceShapes.
Context {A Dtype : Type} `{Sc : Scalar A Dtype} `{Bk : Backend A Dtype}.
Local Abbreviation Tensor := (Tensor A Dtype).

(** X10. For a constructed model whose sub-layers keep to their shape
    contracts, [forward_orig] returns only if the image tokens have
    [in_channels] features, the text tokens have [context_in_dim] features
    and both come in the same batch size; what it returns has one row of
    [out_channels] features per image token. *)
Theorem forward_orig_shapes (dt : option Dtype) (p : FluxParams.t) (self : Flux Dtype)
    (img img_ids txt txt_ids timesteps y : Tensor) (guidance : option Tensor)
    (out : Tensor) (bs n d : nat) :
  ShapeContract ->
  __init__ dt p = Ok self ->
  shape img = [bs; n; d] ->
  outcome (forward_orig self img img_ids txt txt_ids timesteps y guidance) = Ok out ->
  Z.of_nat d = in_channels self
  /\ (exists l dc, shape txt = [bs; l; dc] /\ Z.of_nat dc = FluxParams.context_in_dim p)
  /\ shape out = [bs; n; Z.to_nat (out_channels self)].
Proof.
  intros C Hinit Hs Hout.
  destruct (init_projections dt p self Hinit) as (Himg & Htxt & Hfin & Hin).
  assert (Hoc : out_channels self = in_channels self).
  { revert Hinit. unfold __init__, py_mod, py_floordiv.
    destruct (FluxParams.num_heads p =? 0)%Z; [discriminate|]. cbn [rbind].
    destruct (negb (FluxParams.hidden_size p mod FluxParams.num_heads p =? 0)%Z);
      [discriminate|].
    destruct (negb (py_sum (FluxParams.axes_dim p)
                    =? FluxParams.hidden_size p / FluxParams.num_heads p)%Z);
      [discriminate|].
    intros H; injection H as <-. reflexivity. }
  destruct (forward_orig_ok _ _ _ _ _ _ _ _ _ Hout)
    as (_ & Ht & img1 & txt1 & ids & pe & vec & img2 & txt2 & x0 & x1 & m & x2 & pre
        & H1 & _ & H3 & _ & _ & H6 & H7 & H8 & H9 & H10 & H11 & _ & _).
  rewrite Himg in H1. cbn [forward1] in H1.
  rewrite Htxt in H3. cbn [forward1] in H3.
  rewrite Hfin in H11. cbn [forward_final] in H11.
  destruct (linear_shape C _ _ _ _ _ _ H1) as (r & d' & Hr & Hd & Himg1).
  rewrite Hs in Hr. apply app_last_inv in Hr. destruct Hr as [-> ->].
  destruct (linear_shape C _ _ _ _ _ _ H3) as (rt & dc & Hrt & Hdc & Htxt1).
  assert (Hrt' : exists bt l, rt = [bt; l]).
  { unfold ndim in Ht. rewrite Hrt, length_app in Ht. cbn in Ht.
    destruct rt as [|bt [|l [|? ?]]]; cbn in Ht; try lia. eauto. }
  destruct Hrt' as (bt & l & ->).
  destruct (double_chain_shape C _ _ _ _ _ _ _ _ H6) as [E2 E2'].
  rewrite Himg1 in E2. rewrite Htxt1 in E2'. cbn [app] in E2, E2'.
  pose proof (single_chain_shape C _ _ _ _ _ _ H8) as E4.
  unfold shape_at in H9. rewrite E2' in H9. cbn in H9. injection H9 as <-.
  unfold cat1, legacy_empty in H7. rewrite E2, E2' in H7. cbn [shape_eqb] in H7.
  rewrite !andb_false_r in H7.
  destruct (Nat.eqb_spec bt bs) as [->|]; [|discriminate H7].
  rewrite Nat.eqb_refl in H7. cbn [andb] in H7. injection H7 as <-. cbn [shape] in E4.
  unfold slice1_from in H10. rewrite E4 in H10. injection H10 as <-.
  destruct (last_shape C _ _ _ _ _ _ _ H11) as (b' & n' & d'' & Hx2 & Hout').
  cbn [shape] in Hx2. injection Hx2 as <- <- <-.
  split; [rewrite Hin; exact Hd|]. split.
  - exists l, dc. split; [exact Hrt|exact Hdc].
  - rewrite Hout', Hoc, Hin.
    replace (l + n - l) with n by lia.
    replace (1 * 1 * FluxParams.in_channels p)%Z with (FluxParams.in_channels p) by lia.
    reflexivity.
Qed.

End InterfaceShapes.

Lemma forward_orig_shapes_witness :
  exists out,
    outcome Toy.run_orig = Ok out
    /\ Z.of_nat 4 = in_channels (Toy.model true)
    /\ (exists l dc, shape Toy.txt0 = [1; l; dc]
                     /\ Z.of_nat dc = FluxParams.context_in_dim (Toy.cfg true))
    /\ shape out = [1; 4; Z.to_nat (out_channels (Toy.model true))].
Proof.
  eexists. split; [vm_compute; reflexivity|].
  apply (forward_orig_shapes (Some Toy.F32) (Toy.cfg true) (Toy.model true) Toy.img0
           Toy.img_ids0 Toy.txt0 Toy.txt_ids0 Toy.timestep0 Toy.y0 (Some Toy.guidance0)).
  - exact toy_shape_contract.
  - reflexivity.
  - reflexivity.
  - vm_compute. reflexivity.
Defined.

(** ** Concatenation and cut *)

Section CatSlice.
Context {A Dtype : Type} `{Sc : Scalar A Dtype}.
Local Abbreviation Tensor := (Tensor A Dtype).

(** X11. Cutting the text tokens off the front of the concatenation of
    text and image tokens gives the image tokens back: for well-formed
    [txt] of shape (b, l, ...) and [img] of shape (b, n, ...) with the same
    trailing axes, [cat((txt, img), 1)] has l + n tokens and
    [cat((txt, img), 1)[:, l:, ...]] has the shape and the values of
    [img], in the dtype the two promote to. *)
Theorem cut_undoes_cat (txt img : Tensor) (b l n : nat) (r : list nat) :
  wf txt -> wf img ->
  shape txt = b :: l :: r ->
  shape img = b :: n :: r ->
  exists x y,
    cat1 txt img = Ok x
    /\ shape x = b :: (l + n) :: r
    /\ slice1_from l x = Ok y
    /\ shape y = shape img
    /\ data y = data img
    /\ dtype y = promote (dtype txt) (dtype img).
Proof.
  intros Wt Wi Ht Hi. unfold wf in Wt, Wi. rewrite Ht in Wt. rewrite Hi in Wi.
  cbn [numel fold_right] in Wt, Wi. fold (numel r) in Wt, Wi.
  unfold cat1, legacy_empty. rewrite Ht, Hi. cbn [shape_eqb].
  rewrite !andb_false_r, Nat.eqb_refl.
  assert (Hr : shape_eqb r r = true).
  { clear. induction r as [|a r IH]; [reflexivity|]. cbn. rewrite Nat.eqb_refl. exact IH. }
  rewrite Hr. cbn [andb].
  eexists. eexists. split; [reflexivity|]. split; [reflexivity|].
  unfold slice1_from. cbn [shape data dtype].
  split; [reflexivity|]. split; [replace (l + n - l) with n by lia; reflexivity|].
  split; [|reflexivity].
  set (R := numel r) in *.
  set (F := fun i => rows R (i * l) (i * l + l) (data txt)
                     ++ rows R (i * n) (i * n + n) (data img)).
  transitivity (flat_map (fun i => firstn (n * R) (skipn (i * (n * R)) (data img)))
                  (seq 0 b)); [|apply flat_map_chunks; lia].
  apply flat_map_ext_seq. intros i Hi'.
  assert (HF : forall j, j < b -> length (F j) = (l + n) * R).
  { intros j Hj. unfold F. rewrite length_app, !rows_length by nia. lia. }
  unfold rows at 1.
  replace (Nat.min l (l + n)) with l by lia.
  replace (i * (l + n) + (l + n) - (i * (l + n) + l)) with n by lia.
  replace ((i * (l + n) + l) * R) with (l * R + i * ((l + n) * R)) by lia.
  rewrite <- skipn_skipn.
  rewrite (skipn_flat_map_chunks F ((l + n) * R)) by (try (intros m Hm; apply HF); lia).
  destruct (b - i) as [|k] eqn:Ek; [lia|].
  cbn [seq flat_map Nat.add]. unfold F at 1.
  rewrite <- app_assoc, skipn_app.
  assert (Hl : length (rows R (i * l) (i * l + l) (data txt)) = l * R)
    by (apply rows_length; nia).
  rewrite skipn_all2 by lia. rewrite Hl, Nat.sub_diag. cbn [app skipn].
  assert (Hn : length (rows R (i * n) (i * n + n) (data img)) = n * R)
    by (apply rows_length; nia).
  rewrite firstn_app, Hn, Nat.sub_diag. cbn [firstn]. rewrite app_nil_r.
  rewrite firstn_all2 by lia.
  unfold rows. f_equal; [lia|]. f_equal. lia.
Qed.

End CatSlice.

Lemma cut_undoes_cat_witness :
  exists x y,
    cat1 Toy.context0 Toy.img_narrow = Ok x
    /\ shape x = [1; 2 + 4; 3]
    /\ slice1_from 2 x = Ok y
    /\ shape y = shape Toy.img_narrow
    /\ data y = data Toy.img_narrow
    /\ dtype y = promote (dtype Toy.context0) (dtype Toy.img_narrow).
Proof.
  apply (cut_undoes_cat Toy.context0 Toy.img_narrow 1 2 4 [3]); reflexivity.
Defined.

(** ** Where [forward] can fail *)

Section ForwardFailures.
Context {A Dtype : Type} `{Sc : Scalar A Dtype} `{Bk : Backend A Dtype}.
Local Abbreviation Tensor := (Tensor A Dtype).

(** X12. For a constructed model whose sub-layers keep to their shape
    contracts, once a sub-layer has been called [forward] raises only what
    [forward_orig] raises on the patches of [x]: the rearrangement of the
    result back into a latent never fails. *)
Theorem forward_fails_in_forward_orig (dt : option Dtype) (p : FluxParams.t)
    (self : Flux Dtype) (x timestep context y : Tensor) (guidance : option Tensor)
    (e : exn) :
  ShapeContract ->
  __init__ dt p = Ok self ->
  outcome (forward self x timestep context y guidance) = Raise e ->
  trace (forward self x timestep context y guidance) <> [] ->
  exists img img_ids txt_ids,
    rearrange_patchify 2 2 x = Ok img
    /\ trace (forward self x timestep context y guidance)
       = trace (forward_orig self img img_ids context txt_ids timestep y guidance)
    /\ outcome (forward_orig self img img_ids context txt_ids timestep y guidance)
       = Raise e.
Proof.
  intros C Hinit Hout Htr.
  destruct (forward_cases self x timestep context y guidance)
    as [[Ht _]|(bs & c & h & w & img & img_ids & l & Hs & Hp & Hl & Hc & Ht & Ho)];
    [contradiction|].
  exists img, img_ids, (zeros (dtype x) [bs; l; 3]).
  split; [exact Hp|]. split; [exact Ht|].
  rewrite Ho in Hout.
  destruct (outcome (forward_orig self img img_ids context
                       (zeros (dtype x) [bs; l; 3]) timestep y guidance))
    as [out0|e0] eqn:E0; [|exact Hout].
  exfalso. cbn [rbind] in Hout.
  destruct (patchify_shape _ _ _ _ _ _ Hp Hs) as (_ & _ & Himg).
  destruct (forward_orig_shape C dt p self _ _ _ _ _ _ _ _ _ _ _ Hinit Himg E0)
    as [Hd Hout0].
  rewrite <- Hd, Nat2Z.id in Hout0.
  unfold rearrange_unpatchify in Hout. rewrite Hout0, Nat.eqb_refl in Hout.
  replace (c * 2 * 2) with (c * (2 * 2)) in Hout by lia.
  rewrite Nat.Div0.mod_mul in Hout. discriminate Hout.
Qed.

End ForwardFailures.

Lemma forward_fails_in_forward_orig_witness :
  exists img img_ids txt_ids,
    rearrange_patchify 2 2 Toy.x0 = Ok img
    /\ trace (forward (Toy.model true) Toy.x0 Toy.timestep0 Toy.context0 Toy.y0 None)
       = trace (forward_orig (Toy.model true) img img_ids Toy.context0 txt_ids
                  Toy.timestep0 Toy.y0 None)
    /\ outcome (forward_orig (Toy.model true) img img_ids Toy.context0 txt_ids
                  Toy.timestep0 Toy.y0 None)
       = Raise guidance_error.
Proof.
  apply (forward_fails_in_forward_orig (Some Toy.F32) (Toy.cfg true) (Toy.model true)
           Toy.x0 Toy.timestep0 Toy.context0 Toy.y0 None guidance_error).
  - exact toy_shape_contract.
  - reflexivity.
  - vm_compute. reflexivity.
  - vm_compute. discriminate.
Defined.
